(** * FlipClock: dial positioning and time-setting firmware

    A shallow embedding of the three Arduino sketches of the repository

    - [Arduino_RTC_FlipClock.ino], first sketch (RTC + PCF8574 expander,
      "version 2.0"), module [RtcExpander];
    - [Arduino_RTC_FlipClock.ino], second sketch (RTC, switches read with
      [digitalRead]), module [RtcDirect];
    - [Arduino_WiFi_FlipClock.ino] and its commented copy (NTP time source),
      module [WiFi].

    The sketches are single-threaded and block on their limit switches.  A
    sketch is modelled as a state transformer over the sketch globals, the
    time the RTC was last set to and an I/O log; inputs come from an
    environment that gives the level of every input, the value of
    [millis()] and the time reported by the RTC or the NTP client at every
    sampling instant.  Blocking loops take fuel: a run that exhausts it
    returns [None] together with the state reached, so every finite prefix
    of an execution is some run of the model. *)

From Stdlib Require Import ZArith List Bool Lia Arith PeanoNat.
Import ListNotations.

Local Open Scope Z_scope.

(** ** Hardware vocabulary *)

Inductive Level := LOW | HIGH.

Definition Level_eqb (a b : Level) : bool :=
  match a, b with
  | LOW, LOW | HIGH, HIGH => true
  | _, _ => false
  end.

(** The eight digital inputs.  The first sketch reads the four limit
    switches through the expander ([EXPANDER_PIN_...]), the others with
    [digitalRead]; the switch is the same. *)
Inductive Pin :=
| PIN_HOME_SWITCH_MINUTE
| PIN_STEP_SWITCH_MINUTE
| PIN_HOME_SWITCH_HOUR
| PIN_STEP_SWITCH_HOUR
| PIN_BTN_MODE_CANCEL
| PIN_BTN_HOUR_INC
| PIN_BTN_MINUTE_INC
| PIN_BTN_SAVE.

Definition EXPANDER_PIN_HOME_MINUTE := PIN_HOME_SWITCH_MINUTE.
Definition EXPANDER_PIN_STEP_MINUTE := PIN_STEP_SWITCH_MINUTE.
Definition EXPANDER_PIN_HOME_HOUR := PIN_HOME_SWITCH_HOUR.
Definition EXPANDER_PIN_STEP_HOUR := PIN_STEP_SWITCH_HOUR.

Inductive Servo := servoMinute | servoHour.

Definition Servo_eqb (a b : Servo) : bool :=
  match a, b with
  | servoMinute, servoMinute | servoHour, servoHour => true
  | _, _ => false
  end.

Inductive ClockState := NORMAL_MODE | SETTING_MODE.

Record DateTime := mkDateTime {
  year : Z; month : Z; day : Z; hour : Z; minute : Z; second : Z
}.

(** The servo calibration constants of a sketch. *)
Record Config := mkConfig {
  SERVO_STOP_POSITION : Z;
  SERVO_MOVE_OFFSET_MINUTE : Z;
  SERVO_MOVE_OFFSET_HOUR : Z
}.

Definition moveOffset (cfg : Config) (sv : Servo) : Z :=
  match sv with
  | servoMinute => SERVO_MOVE_OFFSET_MINUTE cfg
  | servoHour => SERVO_MOVE_OFFSET_HOUR cfg
  end.

(** Number of positions of a dial: the modulus of its counter. *)
Definition dialRange (sv : Servo) : Z :=
  match sv with servoMinute => 60 | servoHour => 24 end.

(** ** Environment

    What the hardware answers at sampling instant [t].  Every read of the
    sketch takes one sample and moves to the next instant. *)
Record Env := mkEnv {
  pin_at : nat -> Pin -> Level;
  millis_at : nat -> Z;              (* unsigned long, 0 <= . < 2^32 *)
  rtc_found : bool;                  (* rtc.begin() *)
  rtc_lostPower : bool;              (* rtc.lostPower() *)
  rtc_time : nat -> DateTime -> DateTime;
                                     (* rtc.now(), the RTC having been set
                                        to the given time *)
  compileTime : DateTime;            (* DateTime(__DATE__, __TIME__) *)
  wifi_connected_at : nat -> bool;   (* WiFi.status() == WL_CONNECTED *)
  ntp_update_at : nat -> bool;       (* timeClient.update() *)
  ntp_hours_at : nat -> Z;           (* timeClient.getHours() *)
  ntp_minutes_at : nat -> Z          (* timeClient.getMinutes() *)
}.

(** ** I/O log

    Servo commands, switch and button reads and RTC writes, in the order
    they happen.  [EvCounter sv old new] records an assignment to the
    tracked position of dial [sv]. *)
Inductive Event :=
| EvServoWrite (sv : Servo) (v : Z)
| EvDigitalRead (p : Pin) (l : Level)
| EvRtcAdjust (dt : DateTime)
| EvCounter (sv : Servo) (old new : Z).

(** ** Sketch state *)
Record State := mkState {
  currentMode : ClockState;
  currentMinuteOnClock : Z;
  currentHourOnClock : Z;
  settingHour : Z;
  settingMinute : Z;
  lastButtonPressTime : Z;
  rtc : DateTime;        (* time the RTC chip was last set to *)
  tick : nat;            (* next sampling instant *)
  trace : list Event
}.

(** Globals as initialised by the sketches ([int] globals without
    initialiser are 0); the RTC was last set to [dt]. *)
Definition bootState (dt : DateTime) : State :=
  mkState NORMAL_MODE (-1) (-1) 0 0 0 dt 0 [].

Definition set_currentMode v s :=
  mkState v (currentMinuteOnClock s) (currentHourOnClock s) (settingHour s)
    (settingMinute s) (lastButtonPressTime s) (rtc s) (tick s) (trace s).
Definition set_currentMinuteOnClock v s :=
  mkState (currentMode s) v (currentHourOnClock s) (settingHour s)
    (settingMinute s) (lastButtonPressTime s) (rtc s) (tick s) (trace s).
Definition set_currentHourOnClock v s :=
  mkState (currentMode s) (currentMinuteOnClock s) v (settingHour s)
    (settingMinute s) (lastButtonPressTime s) (rtc s) (tick s) (trace s).
Definition set_settingHour v s :=
  mkState (currentMode s) (currentMinuteOnClock s) (currentHourOnClock s) v
    (settingMinute s) (lastButtonPressTime s) (rtc s) (tick s) (trace s).
Definition set_settingMinute v s :=
  mkState (currentMode s) (currentMinuteOnClock s) (currentHourOnClock s)
    (settingHour s) v (lastButtonPressTime s) (rtc s) (tick s) (trace s).
Definition set_lastButtonPressTime v s :=
  mkState (currentMode s) (currentMinuteOnClock s) (currentHourOnClock s)
    (settingHour s) (settingMinute s) v (rtc s) (tick s) (trace s).
Definition set_rtc v s :=
  mkState (currentMode s) (currentMinuteOnClock s) (currentHourOnClock s)
    (settingHour s) (settingMinute s) (lastButtonPressTime s) v (tick s)
    (trace s).

(** [io n evs s]: [n] samples were taken and [evs] was logged. *)
Definition io (n : nat) (evs : list Event) (s : State) : State :=
  mkState (currentMode s) (currentMinuteOnClock s) (currentHourOnClock s)
    (settingHour s) (settingMinute s) (lastButtonPressTime s) (rtc s)
    (tick s + n)%nat (trace s ++ evs).

(** Tracked position of a dial. *)
Definition counter (sv : Servo) (s : State) : Z :=
  match sv with
  | servoMinute => currentMinuteOnClock s
  | servoHour => currentHourOnClock s
  end.

Definition set_counter (sv : Servo) (v : Z) (s : State) : State :=
  match sv with
  | servoMinute => set_currentMinuteOnClock v s
  | servoHour => set_currentHourOnClock v s
  end.

(** ** Integer arithmetic of the sketches *)

(** C's [%] on [int] truncates towards zero.  The operands stay far from
    the bounds of [int]: the counters and scratch variables are below 60. *)
Definition c_rem (a b : Z) : Z := Z.rem a b.

(** [unsigned long] subtraction wraps modulo 2^32. *)
Definition ulong_sub (a b : Z) : Z := (a - b) mod 2 ^ 32.

Definition debounceDelay : Z := 250.

(** ** Computations

    [Prog A] is a computation with a fuel budget for its blocking loops.
    The state is returned also when the budget runs out. *)
Definition Prog (A : Type) : Type := nat -> State -> option A * State.

Definition ret {A} (a : A) : Prog A := fun _ s => (Some a, s).

Definition bind {A B} (m : Prog A) (k : A -> Prog B) : Prog B :=
  fun fuel s =>
    match m fuel s with
    | (Some a, s1) => k a fuel s1
    | (None, s1) => (None, s1)
    end.

Declare Scope prog_scope.
Delimit Scope prog_scope with prog.
Notation "x <- m ;; k" := (bind m (fun x => k))
  (at level 61, m at next level, right associativity) : prog_scope.
Notation "m ;; k" := (bind m (fun _ => k))
  (at level 61, right associativity) : prog_scope.
Local Open Scope prog_scope.

(** [while (cond) { body }]; one unit of fuel per test of the condition. *)
Fixpoint while (cond : Prog bool) (body : Prog unit) (fuel : nat) (s : State)
  : option unit * State :=
  match fuel with
  | O => (None, s)
  | S n =>
      match cond n s with
      | (Some true, s1) =>
          match body n s1 with
          | (Some _, s2) => while cond body n s2
          | (None, s2) => (None, s2)
          end
      | (Some false, s1) => (Some tt, s1)
      | (None, s1) => (None, s1)
      end
  end.

(** [while (1);]: never returns. *)
Definition halt {A} : Prog A := fun _ s => (None, s).

Definition get {A} (f : State -> A) : Prog A := fun _ s => (Some (f s), s).
Definition modify (f : State -> State) : Prog unit :=
  fun _ s => (Some tt, f s).

(** [delay(ms)] and the [Serial] output change nothing that is modelled. *)
Definition delay (ms : Z) : Prog unit := ret tt.

Definition servoWrite (sv : Servo) (v : Z) : Prog unit :=
  modify (io 0 [EvServoWrite sv v]).

(** Assignment to [currentMinuteOnClock] or [currentHourOnClock]. *)
Definition assignCounter (sv : Servo) (v : Z) : Prog unit :=
  modify (fun s => set_counter sv v (io 0 [EvCounter sv (counter sv s) v] s)).

(** [rtc.adjust(dt)]. *)
Definition rtc_adjust (dt : DateTime) : Prog unit :=
  modify (fun s => set_rtc dt (io 0 [EvRtcAdjust dt] s)).

Section Sketch.

Variable env : Env.
Variable cfg : Config.

Definition digitalRead (p : Pin) : Prog Level :=
  fun _ s =>
    let l := pin_at env (tick s) p in
    (Some l, io 1 [EvDigitalRead p l] s).

Definition millis : Prog Z :=
  fun _ s => (Some (millis_at env (tick s)), io 1 [] s).

(** [rtc.now()]: the chip keeps counting from the time it was set to. *)
Definition rtc_now : Prog DateTime :=
  fun _ s => (Some (rtc_time env (tick s) (rtc s)), io 1 [] s).

(** *** Low-level movement (the same text in the three sketches, up to the
    offsets, the arguments and number of the [delay]s and the [Serial]
    messages) *)

Definition goHomeMinute : Prog unit :=
  while (l <- digitalRead PIN_HOME_SWITCH_MINUTE ;; ret (Level_eqb l HIGH))
        (servoWrite servoMinute
           (SERVO_STOP_POSITION cfg + SERVO_MOVE_OFFSET_MINUTE cfg) ;;
         delay 20) ;;
  servoWrite servoMinute (SERVO_STOP_POSITION cfg) ;;
  assignCounter servoMinute 0.

Definition goHomeHour : Prog unit :=
  while (l <- digitalRead PIN_HOME_SWITCH_HOUR ;; ret (Level_eqb l HIGH))
        (servoWrite servoHour
           (SERVO_STOP_POSITION cfg + SERVO_MOVE_OFFSET_HOUR cfg) ;;
         delay 20) ;;
  servoWrite servoHour (SERVO_STOP_POSITION cfg) ;;
  assignCounter servoHour 0.

Definition moveMinuteStep : Prog unit :=
  servoWrite servoMinute
    (SERVO_STOP_POSITION cfg + SERVO_MOVE_OFFSET_MINUTE cfg) ;;
  while (l <- digitalRead PIN_STEP_SWITCH_MINUTE ;; ret (Level_eqb l HIGH))
        (delay 10) ;;
  while (l <- digitalRead PIN_STEP_SWITCH_MINUTE ;; ret (Level_eqb l LOW))
        (delay 10) ;;
  servoWrite servoMinute (SERVO_STOP_POSITION cfg) ;;
  m <- get currentMinuteOnClock ;;
  assignCounter servoMinute (c_rem (m + 1) 60).

Definition performHourSingleStep : Prog unit :=
  servoWrite servoHour
    (SERVO_STOP_POSITION cfg + SERVO_MOVE_OFFSET_HOUR cfg) ;;
  while (l <- digitalRead PIN_STEP_SWITCH_HOUR ;; ret (Level_eqb l HIGH))
        (delay 10) ;;
  while (l <- digitalRead PIN_STEP_SWITCH_HOUR ;; ret (Level_eqb l LOW))
        (delay 10) ;;
  servoWrite servoHour (SERVO_STOP_POSITION cfg).

Definition moveHourToNext : Prog unit :=
  performHourSingleStep ;;
  delay 100 ;;
  performHourSingleStep ;;
  h <- get currentHourOnClock ;;
  assignCounter servoHour (c_rem (h + 1) 24).

(** *** Reconciliation of the RTC sketches *)

Definition syncClockToRTC : Prog unit :=
  now <- rtc_now ;;
  let actualMinute := minute now in
  let actualHour := hour now in
  while (h <- get currentHourOnClock ;; ret (negb (h =? actualHour)))
        moveHourToNext ;;
  while (m <- get currentMinuteOnClock ;; ret (negb (m =? actualMinute)))
        moveMinuteStep.

End Sketch.

(** [if (c) { p }] without [else]. *)
Definition when (c : bool) (p : Prog unit) : Prog unit :=
  if c then p else ret tt.

(** [n] consecutive invocations of [p]. *)
Fixpoint invocations (n : nat) (p : Prog unit) : Prog unit :=
  match n with
  | O => ret tt
  | S k => p ;; invocations k p
  end.

(** The debounce test at the head of [handleButtons]:
    [millis() - lastButtonPressTime < debounceDelay]. *)
Definition inCooldown (now last : Z) : bool :=
  ulong_sub now last <? debounceDelay.

(** ** First RTC sketch: PCF8574 expander, [else if] chain of buttons *)
Module RtcExpander.

Definition cfg : Config := mkConfig 90 15 (-15).

Section WithEnv.
Variable env : Env.

Definition handleButtons : Prog unit :=
  t <- millis env ;;
  last <- get lastButtonPressTime ;;
  if inCooldown t last then ret tt
  else
    mode <- get currentMode ;;
    match mode with
    | NORMAL_MODE =>
        b <- digitalRead env PIN_BTN_MODE_CANCEL ;;
        when (Level_eqb b LOW)
          (t <- millis env ;;
           modify (set_lastButtonPressTime t) ;;
           modify (set_currentMode SETTING_MODE) ;;
           now <- rtc_now env ;;
           modify (set_settingHour (hour now)) ;;
           modify (set_settingMinute (minute now)))
    | SETTING_MODE =>
        b <- digitalRead env PIN_BTN_HOUR_INC ;;
        if Level_eqb b LOW then
          t <- millis env ;;
          modify (set_lastButtonPressTime t) ;;
          h <- get settingHour ;;
          modify (set_settingHour (c_rem (h + 1) 24)) ;;
          moveHourToNext env cfg
        else
          b <- digitalRead env PIN_BTN_MINUTE_INC ;;
          if Level_eqb b LOW then
            t <- millis env ;;
            modify (set_lastButtonPressTime t) ;;
            m <- get settingMinute ;;
            modify (set_settingMinute (c_rem (m + 1) 60)) ;;
            moveMinuteStep env cfg
          else
            b <- digitalRead env PIN_BTN_SAVE ;;
            if Level_eqb b LOW then
              t <- millis env ;;
              modify (set_lastButtonPressTime t) ;;
              now <- rtc_now env ;;
              sh <- get settingHour ;;
              sm <- get settingMinute ;;
              rtc_adjust (mkDateTime (year now) (month now) (day now) sh sm 0) ;;
              modify (set_currentMode NORMAL_MODE)
            else
              b <- digitalRead env PIN_BTN_MODE_CANCEL ;;
              when (Level_eqb b LOW)
                (t <- millis env ;;
                 modify (set_lastButtonPressTime t) ;;
                 modify (set_currentMode NORMAL_MODE) ;;
                 syncClockToRTC env cfg)
    end.

Definition setup : Prog unit :=
  when (negb (rtc_found env)) halt ;;
  when (rtc_lostPower env) (rtc_adjust (compileTime env)) ;;
  servoWrite servoMinute (SERVO_STOP_POSITION cfg) ;;
  servoWrite servoHour (SERVO_STOP_POSITION cfg) ;;
  goHomeHour env cfg ;;
  goHomeMinute env cfg ;;
  syncClockToRTC env cfg.

Definition loop : Prog unit :=
  handleButtons ;;
  mode <- get currentMode ;;
  match mode with
  | NORMAL_MODE => syncClockToRTC env cfg ;; delay 1000
  | SETTING_MODE => delay 50
  end.

(** [setup()] followed by [n] passes of [loop()]. *)
Definition sketch (n : nat) : Prog unit := setup ;; invocations n loop.

End WithEnv.
End RtcExpander.

(** ** Second RTC sketch: four independent [if]s in setting mode *)
Module RtcDirect.

Definition cfg : Config := mkConfig 90 5 (-5).

Section WithEnv.
Variable env : Env.

Definition handleButtons : Prog unit :=
  t <- millis env ;;
  last <- get lastButtonPressTime ;;
  if inCooldown t last then ret tt
  else
    mode <- get currentMode ;;
    match mode with
    | NORMAL_MODE =>
        b <- digitalRead env PIN_BTN_MODE_CANCEL ;;
        when (Level_eqb b LOW)
          (t <- millis env ;;
           modify (set_lastButtonPressTime t) ;;
           modify (set_currentMode SETTING_MODE) ;;
           now <- rtc_now env ;;
           modify (set_settingHour (hour now)) ;;
           modify (set_settingMinute (minute now)))
    | SETTING_MODE =>
        b <- digitalRead env PIN_BTN_HOUR_INC ;;
        when (Level_eqb b LOW)
          (t <- millis env ;;
           modify (set_lastButtonPressTime t) ;;
           h <- get settingHour ;;
           modify (set_settingHour (c_rem (h + 1) 24)) ;;
           moveHourToNext env cfg) ;;
        b <- digitalRead env PIN_BTN_MINUTE_INC ;;
        when (Level_eqb b LOW)
          (t <- millis env ;;
           modify (set_lastButtonPressTime t) ;;
           m <- get settingMinute ;;
           modify (set_settingMinute (c_rem (m + 1) 60)) ;;
           moveMinuteStep env cfg) ;;
        b <- digitalRead env PIN_BTN_SAVE ;;
        when (Level_eqb b LOW)
          (t <- millis env ;;
           modify (set_lastButtonPressTime t) ;;
           sh <- get settingHour ;;
           sm <- get settingMinute ;;
           rtc_adjust (mkDateTime 2025 6 23 sh sm 0) ;;
           modify (set_currentMode NORMAL_MODE)) ;;
        b <- digitalRead env PIN_BTN_MODE_CANCEL ;;
        when (Level_eqb b LOW)
          (t <- millis env ;;
           modify (set_lastButtonPressTime t) ;;
           modify (set_currentMode NORMAL_MODE) ;;
           syncClockToRTC env cfg)
    end.

Definition setup : Prog unit :=
  servoWrite servoMinute (SERVO_STOP_POSITION cfg) ;;
  servoWrite servoHour (SERVO_STOP_POSITION cfg) ;;
  when (negb (rtc_found env)) halt ;;
  when (rtc_lostPower env) (rtc_adjust (compileTime env)) ;;
  goHomeMinute env cfg ;;
  goHomeHour env cfg ;;
  syncClockToRTC env cfg.

Definition loop : Prog unit :=
  handleButtons ;;
  mode <- get currentMode ;;
  match mode with
  | NORMAL_MODE => syncClockToRTC env cfg ;; delay 1000
  | SETTING_MODE => delay 50
  end.

Definition sketch (n : nat) : Prog unit := setup ;; invocations n loop.

End WithEnv.
End RtcDirect.

(** ** WiFi sketch: NTP time source, no buttons *)
Module WiFi.

Definition cfg : Config := mkConfig 90 30 (-30).

Section WithEnv.
Variable env : Env.

(** [WiFi.status() == WL_CONNECTED] *)
Definition wifiConnected : Prog bool :=
  fun _ s => (Some (wifi_connected_at env (tick s)), io 1 [] s).

(** [timeClient.update()] and [timeClient.forceUpdate()]: did the client
    obtain the time. *)
Definition timeClient_update : Prog bool :=
  fun _ s => (Some (ntp_update_at env (tick s)), io 1 [] s).

Definition timeClient_forceUpdate : Prog bool :=
  fun _ s => (Some (ntp_update_at env (tick s)), io 1 [] s).

Definition timeClient_getMinutes : Prog Z :=
  fun _ s => (Some (ntp_minutes_at env (tick s)), io 1 [] s).

Definition timeClient_getHours : Prog Z :=
  fun _ s => (Some (ntp_hours_at env (tick s)), io 1 [] s).

Definition setup : Prog unit :=
  servoWrite servoMinute (SERVO_STOP_POSITION cfg) ;;
  servoWrite servoHour (SERVO_STOP_POSITION cfg) ;;
  while (c <- wifiConnected ;; ret (negb c)) (delay 500) ;;
  goHomeMinute env cfg ;;
  goHomeHour env cfg ;;
  while (u <- timeClient_update ;; ret (negb u))
        (_ <- timeClient_forceUpdate ;; ret tt).

Definition loop : Prog unit :=
  _ <- timeClient_update ;;
  actualMinute <- timeClient_getMinutes ;;
  actualHour <- timeClient_getHours ;;
  m <- get currentMinuteOnClock ;;
  when (negb (m =? actualMinute)) (moveMinuteStep env cfg) ;;
  h <- get currentHourOnClock ;;
  when (negb (h =? actualHour)) (moveHourToNext env cfg) ;;
  delay 1000.

Definition sketch (n : nat) : Prog unit := setup ;; invocations n loop.

End WithEnv.
End WiFi.

(** * Specification vocabulary *)

(** ** Outcomes of runs *)

(** [wlp f s Q]: every run of [f] from [s], whatever its fuel, ends with an
    outcome and a state that satisfy [Q]; the outcome is [None] for a run
    that is still blocked when the fuel is spent. *)
Definition wlp {A} (f : Prog A) (s : State)
  (Q : option A -> State -> Prop) : Prop :=
  forall fuel, Q (fst (f fuel s)) (snd (f fuel s)).

(** [returns f s Q]: with enough fuel, [f] returns from [s], always with the
    same value and state, which satisfy [Q]. *)
Definition returns {A} (f : Prog A) (s : State)
  (Q : A -> State -> Prop) : Prop :=
  exists N a s',
    (forall fuel, (N <= fuel)%nat -> f fuel s = (Some a, s')) /\ Q a s'.

(** [preserves R f]: if the state is [R]-related to a reference state [s0]
    before [f] runs, it is still so whenever [f] stops. *)
Definition preserves {A} (R : State -> State -> Prop) (f : Prog A) : Prop :=
  forall s0 s, R s0 s -> wlp f s (fun _ s' => R s0 s').

(** [hoare P f Q E]: from a state that satisfies [P], a run of [f] that
    returns ends in [Q] and one that is still blocked stops in [E]. *)
Definition hoare {A} (P : State -> Prop) (f : Prog A)
  (Q E : State -> Prop) : Prop :=
  forall s, P s ->
    wlp f s (fun r s' => match r with Some _ => Q s' | None => E s' end).

(** ** Switches *)

Definition other (l : Level) : Level :=
  match l with LOW => HIGH | HIGH => LOW end.

(** The switch wired to [p] is seen at level [l] at some instant from [t]
    on. *)
Definition eventually (env : Env) (p : Pin) (l : Level) (t : nat) : Prop :=
  exists t', (t <= t')%nat /\ pin_at env t' p = l.

(** The switch keeps being pressed and released: the dial is turning when
    its servo is driven. *)
Definition toggles (env : Env) (p : Pin) : Prop :=
  forall t, eventually env p LOW t /\ eventually env p HIGH t.

Section Vocabulary.

Variable env : Env.
Variable cfg : Config.

Local Abbreviation STOP := (SERVO_STOP_POSITION cfg).

(** ** The movement routines, by servo and switch

    The sketches write each polling loop, each press-release cycle and each
    homing routine once per dial; [poll], [pressRelease] and [homeDial] are
    the same texts with the servo and the switch as arguments. *)

(** [while (digitalRead(p) == lvl) { delay(d); }] *)
Definition poll (p : Pin) (lvl : Level) (d : Z) : Prog unit :=
  while (l <- digitalRead env p ;; ret (Level_eqb l lvl)) (delay d).

(** The body of [performHourSingleStep], and of [moveMinuteStep] up to the
    increment of the counter. *)
Definition pressRelease (sv : Servo) (p : Pin) : Prog unit :=
  servoWrite sv (STOP + moveOffset cfg sv) ;;
  poll p HIGH 10 ;;
  poll p LOW 10 ;;
  servoWrite sv STOP.

(** Log of a completed cycle: the servo is started, the switch is read
    released until it reads pressed, then pressed until it reads released,
    and the servo is stopped. *)
Definition stepTrace (sv : Servo) (p : Pin) (evs : list Event) : Prop :=
  exists a b,
    evs = EvServoWrite sv (STOP + moveOffset cfg sv)
          :: repeat (EvDigitalRead p HIGH) a ++ [EvDigitalRead p LOW]
          ++ repeat (EvDigitalRead p LOW) b ++ [EvDigitalRead p HIGH]
          ++ [EvServoWrite sv STOP].

(** What a dial's movement may log before it completes: commands to its own
    servo, stop or forward, and reads of its own switch [p]. *)
Definition motionEvent (sv : Servo) (p : Pin) (e : Event) : Prop :=
  match e with
  | EvServoWrite sv' v => sv' = sv /\ (v = STOP \/ v = STOP + moveOffset cfg sv)
  | EvDigitalRead p' _ => p' = p
  | _ => False
  end.

(** The body of [goHomeMinute] and of [goHomeHour]. *)
Definition homeDial (sv : Servo) (p : Pin) : Prog unit :=
  while (l <- digitalRead env p ;; ret (Level_eqb l HIGH))
        (servoWrite sv (STOP + moveOffset cfg sv) ;; delay 20) ;;
  servoWrite sv STOP ;;
  assignCounter sv 0.

(** Log of [k] turns of the homing loop: the switch read released, the
    servo driven forward. *)
Fixpoint driveTrace (sv : Servo) (p : Pin) (k : nat) : list Event :=
  match k with
  | O => []
  | S k' => EvDigitalRead p HIGH
            :: EvServoWrite sv (STOP + moveOffset cfg sv)
            :: driveTrace sv p k'
  end.

(** ** Logs and counters *)

Definition stepSwitch (p : Pin) : Prop :=
  p = PIN_STEP_SWITCH_MINUTE \/ p = PIN_STEP_SWITCH_HOUR.

(** Events of the single-step and hour advances: servo commands that are
    the stop pulse or the dial's forward command, reads of a step switch,
    and counter assignments of the form [new = (old + 1) % range]. *)
Definition dialEvent (e : Event) : Prop :=
  match e with
  | EvServoWrite sv v => v = STOP \/ v = STOP + moveOffset cfg sv
  | EvDigitalRead p _ => stepSwitch p
  | EvRtcAdjust _ => False
  | EvCounter sv old new => new = c_rem (old + 1) (dialRange sv)
  end.

Definition isCounterOf (sv : Servo) (e : Event) : bool :=
  match e with
  | EvCounter sv' _ _ => Servo_eqb sv' sv
  | _ => false
  end.

(** Number of assignments to the counter of dial [sv] in a log. *)
Definition advancesOf (sv : Servo) (evs : list Event) : nat :=
  length (filter (isCounterOf sv) evs).

Definition inRange (sv : Servo) (v : Z) : Prop := -1 <= v < dialRange sv.

(** A counter that was in range stays in range, and one that had left -1
    does not return to it. *)
Definition keeps (sv : Servo) (s s' : State) : Prop :=
  (inRange sv (counter sv s) -> inRange sv (counter sv s')) /\
  (0 <= counter sv s -> 0 <= counter sv s').

(** The variables of the mode state machine and the RTC are the same in
    [s] and [s']. *)
Definition sameGlobals (s s' : State) : Prop :=
  currentMode s' = currentMode s /\ settingHour s' = settingHour s /\
  settingMinute s' = settingMinute s /\
  lastButtonPressTime s' = lastButtonPressTime s /\ rtc s' = rtc s.

(** The log of [s'] is the log of [s] followed by events that satisfy
    [P]. *)
Definition logged (P : Event -> Prop) (s s' : State) : Prop :=
  exists evs, trace s' = trace s ++ evs /\ Forall P evs.

(** [advanced s s']: [s'] is [s] after some dial movement: only the two
    counters, the sampling instant and the log differ, the log grew by
    dial events, and the counters kept their range. *)
Definition advanced (s s' : State) : Prop :=
  sameGlobals s s' /\ (tick s <= tick s')%nat /\ logged dialEvent s s' /\
  keeps servoMinute s s' /\ keeps servoHour s s'.

(** Effect of one advance of dial [sv] that ended with outcome [r]. *)
Definition stepped (sv : Servo) (r : option unit) (s s' : State) : Prop :=
  advanced s s' /\
  (forall sv', sv' <> sv -> counter sv' s' = counter sv' s) /\
  counter sv s' =
    match r with
    | Some _ => c_rem (counter sv s + 1) (dialRange sv)
    | None => counter sv s
    end /\
  forall sv',
    advancesOf sv' (trace s') =
    (advancesOf sv' (trace s) +
     match r with
     | Some _ => if Servo_eqb sv' sv then 1 else 0
     | None => 0
     end)%nat.

(** Number of advances that take a counter from [cur] to [target]. *)
Definition distance (sv : Servo) (cur target : Z) : nat :=
  Z.to_nat (if cur =? -1 then target + 1
            else (target - cur) mod dialRange sv).

(** What homing dial [sv] on switch [p] may log, the counter being [old]
    when it starts. *)
Definition homingEvent (sv : Servo) (p : Pin) (old : Z) (e : Event) : Prop :=
  match e with
  | EvServoWrite sv' v =>
      sv' = sv /\ (v = SERVO_STOP_POSITION cfg
                   \/ v = SERVO_STOP_POSITION cfg + moveOffset cfg sv)
  | EvDigitalRead p' _ => p' = p
  | EvCounter sv' o n => sv' = sv /\ o = old /\ n = 0
  | EvRtcAdjust _ => False
  end.

End Vocabulary.

(** ** Invariants of whole sketches *)

(** The only servo commands are the stop pulse and the dial's forward
    command, and a counter only goes to [(old + 1) % range]. *)
Definition okEvent (cfg : Config) (e : Event) : Prop :=
  match e with
  | EvServoWrite sv v =>
      v = SERVO_STOP_POSITION cfg
      \/ v = SERVO_STOP_POSITION cfg + moveOffset cfg sv
  | EvCounter sv old new => new = c_rem (old + 1) (dialRange sv)
  | _ => True
  end.

(** [safeStep cfg s s']: from [s] to [s'] the log grew by [okEvent]s and the
    counters kept their range. *)
Definition safeStep (cfg : Config) (s s' : State) : Prop :=
  logged (okEvent cfg) s s' /\
  keeps servoMinute s s' /\ keeps servoHour s s'.

(** Both counters kept their range from [s] to [s']. *)
Definition kept (s s' : State) : Prop :=
  keeps servoMinute s s' /\ keeps servoHour s s'.

(** Both dials have been homed. *)
Definition homed (s : State) : Prop :=
  0 <= currentMinuteOnClock s /\ 0 <= currentHourOnClock s.

(** Before homing: the log is fine so far and both counters still hold
    -1. *)
Definition unhomed (cfg : Config) (s0 s : State) : Prop :=
  safeStep cfg s0 s /\
  currentMinuteOnClock s = -1 /\ currentHourOnClock s = -1.

(** The counter after one pass of the WiFi [loop] that saw the reading
    [target]. *)
Definition onePass (sv : Servo) (cur target : Z) : Z :=
  if cur =? target then cur else c_rem (cur + 1) (dialRange sv).

(** The routines of the three sketches.  [Routine env hm hh f]: [f] is a
    routine run against the hardware [env]; [hm] (resp. [hh]) tells that a
    return of [f] has homed the minute (resp. hour) dial. *)
Inductive Routine (env : Env) : bool -> bool -> Prog unit -> Prop :=
| R_goHomeMinute cfg : Routine env true false (goHomeMinute env cfg)
| R_goHomeHour cfg : Routine env false true (goHomeHour env cfg)
| R_moveMinuteStep cfg : Routine env false false (moveMinuteStep env cfg)
| R_performHourSingleStep cfg :
    Routine env false false (performHourSingleStep env cfg)
| R_moveHourToNext cfg : Routine env false false (moveHourToNext env cfg)
| R_syncClockToRTC cfg : Routine env false false (syncClockToRTC env cfg)
| R_handleButtons_expander :
    Routine env false false (RtcExpander.handleButtons env)
| R_handleButtons_direct :
    Routine env false false (RtcDirect.handleButtons env)
| R_loop_expander : Routine env false false (RtcExpander.loop env)
| R_loop_direct : Routine env false false (RtcDirect.loop env)
| R_loop_wifi : Routine env false false (WiFi.loop env)
| R_setup_expander : Routine env true true (RtcExpander.setup env)
| R_setup_direct : Routine env true true (RtcDirect.setup env)
| R_setup_wifi : Routine env true true (WiFi.setup env).

Definition returned {A} (r : option A * State) : bool :=
  match fst r with Some _ => true | None => false end.

(** States the firmware can be in: the power-up state, whatever time the
    RTC holds, and the state in which any run of any routine stops,
    finished or still blocked.  The two flags record whether a homing of
    the minute and of the hour dial has returned. *)
Inductive reachable : bool -> bool -> State -> Prop :=
| reach_boot dt : reachable false false (bootState dt)
| reach_run hm hh s env bm bh f fuel :
    reachable hm hh s -> Routine env bm bh f ->
    reachable (hm || (bm && returned (f fuel s)))
              (hh || (bh && returned (f fuel s)))
              (snd (f fuel s)).

(** The servo command that would turn dial [sv] the other way. *)
Definition backward (cfg : Config) (sv : Servo) : Z :=
  SERVO_STOP_POSITION cfg - moveOffset cfg sv.

(** [forwardOnly cfg e]: if [e] is a servo command it is the stop pulse or
    the dial's forward command, and not the backward one; if it is an
    assignment to a counter it is [new = (old + 1) % range]. *)
Definition forwardOnly (cfg : Config) (e : Event) : Prop :=
  okEvent cfg e /\
  match e with
  | EvServoWrite sv v => v <> backward cfg sv
  | _ => True
  end.

(** ** The button handler *)

(** The handler is past the cooldown when it is entered in state [s]. *)
Definition notInCooldown (env : Env) (s : State) : Prop :=
  inCooldown (millis_at env (tick s)) (lastButtonPressTime s) = false.

(** The [k]-th sample taken after entry in state [s] reads [l] on [p].  The
    handler takes sample 0 for [millis()] and then one sample per button it
    reads. *)
Definition sampled (env : Env) (s : State) (k : nat) (p : Pin) (l : Level)
  : Prop :=
  pin_at env (tick s + k) p = l.

Definition adjusted (evs : list Event) : Prop :=
  exists dt, In (EvRtcAdjust dt) evs.

Definition savePressed (evs : list Event) : Prop :=
  In (EvDigitalRead PIN_BTN_SAVE LOW) evs.

(** Between [s0] and [s] the RTC was written exactly if the save button
    was read pressed, and it holds the same time if it was not. *)
Definition rtcBySave (s0 s : State) : Prop :=
  exists evs,
    trace s = trace s0 ++ evs /\
    (adjusted evs <-> savePressed evs) /\
    (~ savePressed evs -> rtc s = rtc s0).

(** The save button has been read pressed and the write is still due. *)
Definition savePending (s0 s : State) : Prop :=
  exists evs, trace s = trace s0 ++ evs /\ savePressed evs.

(** A step that neither writes the RTC nor reads the save button. *)
Definition quiet (e : Event) : Prop :=
  match e with
  | EvRtcAdjust _ => False
  | EvDigitalRead PIN_BTN_SAVE LOW => False
  | _ => True
  end.

(** The button on [p] is never pressed. *)
Definition released (env : Env) (p : Pin) : Prop :=
  forall t, pin_at env t p = HIGH.

(** Scratch variable of a dial. *)
Definition scratch (sv : Servo) (s : State) : Z :=
  match sv with servoMinute => settingMinute s | servoHour => settingHour s end.

Definition otherDial (sv : Servo) : Servo :=
  match sv with servoMinute => servoHour | servoHour => servoMinute end.

(** Effect of the increment action of dial [sv], [r] being the outcome of
    the handler: the RTC, the mode and the other dial's scratch variable and
    counter are as before; the dial's scratch variable went one up modulo
    its range, and so did its counter if the movement has completed. *)
Definition incremented (sv : Servo) (r : option unit) (s s' : State) : Prop :=
  rtc s' = rtc s /\ currentMode s' = currentMode s /\
  scratch (otherDial sv) s' = scratch (otherDial sv) s /\
  counter (otherDial sv) s' = counter (otherDial sv) s /\
  scratch sv s' = c_rem (scratch sv s + 1) (dialRange sv) /\
  counter sv s' =
    match r with
    | Some _ => c_rem (counter sv s + 1) (dialRange sv)
    | None => counter sv s
    end.

(** Effect of the mode button in normal mode.  The handler has taken
    samples 0 to 2 for [millis()], the button and [millis()] again when it
    reads the RTC. *)
Definition enteredSetting (env : Env) (r : option unit) (s s' : State) : Prop :=
  r = Some tt /\ currentMode s' = SETTING_MODE /\
  settingHour s' = hour (rtc_time env (tick s + 3) (rtc s)) /\
  settingMinute s' = minute (rtc_time env (tick s + 3) (rtc s)) /\
  rtc s' = rtc s /\
  currentHourOnClock s' = currentHourOnClock s /\
  currentMinuteOnClock s' = currentMinuteOnClock s /\
  lastButtonPressTime s' = millis_at env (tick s + 2).

(** Effect of the cancel button in setting mode: back to normal mode, RTC
    and scratch variables untouched, only dial events logged after the
    button reads, and the display on the time read from the RTC (sample 6,
    after [millis()], four buttons and [millis()] again) once the
    reconciliation has returned. *)
Definition cancelled (env : Env) (r : option unit) (s s' : State) : Prop :=
  currentMode s' = NORMAL_MODE /\ rtc s' = rtc s /\
  settingHour s' = settingHour s /\ settingMinute s' = settingMinute s /\
  (r = Some tt ->
   currentHourOnClock s' = hour (rtc_time env (tick s + 6) (rtc s)) /\
   currentMinuteOnClock s' = minute (rtc_time env (tick s + 6) (rtc s))).

Definition isButton (p : Pin) : bool :=
  match p with
  | PIN_BTN_MODE_CANCEL | PIN_BTN_HOUR_INC | PIN_BTN_MINUTE_INC
  | PIN_BTN_SAVE => true
  | _ => false
  end.

(** A button read pressed: each such read starts the button's action. *)
Definition isPress (e : Event) : bool :=
  match e with
  | EvDigitalRead p LOW => isButton p
  | _ => false
  end.

Definition buttonPresses (evs : list Event) : nat :=
  length (filter isPress evs).

(** At most [k] buttons were read pressed between [s0] and [s]. *)
Definition pressesAtMost (k : nat) (s0 s : State) : Prop :=
  exists evs, trace s = trace s0 ++ evs /\ (buttonPresses evs <= k)%nat.

Definition noPress (e : Event) : Prop := isPress e = false.

(** [oneAction f]: from a point where no button has been read pressed, [f]
    reads at most one button pressed. *)
Definition oneAction {A} (f : Prog A) : Prop :=
  forall s0 s, pressesAtMost 0 s0 s ->
    wlp f s (fun _ s' => pressesAtMost 1 s0 s').

(** ** Test benches *)

(** An environment in which every switch and button alternates between
    released and pressed at each sample, the clock advances one second per
    sample and the network answers at once. *)
Definition benchEnv : Env :=
  mkEnv (fun t _ => if Nat.even t then HIGH else LOW)
        (fun t => Z.of_nat t * 1000)
        true false (fun _ dt => dt) (mkDateTime 2025 6 23 12 0 0)
        (fun _ => true) (fun _ => true) (fun _ => 2) (fun _ => 3).

Definition Pin_eqb (a b : Pin) : bool :=
  match a, b with
  | PIN_HOME_SWITCH_MINUTE, PIN_HOME_SWITCH_MINUTE
  | PIN_STEP_SWITCH_MINUTE, PIN_STEP_SWITCH_MINUTE
  | PIN_HOME_SWITCH_HOUR, PIN_HOME_SWITCH_HOUR
  | PIN_STEP_SWITCH_HOUR, PIN_STEP_SWITCH_HOUR
  | PIN_BTN_MODE_CANCEL, PIN_BTN_MODE_CANCEL
  | PIN_BTN_HOUR_INC, PIN_BTN_HOUR_INC
  | PIN_BTN_MINUTE_INC, PIN_BTN_MINUTE_INC
  | PIN_BTN_SAVE, PIN_BTN_SAVE => true
  | _, _ => false
  end.

(** A panel on which the buttons [held] stay pressed and the others stay
    released; the switches alternate as on the bench and [millis()] gains
    one millisecond per sample from 1000. *)
Definition panelEnv (held : Pin -> bool) : Env :=
  mkEnv (fun t p =>
           if isButton p then (if held p then LOW else HIGH)
           else if Nat.even t then HIGH else LOW)
        (fun t => 1000 + Z.of_nat t)
        true false (fun _ dt => dt) (mkDateTime 2025 6 23 12 0 0)
        (fun _ => true) (fun _ => true) (fun _ => 2) (fun _ => 3).

(** The test bench at 00:00 with an RTC and an NTP reading of 02:03. *)
Definition benchState : State :=
  mkState NORMAL_MODE 0 0 0 0 0 (mkDateTime 2025 6 23 2 3 0) 0 [].

(** Setting mode, display and RTC at 00:00, scratch time 00:01. *)
Definition settingState : State :=
  mkState SETTING_MODE 0 0 0 1 0 (mkDateTime 2025 6 23 0 0 0) 0 [].

(** Save and cancel both held on the panel. *)
Definition heldSaveCancel (p : Pin) : bool :=
  Pin_eqb PIN_BTN_SAVE p || Pin_eqb PIN_BTN_MODE_CANCEL p.

(** ** Servo commands and RTC writes in a log *)

(** The last command sent to servo [sv] in a log, if there is one. *)
Fixpoint lastWrite (sv : Servo) (evs : list Event) : option Z :=
  match evs with
  | [] => None
  | e :: rest =>
      match lastWrite sv rest with
      | Some v => Some v
      | None =>
          match e with
          | EvServoWrite sv' v => if Servo_eqb sv' sv then Some v else None
          | _ => None
          end
      end
  end.

(** Both servos have been commanded and their last command is the stop
    pulse. *)
Definition atRest (cfg : Config) (s : State) : Prop :=
  forall sv, lastWrite sv (trace s) = Some (SERVO_STOP_POSITION cfg).

(** A piece of log that leaves every servo it commands on the stop pulse. *)
Definition restful (cfg : Config) (evs : list Event) : Prop :=
  forall sv, lastWrite sv evs = None
             \/ lastWrite sv evs = Some (SERVO_STOP_POSITION cfg).

(** From [s] to [s'] the log grew by a restful piece. *)
Definition rested (cfg : Config) (s s' : State) : Prop :=
  exists evs, trace s' = trace s ++ evs /\ restful cfg evs.

(** A routine that, when it returns, has left every servo it commanded on
    the stop pulse. *)
Definition rests {A} (cfg : Config) (f : Prog A) : Prop :=
  forall s0, hoare (rested cfg s0) f (rested cfg s0) (fun _ => True).

(** The times written to the RTC in a log, in order. *)
Definition adjustments (evs : list Event) : list DateTime :=
  flat_map (fun e => match e with EvRtcAdjust dt => [dt] | _ => [] end) evs.

(** From [s] to [s'] the RTC was written with the times [w], in that order,
    and holds the last of them. *)
Definition rtcWritten (w : list DateTime) (s s' : State) : Prop :=
  (exists evs, trace s' = trace s ++ evs /\ adjustments evs = w) /\
  rtc s' = last w (rtc s).

(** From [s] to [s'] the RTC was not written. *)
Definition rtcKept (s s' : State) : Prop := rtcWritten [] s s'.

(** [s'] is not earlier than [s]. *)
Definition later (s s' : State) : Prop := (tick s <= tick s')%nat.

(** What [setup] of the WiFi sketch may log: the stop pulse, the forward
    commands of homing, reads of the home switches and the two counters
    set to 0. *)
Definition homingOnly (cfg : Config) (e : Event) : Prop :=
  match e with
  | EvServoWrite sv v =>
      v = SERVO_STOP_POSITION cfg
      \/ v = SERVO_STOP_POSITION cfg + moveOffset cfg sv
  | EvDigitalRead p _ => p = PIN_HOME_SWITCH_MINUTE \/ p = PIN_HOME_SWITCH_HOUR
  | EvCounter _ _ new => new = 0
  | EvRtcAdjust _ => False
  end.

(** The display shows the time the RTC reported at some instant between
    [s] and [s']. *)
Definition showsRtc (env : Env) (s s' : State) : Prop :=
  exists t, (tick s <= t <= tick s')%nat /\
    currentHourOnClock s' = hour (rtc_time env t (rtc s')) /\
    currentMinuteOnClock s' = minute (rtc_time env t (rtc s')).

(** The RTC, once set to [base], reports an hour in 0..23 and a minute in
    0..59 at every instant. *)
Definition validRtc (env : Env) (base : DateTime) : Prop :=
  forall t, 0 <= hour (rtc_time env t base) < 24 /\
            0 <= minute (rtc_time env t base) < 60.

(** The dials turn when driven: each home switch is pressed again and
    again and each step switch keeps toggling. *)
Definition liveSwitches (env : Env) : Prop :=
  (forall t, eventually env PIN_HOME_SWITCH_MINUTE LOW t) /\
  (forall t, eventually env PIN_HOME_SWITCH_HOUR LOW t) /\
  toggles env PIN_STEP_SWITCH_MINUTE /\ toggles env PIN_STEP_SWITCH_HOUR.

(** The switches of dial [sv]. *)
Definition ownSwitch (sv : Servo) (p : Pin) : Prop :=
  match sv with
  | servoMinute => p = PIN_HOME_SWITCH_MINUTE \/ p = PIN_STEP_SWITCH_MINUTE
  | servoHour => p = PIN_HOME_SWITCH_HOUR \/ p = PIN_STEP_SWITCH_HOUR
  end.

(** An event of dial [sv] alone: a command to its servo, a read of one of
    its switches, an assignment to its counter. *)
Definition ownEvent (sv : Servo) (e : Event) : Prop :=
  match e with
  | EvServoWrite sv' _ => sv' = sv
  | EvDigitalRead p _ => ownSwitch sv p
  | EvCounter sv' _ _ => sv' = sv
  | EvRtcAdjust _ => False
  end.

(** The time source reports [target] for dial [sv], a value that is not a
    position of the dial and is not what the counter holds. *)
Definition offDial (sv : Servo) (cur target : Z) : Prop :=
  ~ (0 <= target < dialRange sv) /\ cur <> target.

(** ** More test benches *)

(** The bench without an RTC chip on the bus. *)
Definition noRtcEnv : Env :=
  mkEnv (fun t _ => if Nat.even t then HIGH else LOW)
        (fun t => Z.of_nat t * 1000)
        false false (fun _ dt => dt) (mkDateTime 2025 6 23 12 0 0)
        (fun _ => true) (fun _ => true) (fun _ => 2) (fun _ => 3).

(** The bench out of reach of the WiFi network. *)
Definition offlineEnv : Env :=
  mkEnv (fun t _ => if Nat.even t then HIGH else LOW)
        (fun t => Z.of_nat t * 1000)
        true false (fun _ dt => dt) (mkDateTime 2025 6 23 12 0 0)
        (fun _ => false) (fun _ => false) (fun _ => 2) (fun _ => 3).

(** A bench whose switches and buttons all stay at level [l]. *)
Definition stuckEnv (l : Level) : Env :=
  mkEnv (fun _ _ => l)
        (fun t => Z.of_nat t * 1000)
        true false (fun _ dt => dt) (mkDateTime 2025 6 23 12 0 0)
        (fun _ => true) (fun _ => true) (fun _ => 2) (fun _ => 3).

(** The bench with an RTC that reports hour 165, as a failed bus read may
    give. *)
Definition garbledRtcEnv : Env :=
  mkEnv (fun t _ => if Nat.even t then HIGH else LOW)
        (fun t => Z.of_nat t * 1000)
        true false (fun _ dt => mkDateTime 2165 165 165 165 165 85)
        (mkDateTime 2025 6 23 12 0 0)
        (fun _ => true) (fun _ => true) (fun _ => 2) (fun _ => 3).

(** A panel with every button held, on which [millis()] has wrapped around
    and reads 49. *)
Definition wrappedClockEnv : Env :=
  mkEnv (fun _ _ => LOW) (fun _ => 49)
        true false (fun _ dt => dt) (mkDateTime 2025 6 23 12 0 0)
        (fun _ => true) (fun _ => true) (fun _ => 2) (fun _ => 3).

(** Setting mode, the last button action 100 ms before the wrap-around of
    [millis()]. *)
Definition pressedBeforeWrap : State :=
  mkState SETTING_MODE 0 0 0 1 (2 ^ 32 - 100)
    (mkDateTime 2025 6 23 0 0 0) 0 [].

(** Normal mode, display and RTC at 02:03. *)
Definition syncedState : State :=
  mkState NORMAL_MODE 3 2 0 0 0 (mkDateTime 2025 6 23 2 3 0) 0 [].

(** * Program logic *)

Section Rules.

Context {A B : Type}.

Lemma wlp_conseq (f : Prog A) s (Q Q' : option A -> State -> Prop) :
  wlp f s Q -> (forall r s', Q r s' -> Q' r s') -> wlp f s Q'.
Proof. intros H HQ fuel. apply HQ, H. Qed.

Lemma wlp_and (f : Prog A) s (Q1 Q2 : option A -> State -> Prop) :
  wlp f s Q1 -> wlp f s Q2 -> wlp f s (fun r s' => Q1 r s' /\ Q2 r s').
Proof. intros H1 H2 fuel. split; [apply H1 | apply H2]. Qed.

Lemma wlp_ret (a : A) s Q : Q (Some a) s -> wlp (ret a) s Q.
Proof. intros H fuel. exact H. Qed.

Lemma wlp_get (g : State -> A) s Q : Q (Some (g s)) s -> wlp (get g) s Q.
Proof. intros H fuel. exact H. Qed.

Lemma wlp_bind (f : Prog A) (k : A -> Prog B) s Q :
  wlp f s (fun r s1 =>
             match r with
             | Some a => wlp (k a) s1 Q
             | None => Q None s1
             end) ->
  wlp (bind f k) s Q.
Proof.
  intros H fuel. specialize (H fuel). unfold bind.
  destruct (f fuel s) as [[a|] s1]; simpl in *.
  - apply H.
  - exact H.
Qed.

Lemma bind_Some (m : Prog A) (k : A -> Prog B) fuel s a s1 :
  m fuel s = (Some a, s1) -> bind m k fuel s = k a fuel s1.
Proof. intros H. unfold bind. now rewrite H. Qed.

Lemma bind_None (m : Prog A) (k : A -> Prog B) fuel s s1 :
  m fuel s = (None, s1) -> bind m k fuel s = (None, s1).
Proof. intros H. unfold bind. now rewrite H. Qed.

Lemma returns_conseq (f : Prog A) s (Q Q' : A -> State -> Prop) :
  returns f s Q -> (forall a s', Q a s' -> Q' a s') -> returns f s Q'.
Proof.
  intros (N & a & s' & Hrun & HQ) Himp. exists N, a, s'. auto.
Qed.

Lemma returns_ret (a : A) s (Q : A -> State -> Prop) :
  Q a s -> returns (ret a) s Q.
Proof. intros H. exists 0%nat, a, s. split; [reflexivity | exact H]. Qed.

Lemma returns_get (g : State -> A) s (Q : A -> State -> Prop) :
  Q (g s) s -> returns (get g) s Q.
Proof. intros H. exists 0%nat, (g s), s. split; [reflexivity | exact H]. Qed.

Lemma returns_bind (f : Prog A) (k : A -> Prog B) s Q :
  returns f s (fun a s1 => returns (k a) s1 Q) ->
  returns (bind f k) s Q.
Proof.
  intros (N1 & a & s1 & Hf & N2 & b & s2 & Hk & HQ).
  exists (Nat.max N1 N2), b, s2. split; [|exact HQ].
  intros fuel Hfuel. unfold bind.
  rewrite Hf by lia. apply Hk. lia.
Qed.

(** A run that returns is one of the runs [wlp] speaks about. *)
Lemma returns_wlp (f : Prog A) s (Q : option A -> State -> Prop) :
  returns f s (fun _ _ => True) -> wlp f s Q ->
  returns f s (fun a s' => Q (Some a) s').
Proof.
  intros (N & a & s' & Hrun & _) H. exists N, a, s'. split; [exact Hrun|].
  specialize (H N). rewrite (Hrun N) in H by lia. exact H.
Qed.

End Rules.

Lemma wlp_modify (g : State -> State) s Q :
  Q (Some tt) (g s) -> wlp (modify g) s Q.
Proof. intros H fuel. exact H. Qed.

Lemma returns_modify (g : State -> State) s (Q : unit -> State -> Prop) :
  Q tt (g s) -> returns (modify g) s Q.
Proof. intros H. exists 0%nat, tt, (g s). split; [reflexivity | exact H]. Qed.

Lemma wlp_when (c : bool) (p : Prog unit) s Q :
  (c = true -> wlp p s Q) -> (c = false -> Q (Some tt) s) ->
  wlp (when c p) s Q.
Proof.
  destruct c; simpl; intros H1 H2; [apply H1 | apply wlp_ret, H2]; reflexivity.
Qed.

Lemma returns_when (c : bool) (p : Prog unit) s (Q : unit -> State -> Prop) :
  (c = true -> returns p s Q) -> (c = false -> Q tt s) ->
  returns (when c p) s Q.
Proof.
  destruct c; simpl; intros H1 H2;
    [apply H1 | apply returns_ret, H2]; reflexivity.
Qed.

(** Loop rule with an invariant [I] that holds whenever the condition is
    about to be tested. *)
Lemma wlp_while (I : State -> Prop) cond body s Q :
  I s ->
  (forall s0, I s0 -> Q None s0) ->
  (forall s0, I s0 ->
     wlp cond s0 (fun r s1 =>
       match r with
       | Some true =>
           wlp body s1 (fun r2 s2 =>
             match r2 with Some _ => I s2 | None => Q None s2 end)
       | Some false => Q (Some tt) s1
       | None => Q None s1
       end)) ->
  wlp (while cond body) s Q.
Proof.
  intros HI Hstuck Hstep fuel. revert s HI.
  induction fuel as [|n IH]; intros s HI; simpl.
  - apply Hstuck, HI.
  - pose proof (Hstep s HI n) as Hc.
    destruct (cond n s) as [[[|]|] s1]; simpl in Hc; try exact Hc.
    specialize (Hc n).
    destruct (body n s1) as [[u|] s2]; simpl in Hc.
    + apply IH, Hc.
    + exact Hc.
Qed.

(** One unfolding of a loop that returns. *)
Lemma returns_while cond body s (Q : unit -> State -> Prop) :
  returns cond s (fun (b : bool) s1 =>
    if b
    then returns body s1 (fun (_ : unit) s2 => returns (while cond body) s2 Q)
    else Q tt s1) ->
  returns (while cond body) s Q.
Proof.
  intros (Nc & b & s1 & Hc & Hb). destruct b.
  - destruct Hb as (Nb & u & s2 & Hbody & Nw & v & s3 & Hw & HQ).
    exists (S (Nat.max Nc (Nat.max Nb Nw))), v, s3. split; [|exact HQ].
    intros [|n] Hn; [lia|]. simpl.
    rewrite Hc by lia. rewrite Hbody by lia. rewrite Hw by lia.
    destruct v; reflexivity.
  - exists (S Nc), tt, s1. split; [|exact Hb].
    intros [|n] Hn; [lia|]. simpl. rewrite Hc by lia. reflexivity.
Qed.

(** ** State bookkeeping *)

Lemma io_io n1 e1 n2 e2 s :
  io n2 e2 (io n1 e1 s) = io (n1 + n2) (e1 ++ e2) s.
Proof.
  unfold io; simpl. f_equal; [lia | symmetry; apply app_assoc].
Qed.

Lemma mkState_eq m m' cm cm' ch ch' sh sh' sm sm' l l' r r' t t' tr tr' :
  m = m' -> cm = cm' -> ch = ch' -> sh = sh' -> sm = sm' -> l = l' ->
  r = r' -> t = t' -> tr = tr' ->
  mkState m cm ch sh sm l r t tr = mkState m' cm' ch' sh' sm' l' r' t' tr'.
Proof. intros; subst; reflexivity. Qed.

(** Equality of two results whose states are built with [io] and the
    setters. *)
Ltac state_eq :=
  unfold set_counter, io, set_currentMinuteOnClock, set_currentHourOnClock,
    set_currentMode, set_settingHour, set_settingMinute,
    set_lastButtonPressTime, set_rtc;
  simpl;
  try match goal with |- (_, _) = (_, _) => apply f_equal end;
  apply mkState_eq; try reflexivity; try lia;
  rewrite <- ?app_assoc, ?app_nil_r; simpl; try reflexivity.

Lemma io_0_nil s : io 0 [] s = s.
Proof.
  destruct s; unfold io; simpl. f_equal; [lia | apply app_nil_r].
Qed.

(** * Behaviour of the movement routines *)

Lemma Level_eqb_true a b : Level_eqb a b = true -> a = b.
Proof. destruct a, b; simpl; congruence. Qed.

Lemma Level_eqb_false a b : Level_eqb a b = false -> a = other b.
Proof. destruct a, b; simpl; congruence. Qed.

Lemma Level_eqb_other a : Level_eqb (other a) a = false.
Proof. destruct a; reflexivity. Qed.

Section Movement.

Variable env : Env.
Variable cfg : Config.

Local Abbreviation STOP := (SERVO_STOP_POSITION cfg).

Lemma wlp_digitalRead p s Q :
  Q (Some (pin_at env (tick s) p))
    (io 1 [EvDigitalRead p (pin_at env (tick s) p)] s) ->
  wlp (digitalRead env p) s Q.
Proof. intros H fuel. exact H. Qed.

Lemma returns_digitalRead p s (Q : Level -> State -> Prop) :
  Q (pin_at env (tick s) p)
    (io 1 [EvDigitalRead p (pin_at env (tick s) p)] s) ->
  returns (digitalRead env p) s Q.
Proof.
  intros H. eexists 0%nat, _, _. split; [reflexivity | exact H].
Qed.

Lemma wlp_millis s Q :
  Q (Some (millis_at env (tick s))) (io 1 [] s) -> wlp (millis env) s Q.
Proof. intros H fuel. exact H. Qed.

Lemma returns_millis s (Q : Z -> State -> Prop) :
  Q (millis_at env (tick s)) (io 1 [] s) -> returns (millis env) s Q.
Proof.
  intros H. eexists 0%nat, _, _. split; [reflexivity | exact H].
Qed.

Lemma wlp_rtc_now s Q :
  Q (Some (rtc_time env (tick s) (rtc s))) (io 1 [] s) ->
  wlp (rtc_now env) s Q.
Proof. intros H fuel. exact H. Qed.

Lemma returns_rtc_now s (Q : DateTime -> State -> Prop) :
  Q (rtc_time env (tick s) (rtc s)) (io 1 [] s) -> returns (rtc_now env) s Q.
Proof.
  intros H. eexists 0%nat, _, _. split; [reflexivity | exact H].
Qed.

(** *** Polling loops: [while (digitalRead(p) == lvl) { delay(d); }] *)

(** A run of a polling loop read [lvl] some [k] times; it has returned
    exactly when the next sample was the other level. *)
Lemma poll_run p lvl d fuel s :
  exists k,
    (forall i, (i < k)%nat -> pin_at env (tick s + i) p = lvl) /\
    (poll env p lvl d fuel s = (None, io k (repeat (EvDigitalRead p lvl) k) s) \/
     (pin_at env (tick s + k) p = other lvl /\
      poll env p lvl d fuel s =
        (Some tt,
         io (S k) (repeat (EvDigitalRead p lvl) k
                   ++ [EvDigitalRead p (other lvl)]) s))).
Proof.
  revert s. induction fuel as [|n IH]; intros s.
  - exists 0%nat. split; [intros i Hi; lia|]. left. simpl.
    now rewrite io_0_nil.
  - unfold poll. simpl. unfold bind at 1. simpl.
    destruct (Level_eqb (pin_at env (tick s) p) lvl) eqn:E.
    + apply Level_eqb_true in E. rewrite E.
      destruct (IH (io 1 [EvDigitalRead p lvl] s)) as (k & Hk & Hr).
      exists (S k). split.
      * intros [|i] Hi; [now rewrite Nat.add_0_r|].
        specialize (Hk i ltac:(lia)). simpl in Hk.
        now replace (tick s + S i)%nat with (tick s + 1 + i)%nat by lia.
      * unfold poll in Hr. rewrite !io_io in Hr. simpl in Hr.
        destruct Hr as [Hr | [Hp Hr]]; [left; exact Hr | right].
        split; [|exact Hr]. simpl in Hp.
        now replace (tick s + S k)%nat with (tick s + 1 + k)%nat by lia.
    + apply Level_eqb_false in E. exists 0%nat.
      split; [intros i Hi; lia|]. right.
      rewrite Nat.add_0_r. split; [exact E|]. simpl. now rewrite E.
Qed.

Lemma poll_returns p lvl d s :
  eventually env p (other lvl) (tick s) ->
  returns (poll env p lvl d) s (fun _ _ => True).
Proof.
  intros (t & Ht & Hp).
  remember (t - tick s)%nat as n eqn:Hn.
  revert s Ht Hn. induction n as [|n IH]; intros s Ht Hn;
    apply returns_while, returns_bind, returns_digitalRead, returns_ret.
  - replace (tick s) with t by lia. rewrite Hp, Level_eqb_other. exact I.
  - destruct (Level_eqb (pin_at env (tick s) p) lvl) eqn:E; [|exact I].
    apply returns_ret. apply IH; simpl; lia.
Qed.

(** *** One press-release cycle of a step switch

    [performHourSingleStep] is [pressRelease] at the hour servo and step
    switch; [moveMinuteStep] is [pressRelease] at the minute servo and step
    switch followed by the increment of the counter. *)

Lemma Forall_repeat {T} (P : T -> Prop) x n : P x -> Forall P (repeat x n).
Proof. intros H. induction n; simpl; constructor; auto. Qed.

Lemma stepTrace_motion sv p evs :
  stepTrace cfg sv p evs -> Forall (motionEvent cfg sv p) evs.
Proof.
  intros (a & b & ->).
  constructor; [simpl; auto|].
  repeat (apply Forall_app; split);
    try apply Forall_repeat; repeat constructor; simpl; auto.
Qed.

Lemma pressRelease_run sv p fuel s :
  (exists n evs, pressRelease env cfg sv p fuel s = (None, io n evs s) /\
                 Forall (motionEvent cfg sv p) evs) \/
  (exists n evs, pressRelease env cfg sv p fuel s = (Some tt, io n evs s) /\
                 stepTrace cfg sv p evs).
Proof.
  unfold pressRelease, bind, servoWrite, modify.
  set (s1 := io 0 [EvServoWrite sv (STOP + moveOffset cfg sv)] s).
  destruct (poll_run p HIGH 10 fuel s1) as (a & _ & [Ha | [_ Ha]]);
    rewrite Ha; subst s1; rewrite io_io.
  - left. eexists _, _. split; [reflexivity|].
    constructor; [simpl; auto|]. apply Forall_repeat. reflexivity.
  - match goal with |- context [poll env p LOW 10 fuel ?s2] =>
      destruct (poll_run p LOW 10 fuel s2) as (b & _ & [Hb | [_ Hb]]);
      rewrite Hb end; rewrite !io_io.
    + left. eexists _, _. split; [reflexivity|].
      constructor; [simpl; auto|].
      repeat (apply Forall_app; split);
        try apply Forall_repeat; repeat constructor; simpl; auto.
    + right. eexists _, _. split; [reflexivity|]. exists a, b.
      simpl. rewrite <- !app_assoc. reflexivity.
Qed.

Lemma pressRelease_returns sv p s :
  toggles env p -> returns (pressRelease env cfg sv p) s (fun _ _ => True).
Proof.
  intros Htog. unfold pressRelease.
  apply returns_bind, returns_modify, returns_bind.
  eapply returns_conseq; [apply poll_returns, Htog|].
  intros _ s2 _. apply returns_bind.
  eapply returns_conseq; [apply poll_returns, Htog|].
  intros _ s3 _. apply returns_modify. exact I.
Qed.

(** *** Single-step advance of the minute dial *)

Lemma moveMinuteStep_unfold fuel s :
  moveMinuteStep env cfg fuel s =
  (pressRelease env cfg servoMinute PIN_STEP_SWITCH_MINUTE ;;
   m <- get currentMinuteOnClock ;;
   assignCounter servoMinute (c_rem (m + 1) 60)) fuel s.
Proof.
  unfold moveMinuteStep, pressRelease, poll, bind, servoWrite, modify.
  simpl moveOffset.
  repeat match goal with
         | |- context [while ?c ?b ?f ?s0] =>
             destruct (while c b f s0) as [[[]|] ?]
         end; reflexivity.
Qed.

(** A run of [moveMinuteStep] either is still waiting for the switch, having
    logged only movement events, or has completed one press-release cycle
    and then set the counter to [(old + 1) % 60]. *)
Lemma moveMinuteStep_run fuel s :
  (exists n evs,
     moveMinuteStep env cfg fuel s = (None, io n evs s) /\
     Forall (motionEvent cfg servoMinute PIN_STEP_SWITCH_MINUTE) evs) \/
  (exists n evs,
     moveMinuteStep env cfg fuel s =
       (Some tt,
        set_counter servoMinute (c_rem (currentMinuteOnClock s + 1) 60)
          (io n (evs ++ [EvCounter servoMinute (currentMinuteOnClock s)
                           (c_rem (currentMinuteOnClock s + 1) 60)]) s)) /\
     stepTrace cfg servoMinute PIN_STEP_SWITCH_MINUTE evs).
Proof.
  rewrite moveMinuteStep_unfold.
  destruct (pressRelease_run servoMinute PIN_STEP_SWITCH_MINUTE fuel s)
    as [(n & evs & E & H) | (n & evs & E & H)].
  - left. exists n, evs. split; [apply bind_None, E | exact H].
  - right. exists n, evs. split; [|exact H].
    rewrite (bind_Some _ _ _ _ _ _ E).
    unfold bind, get, assignCounter, modify. state_eq.
Qed.

Lemma moveMinuteStep_returns s :
  toggles env PIN_STEP_SWITCH_MINUTE ->
  returns (moveMinuteStep env cfg) s (fun _ _ => True).
Proof.
  intros Htog. unfold moveMinuteStep.
  apply returns_bind, returns_modify, returns_bind.
  eapply returns_conseq;
    [apply (poll_returns PIN_STEP_SWITCH_MINUTE HIGH 10), Htog|].
  intros _ s2 _. apply returns_bind.
  eapply returns_conseq;
    [apply (poll_returns PIN_STEP_SWITCH_MINUTE LOW 10), Htog|].
  intros _ s3 _. apply returns_bind, returns_modify, returns_bind, returns_get.
  apply returns_modify. exact I.
Qed.

(** *** Hour advance: two cycles, then the counter *)

Lemma moveHourToNext_run fuel s :
  (exists n evs,
     moveHourToNext env cfg fuel s = (None, io n evs s) /\
     Forall (motionEvent cfg servoHour PIN_STEP_SWITCH_HOUR) evs) \/
  (exists n e1 e2,
     moveHourToNext env cfg fuel s =
       (Some tt,
        set_counter servoHour (c_rem (currentHourOnClock s + 1) 24)
          (io n (e1 ++ e2 ++ [EvCounter servoHour (currentHourOnClock s)
                                (c_rem (currentHourOnClock s + 1) 24)]) s)) /\
     stepTrace cfg servoHour PIN_STEP_SWITCH_HOUR e1 /\
     stepTrace cfg servoHour PIN_STEP_SWITCH_HOUR e2).
Proof.
  unfold moveHourToNext.
  change (performHourSingleStep env cfg)
    with (pressRelease env cfg servoHour PIN_STEP_SWITCH_HOUR).
  destruct (pressRelease_run servoHour PIN_STEP_SWITCH_HOUR fuel s)
    as [(n1 & e1 & E1 & H1) | (n1 & e1 & E1 & H1)].
  - left. exists n1, e1. split; [apply bind_None, E1 | exact H1].
  - rewrite !(bind_Some _ _ _ _ _ _ E1).
    unfold delay. rewrite !(bind_Some (ret tt) _ _ _ tt _ eq_refl).
    destruct (pressRelease_run servoHour PIN_STEP_SWITCH_HOUR fuel
                (io n1 e1 s))
      as [(n2 & e2 & E2 & H2) | (n2 & e2 & E2 & H2)];
      rewrite io_io in E2.
    + left. eexists _, _. split; [apply bind_None, E2|].
      apply Forall_app. split; [apply stepTrace_motion, H1 | exact H2].
    + right. exists (n1 + n2)%nat, e1, e2. split; [|split; assumption].
      rewrite (bind_Some _ _ _ _ _ _ E2).
      unfold bind, get, assignCounter, modify. state_eq.
Qed.

Lemma moveHourToNext_returns s :
  toggles env PIN_STEP_SWITCH_HOUR ->
  returns (moveHourToNext env cfg) s (fun _ _ => True).
Proof.
  intros Htog. unfold moveHourToNext.
  apply returns_bind.
  eapply returns_conseq;
    [apply (pressRelease_returns servoHour PIN_STEP_SWITCH_HOUR), Htog|].
  intros _ s1 _. apply returns_bind, returns_ret, returns_bind.
  eapply returns_conseq;
    [apply (pressRelease_returns servoHour PIN_STEP_SWITCH_HOUR), Htog|].
  intros _ s2 _. apply returns_bind, returns_get, returns_modify. exact I.
Qed.

(** *** Homing

    [goHomeMinute] and [goHomeHour] are [homeDial] at their servo and home
    switch. *)

Lemma goHomeMinute_homeDial :
  goHomeMinute env cfg = homeDial env cfg servoMinute PIN_HOME_SWITCH_MINUTE.
Proof. reflexivity. Qed.

Lemma goHomeHour_homeDial :
  goHomeHour env cfg = homeDial env cfg servoHour PIN_HOME_SWITCH_HOUR.
Proof. reflexivity. Qed.

Lemma homeDial_run sv p fuel s :
  exists k,
    (forall i, (i < k)%nat -> pin_at env (tick s + i) p = HIGH) /\
    (homeDial env cfg sv p fuel s = (None, io k (driveTrace cfg sv p k) s) \/
     (pin_at env (tick s + k) p = LOW /\
      homeDial env cfg sv p fuel s =
        (Some tt,
         set_counter sv 0
           (io (S k) (driveTrace cfg sv p k
                      ++ [EvDigitalRead p LOW; EvServoWrite sv STOP;
                          EvCounter sv (counter sv s) 0]) s)))).
Proof.
  unfold homeDial.
  set (loop := while _ _).
  assert (Hloop : forall fuel s, exists k,
    (forall i, (i < k)%nat -> pin_at env (tick s + i) p = HIGH) /\
    (loop fuel s = (None, io k (driveTrace cfg sv p k) s) \/
     (pin_at env (tick s + k) p = LOW /\
      loop fuel s =
        (Some tt, io (S k) (driveTrace cfg sv p k ++ [EvDigitalRead p LOW]) s)))).
  { clear fuel s. induction fuel as [|n IH]; intros s.
    - exists 0%nat. split; [intros i Hi; lia|]. left. simpl.
      now rewrite io_0_nil.
    - subst loop. simpl. unfold bind at 1. simpl.
      destruct (Level_eqb (pin_at env (tick s) p) HIGH) eqn:E.
      + apply Level_eqb_true in E. rewrite E.
        unfold bind at 1, servoWrite, modify, delay, ret. simpl.
        rewrite io_io.
        destruct (IH (io (1 + 0)
                        ([EvDigitalRead p HIGH] ++
                         [EvServoWrite sv (STOP + moveOffset cfg sv)]) s))
          as (k & Hk & Hr).
        exists (S k). split.
        * intros [|i] Hi; [now rewrite Nat.add_0_r|].
          specialize (Hk i ltac:(lia)). simpl in Hk.
          now replace (tick s + S i)%nat with (tick s + 1 + i)%nat by lia.
        * rewrite !io_io in Hr. simpl in Hr.
          destruct Hr as [Hr | [Hp Hr]]; [left; exact Hr | right].
          split; [|exact Hr]. simpl in Hp.
          now replace (tick s + S k)%nat with (tick s + 1 + k)%nat by lia.
      + apply Level_eqb_false in E. exists 0%nat.
        split; [intros i Hi; lia|]. right.
        rewrite Nat.add_0_r. split; [exact E|]. simpl. now rewrite E. }
  destruct (Hloop fuel s) as (k & Hk & [Hr | [Hp Hr]]); exists k;
    (split; [exact Hk|]).
  - left. apply bind_None, Hr.
  - right. split; [exact Hp|].
    rewrite (bind_Some _ _ _ _ _ _ Hr).
    unfold bind, servoWrite, assignCounter, modify.
    destruct sv; state_eq.
Qed.

Lemma homeDial_returns sv p s :
  eventually env p LOW (tick s) ->
  returns (homeDial env cfg sv p) s (fun _ _ => True).
Proof.
  intros (t & Ht & Hp). unfold homeDial. apply returns_bind.
  remember (t - tick s)%nat as n eqn:Hn.
  revert s Ht Hn. induction n as [|n IH]; intros s Ht Hn;
    apply returns_while, returns_bind, returns_digitalRead, returns_ret.
  - replace (tick s) with t by lia. rewrite Hp. simpl.
    apply returns_bind, returns_modify, returns_modify. exact I.
  - destruct (Level_eqb (pin_at env (tick s) p) HIGH) eqn:E.
    + apply returns_bind, returns_modify, returns_ret. apply IH; simpl; lia.
    + apply returns_bind, returns_modify, returns_modify. exact I.
Qed.

(** *** What advancing a dial may log *)

Lemma advancesOf_app sv e1 e2 :
  advancesOf sv (e1 ++ e2) = (advancesOf sv e1 + advancesOf sv e2)%nat.
Proof. unfold advancesOf. now rewrite filter_app, length_app. Qed.

Lemma motionEvent_dialEvent sv p e :
  stepSwitch p -> motionEvent cfg sv p e -> dialEvent cfg e.
Proof.
  intros Hp. destruct e; simpl; try tauto.
  - intros [-> H]. exact H.
  - intros ->. exact Hp.
Qed.

Lemma motion_dialEvents sv p evs :
  stepSwitch p -> Forall (motionEvent cfg sv p) evs -> Forall (dialEvent cfg) evs.
Proof.
  intros Hp H. eapply Forall_impl; [|exact H].
  intros e. apply motionEvent_dialEvent, Hp.
Qed.

Lemma motion_advancesOf sv' sv p evs :
  Forall (motionEvent cfg sv p) evs -> advancesOf sv' evs = 0%nat.
Proof.
  unfold advancesOf. induction 1 as [|e evs He _ IH]; [reflexivity|].
  destruct e; simpl in *; try contradiction; exact IH.
Qed.

(** *** Range of the counters *)

Lemma c_rem_inRange sv v :
  (inRange sv v -> inRange sv (c_rem (v + 1) (dialRange sv))) /\
  (0 <= v -> 0 <= c_rem (v + 1) (dialRange sv)).
Proof.
  unfold inRange, c_rem.
  destruct sv; simpl; split; intros; Z.quot_rem_to_equations; lia.
Qed.

Lemma keeps_refl sv s : keeps sv s s.
Proof. split; auto. Qed.

Lemma keeps_trans sv s1 s2 s3 :
  keeps sv s1 s2 -> keeps sv s2 s3 -> keeps sv s1 s3.
Proof. intros [H1 H2] [H3 H4]. split; auto. Qed.

Lemma sameGlobals_refl s : sameGlobals s s.
Proof. repeat split. Qed.

Lemma sameGlobals_trans s1 s2 s3 :
  sameGlobals s1 s2 -> sameGlobals s2 s3 -> sameGlobals s1 s3.
Proof.
  unfold sameGlobals. intros (a & b & c & d & e) (a' & b' & c' & d' & e').
  repeat split; congruence.
Qed.

Lemma logged_refl P s : logged P s s.
Proof. exists []. split; [now rewrite app_nil_r | constructor]. Qed.

Lemma logged_trans P s1 s2 s3 :
  logged P s1 s2 -> logged P s2 s3 -> logged P s1 s3.
Proof.
  intros (e1 & E1 & F1) (e2 & E2 & F2). exists (e1 ++ e2). split.
  - now rewrite E2, E1, app_assoc.
  - apply Forall_app. auto.
Qed.

Lemma logged_impl (P P' : Event -> Prop) s s' :
  (forall e, P e -> P' e) -> logged P s s' -> logged P' s s'.
Proof.
  intros H (evs & E & F). exists evs. split; [exact E|].
  eapply Forall_impl; eauto.
Qed.

Lemma logged_io P n evs s : Forall P evs -> logged P s (io n evs s).
Proof. intros H. exists evs. split; [reflexivity | exact H]. Qed.

Lemma advanced_refl s : advanced cfg s s.
Proof.
  split; [apply sameGlobals_refl|]. split; [lia|].
  split; [apply logged_refl|]. split; apply keeps_refl.
Qed.

Lemma advanced_trans s1 s2 s3 :
  advanced cfg s1 s2 -> advanced cfg s2 s3 -> advanced cfg s1 s3.
Proof.
  intros (G1 & T1 & L1 & K1 & K1') (G2 & T2 & L2 & K2 & K2').
  split; [eapply sameGlobals_trans; eassumption|]. split; [lia|].
  split; [eapply logged_trans; eassumption|].
  split; eapply keeps_trans; eassumption.
Qed.

Lemma advancesOf_motion sv' sv p evs tr :
  Forall (motionEvent cfg sv p) evs ->
  advancesOf sv' (tr ++ evs) = advancesOf sv' tr.
Proof.
  intros H. rewrite advancesOf_app, (motion_advancesOf sv' sv p evs H). lia.
Qed.

Lemma moveMinuteStep_wlp s :
  wlp (moveMinuteStep env cfg) s (fun r s' => stepped cfg servoMinute r s s').
Proof.
  intros fuel.
  destruct (moveMinuteStep_run fuel s)
    as [(n & evs & -> & H) | (n & evs & -> & H)]; simpl fst; simpl snd;
    (split; [|split; [intros [|] Hsv; [congruence | reflexivity]
                     |split; [reflexivity|]]]).
  - split; [repeat split|]. split; [simpl; lia|]. split.
    + apply logged_io.
      eapply motion_dialEvents; [left; reflexivity | exact H].
    + split; split; intro Hk; exact Hk.
  - intros sv'. simpl. rewrite (advancesOf_motion _ _ _ _ _ H). lia.
  - split; [repeat split|]. split; [simpl; lia|]. split.
    + eexists. split; [reflexivity|]. apply Forall_app. split.
      * eapply motion_dialEvents; [left; reflexivity|].
        apply stepTrace_motion, H.
      * repeat constructor.
    + split; [apply (c_rem_inRange servoMinute) | split; intro Hk; exact Hk].
  - intros sv'. simpl. rewrite app_assoc, advancesOf_app.
    rewrite (advancesOf_motion _ _ _ _ _ (stepTrace_motion _ _ _ H)).
    destruct sv'; reflexivity.
Qed.

Lemma moveHourToNext_wlp s :
  wlp (moveHourToNext env cfg) s (fun r s' => stepped cfg servoHour r s s').
Proof.
  intros fuel.
  destruct (moveHourToNext_run fuel s)
    as [(n & evs & -> & H) | (n & e1 & e2 & -> & H1 & H2)];
    simpl fst; simpl snd;
    (split; [|split; [intros [|] Hsv; [reflexivity | congruence]
                     |split; [reflexivity|]]]).
  - split; [repeat split|]. split; [simpl; lia|]. split.
    + apply logged_io.
      eapply motion_dialEvents; [right; reflexivity | exact H].
    + split; split; intro Hk; exact Hk.
  - intros sv'. simpl. rewrite (advancesOf_motion _ _ _ _ _ H). lia.
  - split; [repeat split|]. split; [simpl; lia|]. split.
    + eexists. split; [reflexivity|].
      repeat (apply Forall_app; split);
        try (eapply motion_dialEvents;
             [right; reflexivity | apply stepTrace_motion; eassumption]).
      repeat constructor.
    + split; [split; intro Hk; exact Hk | apply (c_rem_inRange servoHour)].
  - intros sv'. simpl. rewrite !app_assoc, advancesOf_app.
    rewrite (advancesOf_motion _ _ _ _ _ (stepTrace_motion _ _ _ H2)).
    rewrite (advancesOf_motion _ _ _ _ _ (stepTrace_motion _ _ _ H1)).
    destruct sv'; reflexivity.
Qed.

Lemma moveMinuteStep_total s :
  toggles env PIN_STEP_SWITCH_MINUTE ->
  returns (moveMinuteStep env cfg) s
    (fun _ s' => stepped cfg servoMinute (Some tt) s s').
Proof.
  intros Htog. eapply returns_conseq.
  - apply returns_wlp; [apply moveMinuteStep_returns, Htog|].
    apply moveMinuteStep_wlp.
  - intros [] s' H. exact H.
Qed.

Lemma moveHourToNext_total s :
  toggles env PIN_STEP_SWITCH_HOUR ->
  returns (moveHourToNext env cfg) s
    (fun _ s' => stepped cfg servoHour (Some tt) s s').
Proof.
  intros Htog. eapply returns_conseq.
  - apply returns_wlp; [apply moveHourToNext_returns, Htog|].
    apply moveHourToNext_wlp.
  - intros [] s' H. exact H.
Qed.

(** *** Reconciliation loops *)

Lemma distance_0 sv cur target :
  inRange sv cur -> 0 <= target < dialRange sv ->
  distance sv cur target = 0%nat -> cur = target.
Proof.
  unfold distance, inRange.
  destruct (Z.eqb_spec cur (-1)); destruct sv; simpl; intros;
    Z.div_mod_to_equations; lia.
Qed.

Lemma distance_S sv cur target :
  inRange sv cur -> 0 <= target < dialRange sv -> cur <> target ->
  distance sv cur target
  = S (distance sv (c_rem (cur + 1) (dialRange sv)) target).
Proof.
  unfold distance, inRange, c_rem. intros Hc Ht Hne.
  destruct (Z.eqb_spec cur (-1)) as [->|Hc1].
  - destruct sv; simpl in *; rewrite Z.sub_0_r, Z.mod_small by lia; lia.
  - destruct (Z.eqb_spec (Z.rem (cur + 1) (dialRange sv)) (-1)) as [E|_];
      destruct sv; simpl in *;
      Z.quot_rem_to_equations; Z.div_mod_to_equations; lia.
Qed.

Lemma distance_le sv cur target :
  inRange sv cur -> 0 <= target < dialRange sv ->
  (distance sv cur target <= Z.to_nat (dialRange sv))%nat.
Proof.
  unfold distance, inRange.
  destruct (Z.eqb_spec cur (-1)); destruct sv; simpl; intros;
    Z.div_mod_to_equations; lia.
Qed.

(** The loop [while (counter != target) { step(); }] for a [step] that
    advances dial [sv] by one. *)
Lemma advanceLoop_wlp sv (step : Prog unit) target s :
  (forall s0, wlp step s0 (fun r s' => stepped cfg sv r s0 s')) ->
  wlp (while (c <- get (counter sv) ;; ret (negb (c =? target))) step) s
    (fun r s' =>
       advanced cfg s s' /\
       (forall sv', sv' <> sv -> counter sv' s' = counter sv' s) /\
       (r = Some tt -> counter sv s' = target)).
Proof.
  intros Hstep.
  apply wlp_while with
    (I := fun s0 => advanced cfg s s0 /\
                    forall sv', sv' <> sv -> counter sv' s0 = counter sv' s).
  - split; [apply advanced_refl | reflexivity].
  - intros s0 [H0 H1]. split; [exact H0|]. split; [exact H1 | discriminate].
  - intros s0 [H0 H1]. apply wlp_bind, wlp_get, wlp_ret.
    destruct (Z.eqb_spec (counter sv s0) target) as [E|E]; simpl.
    + split; [exact H0|]. split; [exact H1 | intros _; exact E].
    + eapply wlp_conseq; [apply Hstep|].
      intros r s2 (Ha & Ho & _).
      assert (advanced cfg s s2) by (eapply advanced_trans; eassumption).
      assert (forall sv', sv' <> sv -> counter sv' s2 = counter sv' s)
        by (intros sv' Hsv; rewrite Ho, H1 by exact Hsv; reflexivity).
      destruct r; [split; assumption|].
      split; [assumption|]. split; [assumption | discriminate].
Qed.

Lemma advanceLoop_total sv (step : Prog unit) target :
  (forall s0, returns step s0 (fun _ s' => stepped cfg sv (Some tt) s0 s')) ->
  0 <= target < dialRange sv ->
  forall s, inRange sv (counter sv s) ->
  returns (while (c <- get (counter sv) ;; ret (negb (c =? target))) step) s
    (fun _ s' =>
       advanced cfg s s' /\
       (forall sv', sv' <> sv -> counter sv' s' = counter sv' s) /\
       counter sv s' = target /\
       forall sv',
         advancesOf sv' (trace s') =
         (advancesOf sv' (trace s) +
          if Servo_eqb sv' sv then distance sv (counter sv s) target
          else 0)%nat).
Proof.
  intros Hstep Ht s.
  remember (distance sv (counter sv s) target) as d eqn:Hd.
  revert s Hd. induction d as [|d IH]; intros s Hd Hr;
    apply returns_while, returns_bind, returns_get, returns_ret.
  - pose proof (distance_0 sv _ target Hr Ht (eq_sym Hd)) as E.
    destruct (Z.eqb_spec (counter sv s) target) as [_|N]; [|contradiction].
    simpl.
    split; [apply advanced_refl|]. split; [reflexivity|].
    split; [exact E|].
    intros sv'. destruct (Servo_eqb sv' sv); lia.
  - destruct (Z.eqb_spec (counter sv s) target) as [E|E]; simpl.
    { rewrite E in Hd. unfold distance in Hd.
      destruct (Z.eqb_spec target (-1)); [lia|].
      rewrite Z.sub_diag, Z.mod_0_l in Hd by (destruct sv; discriminate).
      discriminate. }
    eapply returns_conseq; [apply Hstep|].
    intros _ s1 (Ha & Ho & Hc & Hn).
    rewrite (distance_S sv _ target Hr Ht E) in Hd. injection Hd as Hd.
    rewrite <- Hc in Hd.
    eapply returns_conseq; [apply (IH s1 Hd)|].
    + rewrite Hc. apply c_rem_inRange, Hr.
    + intros _ s2 (Ha2 & Ho2 & Hc2 & Hn2).
      split; [eapply advanced_trans; eassumption|].
      split; [intros sv' Hsv; rewrite Ho2, Ho by exact Hsv; reflexivity|].
      split; [exact Hc2|].
      intros sv'. rewrite Hn2, Hn. destruct (Servo_eqb sv' sv); lia.
Qed.

Lemma advanced_sample s : advanced cfg s (io 1 [] s).
Proof.
  split; [repeat split|]. split; [simpl; lia|].
  split; [apply logged_io; constructor|].
  split; split; intro K; exact K.
Qed.

(** Every run of [syncClockToRTC] only moves the dials; one that returns
    leaves both counters equal to the time it read from the RTC. *)
Lemma syncClockToRTC_wlp s :
  wlp (syncClockToRTC env cfg) s (fun r s' =>
    advanced cfg s s' /\
    (r = Some tt ->
     currentHourOnClock s' = hour (rtc_time env (tick s) (rtc s)) /\
     currentMinuteOnClock s' = minute (rtc_time env (tick s) (rtc s)))).
Proof.
  unfold syncClockToRTC. apply wlp_bind, wlp_rtc_now. cbv zeta.
  pose proof (advanced_sample s) as A0.
  apply wlp_bind.
  eapply wlp_conseq;
    [apply (advanceLoop_wlp servoHour (moveHourToNext env cfg)),
       moveHourToNext_wlp|].
  intros r s1 (Ha & Ho & Hc). destruct r as [[]|].
  - specialize (Hc eq_refl). simpl in Hc.
    eapply wlp_conseq;
      [apply (advanceLoop_wlp servoMinute (moveMinuteStep env cfg)),
         moveMinuteStep_wlp|].
    intros r s2 (Ha2 & Ho2 & Hc2).
    split; [eapply advanced_trans; [exact A0|];
            eapply advanced_trans; eassumption|].
    intros ->. specialize (Hc2 eq_refl). simpl in Hc2.
    specialize (Ho2 servoHour ltac:(discriminate)). simpl in Ho2.
    split; congruence.
  - split; [eapply advanced_trans; eassumption | discriminate].
Qed.

(** With step switches that keep toggling, [syncClockToRTC] returns, and the
    number of advances of each dial is the distance to the time read. *)
Lemma syncClockToRTC_total s :
  toggles env PIN_STEP_SWITCH_HOUR ->
  toggles env PIN_STEP_SWITCH_MINUTE ->
  inRange servoHour (currentHourOnClock s) ->
  inRange servoMinute (currentMinuteOnClock s) ->
  0 <= hour (rtc_time env (tick s) (rtc s)) < 24 ->
  0 <= minute (rtc_time env (tick s) (rtc s)) < 60 ->
  returns (syncClockToRTC env cfg) s (fun _ s' =>
    advanced cfg s s' /\
    currentHourOnClock s' = hour (rtc_time env (tick s) (rtc s)) /\
    currentMinuteOnClock s' = minute (rtc_time env (tick s) (rtc s)) /\
    advancesOf servoHour (trace s') =
      (advancesOf servoHour (trace s)
       + distance servoHour (currentHourOnClock s)
           (hour (rtc_time env (tick s) (rtc s))))%nat /\
    advancesOf servoMinute (trace s') =
      (advancesOf servoMinute (trace s)
       + distance servoMinute (currentMinuteOnClock s)
           (minute (rtc_time env (tick s) (rtc s))))%nat).
Proof.
  intros TH TM RH RM Hh Hm.
  unfold syncClockToRTC. apply returns_bind, returns_rtc_now. cbv zeta.
  pose proof (advanced_sample s) as A0.
  set (now := rtc_time env (tick s) (rtc s)) in *.
  apply returns_bind.
  eapply returns_conseq;
    [apply (advanceLoop_total servoHour (moveHourToNext env cfg) (hour now));
     [intros s0; apply moveHourToNext_total, TH | exact Hh | exact RH]|].
  intros _ s1 (Ha & Ho & Hc & Hn).
  pose proof (Ho servoMinute ltac:(discriminate)) as Hmin. simpl in Hmin.
  eapply returns_conseq;
    [apply (advanceLoop_total servoMinute (moveMinuteStep env cfg)
              (minute now));
     [intros s0; apply moveMinuteStep_total, TM | exact Hm
     | simpl; rewrite Hmin; exact RM]|].
  intros _ s2 (Ha2 & Ho2 & Hc2 & Hn2).
  pose proof (Ho2 servoHour ltac:(discriminate)) as Hhr. simpl in Hhr, Hc, Hc2.
  split; [eapply advanced_trans; [exact A0|];
          eapply advanced_trans; eassumption|].
  split; [congruence|]. split; [exact Hc2|].
  rewrite (Hn2 servoHour), (Hn2 servoMinute), (Hn servoHour),
    (Hn servoMinute). simpl. rewrite Hmin, app_nil_r. split; lia.
Qed.

End Movement.

(** * Invariants of whole sketches *)

Section Preserves.

Variable R : State -> State -> Prop.

Lemma preserves_ret {A} (a : A) : preserves R (ret a).
Proof. intros s0 s H fuel. exact H. Qed.

Lemma preserves_halt {A} : preserves R (@halt A).
Proof. intros s0 s H fuel. exact H. Qed.

Lemma preserves_get {A} (g : State -> A) : preserves R (get g).
Proof. intros s0 s H fuel. exact H. Qed.

Lemma preserves_delay ms : preserves R (delay ms).
Proof. apply preserves_ret. Qed.

Lemma preserves_modify (g : State -> State) :
  (forall s0 s, R s0 s -> R s0 (g s)) -> preserves R (modify g).
Proof. intros Hg s0 s H fuel. apply Hg, H. Qed.

Lemma preserves_bind {A B} (f : Prog A) (k : A -> Prog B) :
  preserves R f -> (forall a, preserves R (k a)) -> preserves R (bind f k).
Proof.
  intros Hf Hk s0 s H. apply wlp_bind.
  eapply wlp_conseq; [apply (Hf s0 s H)|].
  intros [a|] s1 H1; [apply Hk, H1 | exact H1].
Qed.

Lemma preserves_when c p : preserves R p -> preserves R (when c p).
Proof. destruct c; simpl; [auto | intros _; apply preserves_ret]. Qed.

Lemma preserves_while cond body :
  preserves R cond -> preserves R body -> preserves R (while cond body).
Proof.
  intros Hc Hb s0 s H. apply wlp_while with (I := R s0); auto.
  intros s1 H1. eapply wlp_conseq; [apply (Hc s0 s1 H1)|].
  intros [[|]|] s2 H2; auto.
  eapply wlp_conseq; [apply (Hb s0 s2 H2)|].
  intros [u|] s3 H3; exact H3.
Qed.

Lemma preserves_invocations n p :
  preserves R p -> preserves R (invocations n p).
Proof.
  intros Hp. induction n; simpl;
    [apply preserves_ret | apply preserves_bind; auto].
Qed.

(** A routine whose own effect is within a transitive [R]. *)
Lemma preserves_trans {A} (f : Prog A) :
  (forall s1 s2 s3, R s1 s2 -> R s2 s3 -> R s1 s3) ->
  (forall s, wlp f s (fun _ s' => R s s')) -> preserves R f.
Proof.
  intros Htrans Hf s0 s H. eapply wlp_conseq; [apply Hf|].
  intros r s' H'. eapply Htrans; eassumption.
Qed.

(** For a reflexive [R], the effect of the routine itself. *)
Lemma preserves_wlp {A} (f : Prog A) s :
  (forall s1, R s1 s1) -> preserves R f -> wlp f s (fun _ s' => R s s').
Proof. intros Hrefl Hf. apply Hf, Hrefl. Qed.

End Preserves.

(** ** Events that never turn a dial backwards *)

Lemma dialEvent_okEvent cfg e : dialEvent cfg e -> okEvent cfg e.
Proof. destruct e; simpl; auto. Qed.

Lemma safeStep_refl cfg s : safeStep cfg s s.
Proof. split; [apply logged_refl | split; apply keeps_refl]. Qed.

Lemma safeStep_trans cfg s1 s2 s3 :
  safeStep cfg s1 s2 -> safeStep cfg s2 s3 -> safeStep cfg s1 s3.
Proof.
  intros (L1 & K1 & K1') (L2 & K2 & K2').
  split; [eapply logged_trans; eassumption|].
  split; eapply keeps_trans; eassumption.
Qed.

Lemma advanced_safeStep cfg s s' : advanced cfg s s' -> safeStep cfg s s'.
Proof.
  intros (_ & _ & L & K). split; [|exact K].
  eapply logged_impl; [apply dialEvent_okEvent | exact L].
Qed.

(** A step that logs nothing and leaves the counters alone. *)
Lemma safeStep_silent cfg (g : State -> State) :
  (forall s, trace (g s) = trace s) ->
  (forall s, currentMinuteOnClock (g s) = currentMinuteOnClock s) ->
  (forall s, currentHourOnClock (g s) = currentHourOnClock s) ->
  forall s0 s, safeStep cfg s0 s -> safeStep cfg s0 (g s).
Proof.
  intros Ht Hm Hh s0 s ((evs & E & F) & [K1 K2] & [K3 K4]).
  split; [exists evs; rewrite Ht; auto|].
  unfold keeps; simpl. rewrite Hm, Hh. auto.
Qed.

Lemma safeStep_io cfg n evs :
  Forall (okEvent cfg) evs ->
  forall s0 s, safeStep cfg s0 s -> safeStep cfg s0 (io n evs s).
Proof.
  intros F s0 s H. eapply safeStep_trans; [exact H|].
  split; [apply logged_io, F | split; split; intro K; exact K].
Qed.

Section SketchInvariants.

Variable env : Env.
Variable cfg : Config.

Lemma preserves_safe_millis : preserves (safeStep cfg) (millis env).
Proof.
  intros s0 s H fuel. simpl. apply safeStep_io; [constructor | exact H].
Qed.

Lemma preserves_safe_rtc_now : preserves (safeStep cfg) (rtc_now env).
Proof.
  intros s0 s H fuel. simpl. apply safeStep_io; [constructor | exact H].
Qed.

Lemma preserves_safe_digitalRead p :
  preserves (safeStep cfg) (digitalRead env p).
Proof.
  intros s0 s H fuel. simpl.
  apply safeStep_io; [repeat constructor | exact H].
Qed.

Lemma preserves_safe_servoStop sv :
  preserves (safeStep cfg) (servoWrite sv (SERVO_STOP_POSITION cfg)).
Proof.
  apply preserves_modify. intros s0 s H.
  apply safeStep_io; [repeat constructor; simpl; auto | exact H].
Qed.

Lemma preserves_safe_rtc_adjust dt : preserves (safeStep cfg) (rtc_adjust dt).
Proof.
  apply preserves_modify. intros s0 s H.
  apply (safeStep_silent cfg (set_rtc dt)); try reflexivity.
  apply safeStep_io; [repeat constructor | exact H].
Qed.

Lemma preserves_safe_moveMinuteStep :
  preserves (safeStep cfg) (moveMinuteStep env cfg).
Proof.
  apply preserves_trans; [apply safeStep_trans|]. intros s.
  eapply wlp_conseq; [apply moveMinuteStep_wlp|].
  intros r s' (H & _). apply advanced_safeStep, H.
Qed.

Lemma preserves_safe_moveHourToNext :
  preserves (safeStep cfg) (moveHourToNext env cfg).
Proof.
  apply preserves_trans; [apply safeStep_trans|]. intros s.
  eapply wlp_conseq; [apply moveHourToNext_wlp|].
  intros r s' (H & _). apply advanced_safeStep, H.
Qed.

Lemma preserves_safe_syncClockToRTC :
  preserves (safeStep cfg) (syncClockToRTC env cfg).
Proof.
  apply preserves_trans; [apply safeStep_trans|]. intros s.
  eapply wlp_conseq; [apply syncClockToRTC_wlp|].
  intros r s' (H & _). apply advanced_safeStep, H.
Qed.

End SketchInvariants.

(** Decomposition of a sketch routine into the steps above. *)
Ltac preserves_safe :=
  repeat first
    [ apply preserves_safe_moveMinuteStep
    | apply preserves_safe_moveHourToNext
    | apply preserves_safe_syncClockToRTC
    | apply preserves_safe_millis
    | apply preserves_safe_rtc_now
    | apply preserves_safe_digitalRead
    | apply preserves_safe_servoStop
    | apply preserves_safe_rtc_adjust
    | apply preserves_invocations
    | apply preserves_when
    | apply preserves_delay
    | apply preserves_halt
    | apply preserves_get
    | apply preserves_ret
    | apply preserves_modify; apply safeStep_silent; reflexivity
    | apply preserves_while
    | apply preserves_bind
    | match goal with
      | |- forall _, _ => intro
      | |- preserves _ (if ?c then _ else _) => destruct c
      | |- preserves _ (match ?m with NORMAL_MODE => _ | SETTING_MODE => _ end)
        => destruct m
      end ].

Lemma RtcExpander_handleButtons_safe env :
  preserves (safeStep RtcExpander.cfg) (RtcExpander.handleButtons env).
Proof. unfold RtcExpander.handleButtons. preserves_safe. Qed.

Lemma RtcExpander_loop_safe env :
  preserves (safeStep RtcExpander.cfg) (RtcExpander.loop env).
Proof.
  unfold RtcExpander.loop. apply preserves_bind;
    [apply RtcExpander_handleButtons_safe | preserves_safe].
Qed.

Lemma RtcDirect_handleButtons_safe env :
  preserves (safeStep RtcDirect.cfg) (RtcDirect.handleButtons env).
Proof. unfold RtcDirect.handleButtons. preserves_safe. Qed.

Lemma RtcDirect_loop_safe env :
  preserves (safeStep RtcDirect.cfg) (RtcDirect.loop env).
Proof.
  unfold RtcDirect.loop. apply preserves_bind;
    [apply RtcDirect_handleButtons_safe | preserves_safe].
Qed.

Lemma WiFi_loop_safe env : preserves (safeStep WiFi.cfg) (WiFi.loop env).
Proof.
  unfold WiFi.loop, WiFi.timeClient_update, WiFi.timeClient_getMinutes,
    WiFi.timeClient_getHours.
  repeat (apply preserves_bind;
          [intros s0 s H fuel; simpl;
           apply safeStep_io; [constructor | exact H] | intros ?]).
  preserves_safe.
Qed.

(** ** Hoare triples, for routines run in sequence

    [hoare P f Q E]: from a state in [P], [f] stops in [Q] when it returns
    and in [E] when it is blocked. *)
Lemma hoare_bind {A B} P (f : Prog A) (k : A -> Prog B) Q Q' E :
  hoare P f Q E -> (forall a, hoare Q (k a) Q' E) -> hoare P (bind f k) Q' E.
Proof.
  intros Hf Hk s HP. apply wlp_bind.
  eapply wlp_conseq; [apply Hf, HP|].
  intros [a|] s1 H1; [apply Hk, H1 | exact H1].
Qed.

Lemma hoare_conseq {A} (P P' : State -> Prop) (f : Prog A)
  (Q Q' E E' : State -> Prop) :
  hoare P f Q E ->
  (forall s, P' s -> P s) -> (forall s, Q s -> Q' s) ->
  (forall s, E s -> E' s) -> hoare P' f Q' E'.
Proof.
  intros H HP HQ HE s Hs. eapply wlp_conseq; [apply H, HP, Hs|].
  intros [a|] s'; auto.
Qed.

Lemma hoare_preserves {A} R (f : Prog A) s0 :
  preserves R f -> hoare (R s0) f (R s0) (R s0).
Proof.
  intros H s Hs. eapply wlp_conseq; [apply H, Hs|].
  intros [a|] s' H'; exact H'.
Qed.

(** ** Homing within a sketch *)

Section Homing.

Variable env : Env.
Variable cfg : Config.

Lemma driveTrace_homing sv p old k :
  Forall (homingEvent cfg sv p old) (driveTrace cfg sv p k).
Proof.
  induction k as [|k IH]; simpl; [constructor|].
  constructor; [reflexivity|]. constructor; [simpl; auto | exact IH].
Qed.

Lemma homeDial_wlp sv p s :
  wlp (homeDial env cfg sv p) s (fun r s' =>
    sameGlobals s s' /\
    (forall sv', sv' <> sv -> counter sv' s' = counter sv' s) /\
    counter sv s' = match r with Some _ => 0 | None => counter sv s end /\
    logged (homingEvent cfg sv p (counter sv s)) s s').
Proof.
  intros fuel.
  destruct (homeDial_run env cfg sv p fuel s) as (k & _ & [-> | [_ ->]]);
    simpl fst; simpl snd.
  - split; [repeat split|]. split; [reflexivity|]. split; [reflexivity|].
    apply logged_io, driveTrace_homing.
  - split; [destruct sv; repeat split|].
    split; [intros sv' Hsv; destruct sv, sv'; try congruence; reflexivity|].
    split; [destruct sv; reflexivity|].
    destruct sv; simpl; (eexists; split; [reflexivity|]);
      (apply Forall_app; split; [apply driveTrace_homing|]);
      repeat constructor; simpl; auto.
Qed.

Lemma homingEvent_ok sv p e : homingEvent cfg sv p (-1) e -> okEvent cfg e.
Proof.
  destruct e; simpl; auto.
  - intros [-> H]. exact H.
  - intros (-> & -> & ->). destruct sv; reflexivity.
Qed.

(** Homing keeps the counters in range, whatever they were. *)
Lemma homeDial_keeps sv p s :
  wlp (homeDial env cfg sv p) s (fun r s' =>
    keeps servoMinute s s' /\ keeps servoHour s s').
Proof.
  eapply wlp_conseq; [apply homeDial_wlp|].
  intros r s' (_ & Ho & Hc & _).
  assert (K : forall sv', keeps sv' s s').
  { intros sv'. unfold keeps, inRange.
    destruct (Servo_eqb sv' sv) eqn:E.
    - assert (sv' = sv) as -> by (destruct sv, sv'; simpl in E; congruence).
      rewrite Hc. destruct r; [|auto]. destruct sv; simpl; lia.
    - rewrite Ho; [auto|]. intros ->. destruct sv; discriminate. }
  split; apply K.
Qed.

(** From an unhomed dial, homing is a safe step that leaves the other dial
    alone and, when it returns, has set the counter to 0. *)
Lemma homeDial_hoare sv sv' p s0 c :
  sv' <> sv ->
  hoare (fun s => safeStep cfg s0 s /\ counter sv s = -1 /\ counter sv' s = c)
        (homeDial env cfg sv p)
        (fun s' => safeStep cfg s0 s' /\ counter sv s' = 0
                   /\ counter sv' s' = c)
        (fun s' => safeStep cfg s0 s').
Proof.
  intros Hne s (Hs & Hc & Hc').
  eapply wlp_conseq;
    [apply wlp_and; [apply homeDial_wlp | apply homeDial_keeps]|].
  intros r s' ((_ & Ho & Hn & L) & K1 & K2). rewrite Hc in L.
  assert (safeStep cfg s0 s').
  { eapply safeStep_trans; [exact Hs|]. split; [|split; assumption].
    eapply logged_impl; [apply homingEvent_ok | exact L]. }
  destruct r; [|assumption].
  split; [assumption|]. split; [exact Hn|]. rewrite Ho; auto.
Qed.

End Homing.

(** ** Range of the counters alone *)

Lemma kept_refl s : kept s s.
Proof. split; apply keeps_refl. Qed.

Lemma kept_trans s1 s2 s3 : kept s1 s2 -> kept s2 s3 -> kept s1 s3.
Proof. intros [A B] [C D]. split; eapply keeps_trans; eassumption. Qed.

Lemma preserves_kept_of_safe {A} cfg (f : Prog A) :
  preserves (safeStep cfg) f -> preserves kept f.
Proof.
  intros H s0 s Hk. eapply wlp_conseq; [apply H, safeStep_refl|].
  intros r s' (_ & K). eapply kept_trans; eassumption.
Qed.

Lemma hoare_kept_homed {A} (f : Prog A) s0 :
  preserves kept f ->
  hoare (fun s => kept s0 s /\ homed s) f
        (fun s' => kept s0 s' /\ homed s') (kept s0).
Proof.
  intros H s [Hk [Hm Hh]].
  eapply wlp_conseq; [apply (preserves_wlp kept f s kept_refl H)|].
  intros r s' K.
  assert (kept s0 s') by (eapply kept_trans; eassumption).
  destruct K as [[_ Km] [_ Kh]].
  destruct r; [|assumption]. split; [assumption|].
  split; [apply Km, Hm | apply Kh, Hh].
Qed.

Lemma hoare_kept {A} (f : Prog A) s0 :
  preserves kept f -> hoare (kept s0) f (kept s0) (kept s0).
Proof. apply hoare_preserves. Qed.

(** Homing one dial, then the other. *)
Lemma hoare_kept_home1 env cfg sv p s0 :
  hoare (kept s0) (homeDial env cfg sv p)
        (fun s' => kept s0 s' /\ counter sv s' = 0) (kept s0).
Proof.
  intros s Hk.
  eapply wlp_conseq;
    [apply wlp_and; [apply homeDial_wlp | apply homeDial_keeps]|].
  intros r s' ((_ & _ & Hc & _) & K).
  assert (kept s0 s') by (eapply kept_trans; eassumption).
  destruct r; auto.
Qed.

Lemma hoare_kept_home2 env cfg sv sv' p s0 :
  sv' <> sv ->
  hoare (fun s => kept s0 s /\ counter sv' s = 0) (homeDial env cfg sv p)
        (fun s' => kept s0 s' /\ homed s') (kept s0).
Proof.
  intros Hne s [Hk Hc].
  eapply wlp_conseq;
    [apply wlp_and; [apply homeDial_wlp | apply homeDial_keeps]|].
  intros r s' ((_ & Ho & Hn & _) & K).
  assert (kept s0 s') by (eapply kept_trans; eassumption).
  destruct r; [|assumption]. split; [assumption|].
  specialize (Ho sv' Hne). rewrite Hc in Ho.
  unfold homed. destruct sv, sv'; simpl in *; try congruence; lia.
Qed.

(** ** The three sketches from power-up *)

Lemma unhomed_silent cfg (g : State -> State) :
  (forall s, trace (g s) = trace s) ->
  (forall s, currentMinuteOnClock (g s) = currentMinuteOnClock s) ->
  (forall s, currentHourOnClock (g s) = currentHourOnClock s) ->
  forall s0 s, unhomed cfg s0 s -> unhomed cfg s0 (g s).
Proof.
  intros Ht Hm Hh s0 s (H & M & Hr).
  split; [apply safeStep_silent; assumption|]. rewrite Hm, Hh. auto.
Qed.

Lemma unhomed_io cfg n evs :
  Forall (okEvent cfg) evs ->
  forall s0 s, unhomed cfg s0 s -> unhomed cfg s0 (io n evs s).
Proof.
  intros F s0 s (H & M & Hr). split; [apply safeStep_io; assumption|].
  simpl. auto.
Qed.

Lemma preserves_unhomed_servoStop cfg sv :
  preserves (unhomed cfg) (servoWrite sv (SERVO_STOP_POSITION cfg)).
Proof.
  apply preserves_modify. intros s0 s H.
  apply unhomed_io; [repeat constructor; simpl; auto | exact H].
Qed.

Lemma preserves_unhomed_rtc_adjust cfg dt :
  preserves (unhomed cfg) (rtc_adjust dt).
Proof.
  apply preserves_modify. intros s0 s H.
  apply (unhomed_silent cfg (set_rtc dt)); try reflexivity.
  apply unhomed_io; [repeat constructor | exact H].
Qed.

Lemma hoare_unhomed {A} cfg (f : Prog A) s0 :
  preserves (unhomed cfg) f ->
  hoare (unhomed cfg s0) f (unhomed cfg s0) (safeStep cfg s0).
Proof.
  intros H. eapply hoare_conseq; [apply (hoare_preserves _ f s0 H) | | |];
    auto. intros s (Hs & _). exact Hs.
Qed.

Lemma hoare_safe {A} cfg (f : Prog A) s0 :
  preserves (safeStep cfg) f ->
  hoare (safeStep cfg s0) f (safeStep cfg s0) (safeStep cfg s0).
Proof. apply hoare_preserves. Qed.

(** Homing both dials from the unhomed state, in either order. *)
Lemma hoare_home_first env cfg sv sv' p s0 :
  sv' <> sv ->
  hoare (unhomed cfg s0) (homeDial env cfg sv p)
        (fun s' => safeStep cfg s0 s' /\ counter sv' s' = -1)
        (safeStep cfg s0).
Proof.
  intros Hne.
  eapply hoare_conseq; [apply (homeDial_hoare env cfg sv sv' p s0 (-1) Hne)
                       | | | auto].
  - intros s (Hs & Hm & Hh). destruct sv, sv'; simpl; auto; congruence.
  - intros s (Hs & _ & Hc). auto.
Qed.

Lemma hoare_home_second env cfg sv sv' p s0 :
  sv' <> sv ->
  hoare (fun s => safeStep cfg s0 s /\ counter sv s = -1)
        (homeDial env cfg sv p) (safeStep cfg s0) (safeStep cfg s0).
Proof.
  intros Hne s [Hs Hc].
  eapply wlp_conseq;
    [apply (homeDial_hoare env cfg sv sv' p s0 (counter sv' s) Hne); auto|].
  intros [u|] s'; [intros (H & _); exact H | auto].
Qed.

(** A primitive that only takes a sample. *)
Lemma preserves_sample {A} R (v : State -> A) :
  (forall s0 s, R s0 s -> R s0 (io 1 [] s)) ->
  preserves R (fun (_ : nat) s => (Some (v s), io 1 [] s)).
Proof. intros H s0 s Hs fuel. apply H, Hs. Qed.

Lemma safeStep_sample cfg s0 s : safeStep cfg s0 s -> safeStep cfg s0 (io 1 [] s).
Proof. apply safeStep_io. constructor. Qed.

Lemma unhomed_sample cfg s0 s : unhomed cfg s0 s -> unhomed cfg s0 (io 1 [] s).
Proof. apply unhomed_io. constructor. Qed.

Ltac hoare_step lem := eapply hoare_bind; [lem | intros ?].

Section FromPowerUp.

Variable env : Env.

(** *** First RTC sketch *)

Lemma RtcExpander_setup_safe s0 :
  hoare (unhomed RtcExpander.cfg s0) (RtcExpander.setup env)
        (safeStep RtcExpander.cfg s0) (safeStep RtcExpander.cfg s0).
Proof.
  unfold RtcExpander.setup.
  hoare_step ltac:(apply hoare_unhomed, preserves_when, preserves_halt).
  hoare_step ltac:(apply hoare_unhomed, preserves_when,
                     preserves_unhomed_rtc_adjust).
  hoare_step ltac:(apply hoare_unhomed, preserves_unhomed_servoStop).
  hoare_step ltac:(apply hoare_unhomed, preserves_unhomed_servoStop).
  hoare_step ltac:(apply (hoare_home_first env RtcExpander.cfg servoHour
                            servoMinute); discriminate).
  hoare_step ltac:(apply (hoare_home_second env RtcExpander.cfg servoMinute
                            servoHour); discriminate).
  apply hoare_safe, preserves_safe_syncClockToRTC.
Qed.

Lemma RtcExpander_setup_kept s0 :
  hoare (kept s0) (RtcExpander.setup env)
        (fun s' => kept s0 s' /\ homed s') (kept s0).
Proof.
  unfold RtcExpander.setup.
  hoare_step ltac:(apply hoare_kept, preserves_when, preserves_halt).
  hoare_step ltac:(apply hoare_kept, preserves_when,
                     (preserves_kept_of_safe RtcExpander.cfg),
                     preserves_safe_rtc_adjust).
  hoare_step ltac:(apply hoare_kept,
                     (preserves_kept_of_safe RtcExpander.cfg),
                     preserves_safe_servoStop).
  hoare_step ltac:(apply hoare_kept,
                     (preserves_kept_of_safe RtcExpander.cfg),
                     preserves_safe_servoStop).
  hoare_step ltac:(apply (hoare_kept_home1 env RtcExpander.cfg servoHour)).
  hoare_step ltac:(apply (hoare_kept_home2 env RtcExpander.cfg servoMinute
                            servoHour); discriminate).
  apply hoare_kept_homed, (preserves_kept_of_safe RtcExpander.cfg),
    preserves_safe_syncClockToRTC.
Qed.

Lemma RtcExpander_sketch_safe n s0 :
  hoare (unhomed RtcExpander.cfg s0) (RtcExpander.sketch env n)
        (safeStep RtcExpander.cfg s0) (safeStep RtcExpander.cfg s0).
Proof.
  unfold RtcExpander.sketch.
  hoare_step ltac:(apply RtcExpander_setup_safe).
  apply hoare_safe, preserves_invocations, RtcExpander_loop_safe.
Qed.

(** *** Second RTC sketch *)

Lemma RtcDirect_setup_safe s0 :
  hoare (unhomed RtcDirect.cfg s0) (RtcDirect.setup env)
        (safeStep RtcDirect.cfg s0) (safeStep RtcDirect.cfg s0).
Proof.
  unfold RtcDirect.setup.
  hoare_step ltac:(apply hoare_unhomed, preserves_unhomed_servoStop).
  hoare_step ltac:(apply hoare_unhomed, preserves_unhomed_servoStop).
  hoare_step ltac:(apply hoare_unhomed, preserves_when, preserves_halt).
  hoare_step ltac:(apply hoare_unhomed, preserves_when,
                     preserves_unhomed_rtc_adjust).
  hoare_step ltac:(apply (hoare_home_first env RtcDirect.cfg servoMinute
                            servoHour); discriminate).
  hoare_step ltac:(apply (hoare_home_second env RtcDirect.cfg servoHour
                            servoMinute); discriminate).
  apply hoare_safe, preserves_safe_syncClockToRTC.
Qed.

Lemma RtcDirect_setup_kept s0 :
  hoare (kept s0) (RtcDirect.setup env)
        (fun s' => kept s0 s' /\ homed s') (kept s0).
Proof.
  unfold RtcDirect.setup.
  hoare_step ltac:(apply hoare_kept,
                     (preserves_kept_of_safe RtcDirect.cfg),
                     preserves_safe_servoStop).
  hoare_step ltac:(apply hoare_kept,
                     (preserves_kept_of_safe RtcDirect.cfg),
                     preserves_safe_servoStop).
  hoare_step ltac:(apply hoare_kept, preserves_when, preserves_halt).
  hoare_step ltac:(apply hoare_kept, preserves_when,
                     (preserves_kept_of_safe RtcDirect.cfg),
                     preserves_safe_rtc_adjust).
  hoare_step ltac:(apply (hoare_kept_home1 env RtcDirect.cfg servoMinute)).
  hoare_step ltac:(apply (hoare_kept_home2 env RtcDirect.cfg servoHour
                            servoMinute); discriminate).
  apply hoare_kept_homed, (preserves_kept_of_safe RtcDirect.cfg),
    preserves_safe_syncClockToRTC.
Qed.

Lemma RtcDirect_sketch_safe n s0 :
  hoare (unhomed RtcDirect.cfg s0) (RtcDirect.sketch env n)
        (safeStep RtcDirect.cfg s0) (safeStep RtcDirect.cfg s0).
Proof.
  unfold RtcDirect.sketch.
  hoare_step ltac:(apply RtcDirect_setup_safe).
  apply hoare_safe, preserves_invocations, RtcDirect_loop_safe.
Qed.

(** *** WiFi sketch *)

Lemma WiFi_waits_unhomed :
  preserves (unhomed WiFi.cfg)
    (while (c <- WiFi.wifiConnected env ;; ret (negb c)) (delay 500)).
Proof.
  apply preserves_while; [|apply preserves_delay].
  apply preserves_bind; [|intros ?; apply preserves_ret].
  apply preserves_sample, unhomed_sample.
Qed.

Lemma WiFi_waits_safe :
  preserves (safeStep WiFi.cfg)
    (while (c <- WiFi.wifiConnected env ;; ret (negb c)) (delay 500)).
Proof.
  apply preserves_while; [|apply preserves_delay].
  apply preserves_bind; [|intros ?; apply preserves_ret].
  apply preserves_sample, safeStep_sample.
Qed.

Lemma WiFi_ntp_safe :
  preserves (safeStep WiFi.cfg)
    (while (u <- WiFi.timeClient_update env ;; ret (negb u))
           (_ <- WiFi.timeClient_forceUpdate env ;; ret tt)).
Proof.
  apply preserves_while;
    (apply preserves_bind; [|intros ?; apply preserves_ret]);
    apply preserves_sample, safeStep_sample.
Qed.

Lemma WiFi_setup_safe s0 :
  hoare (unhomed WiFi.cfg s0) (WiFi.setup env)
        (safeStep WiFi.cfg s0) (safeStep WiFi.cfg s0).
Proof.
  unfold WiFi.setup.
  hoare_step ltac:(apply hoare_unhomed, preserves_unhomed_servoStop).
  hoare_step ltac:(apply hoare_unhomed, preserves_unhomed_servoStop).
  hoare_step ltac:(apply hoare_unhomed, WiFi_waits_unhomed).
  hoare_step ltac:(apply (hoare_home_first env WiFi.cfg servoMinute
                            servoHour); discriminate).
  hoare_step ltac:(apply (hoare_home_second env WiFi.cfg servoHour
                            servoMinute); discriminate).
  apply hoare_safe, WiFi_ntp_safe.
Qed.

Lemma WiFi_setup_kept s0 :
  hoare (kept s0) (WiFi.setup env)
        (fun s' => kept s0 s' /\ homed s') (kept s0).
Proof.
  unfold WiFi.setup.
  hoare_step ltac:(apply hoare_kept, (preserves_kept_of_safe WiFi.cfg),
                     preserves_safe_servoStop).
  hoare_step ltac:(apply hoare_kept, (preserves_kept_of_safe WiFi.cfg),
                     preserves_safe_servoStop).
  hoare_step ltac:(apply hoare_kept, (preserves_kept_of_safe WiFi.cfg),
                     WiFi_waits_safe).
  hoare_step ltac:(apply (hoare_kept_home1 env WiFi.cfg servoMinute)).
  hoare_step ltac:(apply (hoare_kept_home2 env WiFi.cfg servoHour
                            servoMinute); discriminate).
  apply hoare_kept_homed, (preserves_kept_of_safe WiFi.cfg), WiFi_ntp_safe.
Qed.

Lemma WiFi_sketch_safe n s0 :
  hoare (unhomed WiFi.cfg s0) (WiFi.sketch env n)
        (safeStep WiFi.cfg s0) (safeStep WiFi.cfg s0).
Proof.
  unfold WiFi.sketch.
  hoare_step ltac:(apply WiFi_setup_safe).
  apply hoare_safe, preserves_invocations, WiFi_loop_safe.
Qed.

End FromPowerUp.

(** * The test bench is a live environment *)

Lemma benchEnv_toggles p : toggles benchEnv p.
Proof.
  intros t. split.
  - exists (S (2 * t)). split; [lia|]. cbn [pin_at benchEnv].
    rewrite Nat.even_succ, Nat.odd_mul. reflexivity.
  - exists (2 * t)%nat. split; [lia|]. cbn [pin_at benchEnv].
    rewrite Nat.even_mul. reflexivity.
Qed.

Lemma toggles_eventually env p l t : toggles env p -> eventually env p l t.
Proof. intros H. destruct l; apply H. Qed.

(** * Counting single-step advances *)

Lemma c_rem_mod a b : 0 <= a -> 0 < b -> c_rem a b = a mod b.
Proof. intros. apply Z.rem_mod_nonneg; lia. Qed.

Lemma c_rem_small sv v : inRange sv v -> c_rem v (dialRange sv) = v.
Proof.
  unfold inRange, c_rem. destruct sv; simpl; intros;
    Z.quot_rem_to_equations; lia.
Qed.

Lemma c_rem_succ sv v (n : nat) :
  inRange sv v ->
  c_rem (c_rem (v + 1) (dialRange sv) + Z.of_nat n) (dialRange sv)
  = c_rem (v + Z.of_nat (S n)) (dialRange sv).
Proof.
  unfold inRange. intros H.
  assert (0 < dialRange sv) by (destruct sv; reflexivity).
  rewrite (c_rem_mod (v + 1)) by lia.
  pose proof (Z.mod_pos_bound (v + 1) (dialRange sv) ltac:(lia)).
  rewrite !c_rem_mod by lia.
  rewrite Zplus_mod_idemp_l. f_equal. lia.
Qed.

Section Counting.

Variable cfg : Config.

Lemma invocations_stepped sv (step : Prog unit) (N : nat) s :
  (forall s0, wlp step s0 (fun r s' => stepped cfg sv r s0 s')) ->
  inRange sv (counter sv s) ->
  wlp (invocations N step) s (fun r s' =>
    r = Some tt ->
    counter sv s' = c_rem (counter sv s + Z.of_nat N) (dialRange sv)).
Proof.
  intros Hstep. revert s. induction N as [|N IH]; intros s Hr.
  - apply wlp_ret. intros _. rewrite Z.add_0_r. symmetry.
    apply c_rem_small, Hr.
  - cbn [invocations]. apply wlp_bind.
    eapply wlp_conseq; [apply Hstep|].
    intros [u|] s1 (_ & _ & Hc & _); [|discriminate].
    eapply wlp_conseq; [apply IH|].
    + rewrite Hc. apply c_rem_inRange, Hr.
    + intros r s2 H2 Hs. rewrite (H2 Hs), Hc. apply c_rem_succ, Hr.
Qed.

Lemma invocations_returns (step : Prog unit) (N : nat) s :
  (forall s0, returns step s0 (fun _ _ => True)) ->
  returns (invocations N step) s (fun _ _ => True).
Proof.
  intros Hstep. revert s. induction N as [|N IH]; intros s.
  - apply returns_ret. exact I.
  - cbn [invocations]. apply returns_bind.
    eapply returns_conseq; [apply Hstep|]. intros _ s1 _. apply IH.
Qed.

End Counting.

(** C2.  After [N] invocations of [moveMinuteStep] the minute counter is
    [(initial + N) % 60], and after [N] invocations of [moveHourToNext] the
    hour counter is [(initial + N) % 24], for every counter value of the
    data model (-1 included) and every [N >= 0].  [%] is C's remainder; it
    is the mathematical [mod] as soon as [initial + N] is not negative,
    that is except for [N = 0] on an unhomed dial, whose counter is still
    -1.  With step switches that keep toggling the [N] invocations do
    return. *)
Theorem C2_counter_after_N_advances env cfg (N : nat) s :
  inRange servoMinute (currentMinuteOnClock s) ->
  inRange servoHour (currentHourOnClock s) ->
  wlp (invocations N (moveMinuteStep env cfg)) s (fun r s' =>
    r = Some tt ->
    currentMinuteOnClock s' = c_rem (currentMinuteOnClock s + Z.of_nat N) 60
    /\ (0 <= currentMinuteOnClock s + Z.of_nat N ->
        currentMinuteOnClock s'
        = (currentMinuteOnClock s + Z.of_nat N) mod 60)) /\
  wlp (invocations N (moveHourToNext env cfg)) s (fun r s' =>
    r = Some tt ->
    currentHourOnClock s' = c_rem (currentHourOnClock s + Z.of_nat N) 24
    /\ (0 <= currentHourOnClock s + Z.of_nat N ->
        currentHourOnClock s'
        = (currentHourOnClock s + Z.of_nat N) mod 24)) /\
  (toggles env PIN_STEP_SWITCH_MINUTE ->
   returns (invocations N (moveMinuteStep env cfg)) s (fun _ _ => True)) /\
  (toggles env PIN_STEP_SWITCH_HOUR ->
   returns (invocations N (moveHourToNext env cfg)) s (fun _ _ => True)).
Proof.
  intros Hm Hh. split; [|split; [|split]].
  - eapply wlp_conseq;
      [apply (invocations_stepped cfg servoMinute);
       [apply moveMinuteStep_wlp | exact Hm]|].
    simpl. intros r s' H Hr. specialize (H Hr). split; [exact H|].
    intros Hpos. rewrite H. apply c_rem_mod; lia.
  - eapply wlp_conseq;
      [apply (invocations_stepped cfg servoHour);
       [apply moveHourToNext_wlp | exact Hh]|].
    simpl. intros r s' H Hr. specialize (H Hr). split; [exact H|].
    intros Hpos. rewrite H. apply c_rem_mod; lia.
  - intros T. apply invocations_returns. intros s0.
    apply moveMinuteStep_returns, T.
  - intros T. apply invocations_returns. intros s0.
    apply moveHourToNext_returns, T.
Qed.

(** Seven advances of both unhomed dials on the test bench. *)
Lemma C2_witness :
  let s := bootState (mkDateTime 2025 6 23 12 0 0) in
  wlp (invocations 7 (moveMinuteStep benchEnv WiFi.cfg)) s (fun r s' =>
    r = Some tt ->
    currentMinuteOnClock s' = c_rem (-1 + 7) 60
    /\ (0 <= -1 + 7 -> currentMinuteOnClock s' = (-1 + 7) mod 60)) /\
  returns (invocations 7 (moveMinuteStep benchEnv WiFi.cfg)) s
    (fun _ _ => True).
Proof.
  intros s.
  destruct (C2_counter_after_N_advances benchEnv WiFi.cfg 7 s)
    as (H1 & _ & H3 & _).
  - unfold inRange; simpl; lia.
  - unfold inRange; simpl; lia.
  - split; [exact H1 | apply H3, benchEnv_toggles].
Defined.

(** C4.  A run of [moveHourToNext] that returns has logged exactly two
    press-release cycles of the hour step switch, one after the other, and
    only then the assignment of [(old + 1) % 24] to the hour counter; a run
    that is still blocked in one of the cycles has logged only commands to
    the hour servo and reads of the hour step switch, and has not touched
    the counter.  With a step switch that keeps toggling it returns. *)
Theorem C4_hour_advance_is_two_steps env cfg s :
  wlp (moveHourToNext env cfg) s (fun r s' =>
    match r with
    | Some _ =>
        exists n e1 e2,
          stepTrace cfg servoHour PIN_STEP_SWITCH_HOUR e1 /\
          stepTrace cfg servoHour PIN_STEP_SWITCH_HOUR e2 /\
          s' = set_currentHourOnClock (c_rem (currentHourOnClock s + 1) 24)
                 (io n (e1 ++ e2
                        ++ [EvCounter servoHour (currentHourOnClock s)
                              (c_rem (currentHourOnClock s + 1) 24)]) s)
    | None =>
        currentHourOnClock s' = currentHourOnClock s /\
        exists n evs,
          s' = io n evs s /\
          Forall (motionEvent cfg servoHour PIN_STEP_SWITCH_HOUR) evs
    end) /\
  (-1 <= currentHourOnClock s ->
   c_rem (currentHourOnClock s + 1) 24 = (currentHourOnClock s + 1) mod 24) /\
  (toggles env PIN_STEP_SWITCH_HOUR ->
   returns (moveHourToNext env cfg) s (fun _ _ => True)).
Proof.
  split; [|split].
  - intros fuel.
    destruct (moveHourToNext_run env cfg fuel s)
      as [(n & evs & -> & H) | (n & e1 & e2 & -> & H1 & H2)]; simpl.
    + split; [reflexivity|]. exists n, evs. auto.
    + exists n, e1, e2. auto.
  - intros H. apply c_rem_mod; lia.
  - apply moveHourToNext_returns.
Qed.

Lemma C4_witness :
  returns (moveHourToNext benchEnv RtcExpander.cfg)
    (bootState (mkDateTime 2025 6 23 12 0 0)) (fun _ _ => True).
Proof.
  apply (C4_hour_advance_is_two_steps benchEnv RtcExpander.cfg
           (bootState (mkDateTime 2025 6 23 12 0 0))).
  apply benchEnv_toggles.
Defined.

(** C5.  Homing a dial, from any counter value: a run read the home switch
    released [k] times, each time commanding the servo forward with the one
    fixed offset; it returns exactly when the next sample reads pressed
    (LOW), and then it has commanded the stop pulse and set the dial's
    counter to 0, leaving the other counter alone.  If the home switch is
    eventually pressed the routine returns.  After homing both dials, in
    either order, both counters are 0. *)
Theorem C5_homing_sets_zero env cfg s :
  (forall sv p,
     wlp (homeDial env cfg sv p) s (fun r s' =>
       exists k,
         (forall i, (i < k)%nat -> pin_at env (tick s + i) p = HIGH) /\
         match r with
         | Some _ =>
             pin_at env (tick s + k) p = LOW /\
             s' = set_counter sv 0
                    (io (S k)
                       (driveTrace cfg sv p k
                        ++ [EvDigitalRead p LOW;
                            EvServoWrite sv (SERVO_STOP_POSITION cfg);
                            EvCounter sv (counter sv s) 0]) s)
         | None => s' = io k (driveTrace cfg sv p k) s
         end)) /\
  goHomeMinute env cfg = homeDial env cfg servoMinute PIN_HOME_SWITCH_MINUTE /\
  goHomeHour env cfg = homeDial env cfg servoHour PIN_HOME_SWITCH_HOUR /\
  (eventually env PIN_HOME_SWITCH_MINUTE LOW (tick s) ->
   returns (goHomeMinute env cfg) s
     (fun _ s' => currentMinuteOnClock s' = 0
                  /\ currentHourOnClock s' = currentHourOnClock s)) /\
  (eventually env PIN_HOME_SWITCH_HOUR LOW (tick s) ->
   returns (goHomeHour env cfg) s
     (fun _ s' => currentHourOnClock s' = 0
                  /\ currentMinuteOnClock s' = currentMinuteOnClock s)) /\
  wlp (goHomeMinute env cfg ;; goHomeHour env cfg) s (fun r s' =>
    r = Some tt -> currentMinuteOnClock s' = 0 /\ currentHourOnClock s' = 0) /\
  wlp (goHomeHour env cfg ;; goHomeMinute env cfg) s (fun r s' =>
    r = Some tt -> currentMinuteOnClock s' = 0 /\ currentHourOnClock s' = 0) /\
  ((forall t, eventually env PIN_HOME_SWITCH_MINUTE LOW t) ->
   (forall t, eventually env PIN_HOME_SWITCH_HOUR LOW t) ->
   returns (goHomeMinute env cfg ;; goHomeHour env cfg) s (fun _ _ => True) /\
   returns (goHomeHour env cfg ;; goHomeMinute env cfg) s (fun _ _ => True)).
Proof.
  assert (Hzero : forall sv p s0,
    wlp (homeDial env cfg sv p) s0 (fun r s' =>
      (forall sv', sv' <> sv -> counter sv' s' = counter sv' s0) /\
      (r <> None -> counter sv s' = 0))).
  { intros sv p s0. eapply wlp_conseq; [apply homeDial_wlp|].
    intros r s' (_ & Ho & Hc & _). split; [exact Ho|].
    destruct r; [intros _; exact Hc | congruence]. }
  assert (Hret : forall sv p s0,
    eventually env p LOW (tick s0) ->
    returns (homeDial env cfg sv p) s0 (fun _ s' =>
      (forall sv', sv' <> sv -> counter sv' s' = counter sv' s0) /\
      counter sv s' = 0)).
  { intros sv p s0 He. eapply returns_conseq.
    - apply returns_wlp; [apply homeDial_returns, He | apply Hzero].
    - intros u s' [Ho Hc]. split; [exact Ho | apply Hc; discriminate]. }
  split; [|split; [reflexivity|split; [reflexivity|]]].
  { intros sv p fuel.
    destruct (homeDial_run env cfg sv p fuel s) as (k & Hk & [-> | [Hp ->]]);
      exists k; simpl; auto. }
  split; [|split; [|split; [|split]]].
  - intros He. eapply returns_conseq; [apply (Hret servoMinute), He|].
    intros _ s' [Ho Hc]. split; [exact Hc|].
    apply (Ho servoHour). discriminate.
  - intros He. eapply returns_conseq; [apply (Hret servoHour), He|].
    intros _ s' [Ho Hc]. split; [exact Hc|].
    apply (Ho servoMinute). discriminate.
  - apply wlp_bind. eapply wlp_conseq; [apply (Hzero servoMinute)|].
    intros [u|] s1 [Ho Hc]; [|discriminate].
    eapply wlp_conseq; [apply (Hzero servoHour)|].
    intros r s2 [Ho2 Hc2] ->. split; [|apply Hc2; discriminate].
    specialize (Ho2 servoMinute ltac:(discriminate)). simpl in Ho2.
    rewrite Ho2. apply Hc. discriminate.
  - apply wlp_bind. eapply wlp_conseq; [apply (Hzero servoHour)|].
    intros [u|] s1 [Ho Hc]; [|discriminate].
    eapply wlp_conseq; [apply (Hzero servoMinute)|].
    intros r s2 [Ho2 Hc2] ->. split; [apply Hc2; discriminate|].
    specialize (Ho2 servoHour ltac:(discriminate)). simpl in Ho2.
    rewrite Ho2. apply Hc. discriminate.
  - intros Hm Hh. split; apply returns_bind.
    + eapply returns_conseq; [apply (Hret servoMinute), Hm|].
      intros _ s1 _. eapply returns_conseq; [apply (Hret servoHour), Hh|].
      auto.
    + eapply returns_conseq; [apply (Hret servoHour), Hh|].
      intros _ s1 _. eapply returns_conseq; [apply (Hret servoMinute), Hm|].
      auto.
Qed.

(** Homing on the test bench, starting from counters 37 and 5. *)
Lemma C5_witness :
  let s := mkState NORMAL_MODE 37 5 0 0 0 (mkDateTime 2025 6 23 12 0 0) 0 [] in
  returns (goHomeMinute benchEnv WiFi.cfg) s
    (fun _ s' => currentMinuteOnClock s' = 0 /\ currentHourOnClock s' = 5) /\
  returns (goHomeMinute benchEnv WiFi.cfg ;; goHomeHour benchEnv WiFi.cfg) s
    (fun _ _ => True).
Proof.
  intros s.
  destruct (C5_homing_sets_zero benchEnv WiFi.cfg s)
    as (_ & _ & _ & Hm & _ & _ & _ & Hboth).
  split.
  - apply Hm. apply toggles_eventually, benchEnv_toggles.
  - apply Hboth; intros t; apply toggles_eventually, benchEnv_toggles.
Defined.

(** C10.  On an unhomed dial (counter -1) one single-step advance that
    returns leaves the counter at 0, the value homing produces, although
    the dial's home switch was never read: the advance logs only dial
    events. *)
Theorem C10_advance_erases_unhomed env cfg s :
  currentMinuteOnClock s = -1 ->
  currentHourOnClock s = -1 ->
  wlp (moveMinuteStep env cfg) s (fun r s' =>
    r = Some tt ->
    currentMinuteOnClock s' = 0 /\
    exists evs, trace s' = trace s ++ evs /\
                forall p l, In (EvDigitalRead p l) evs ->
                            p = PIN_STEP_SWITCH_MINUTE) /\
  wlp (moveHourToNext env cfg) s (fun r s' =>
    r = Some tt ->
    currentHourOnClock s' = 0 /\
    exists evs, trace s' = trace s ++ evs /\
                forall p l, In (EvDigitalRead p l) evs ->
                            p = PIN_STEP_SWITCH_HOUR) /\
  wlp (goHomeMinute env cfg) s
    (fun r s' => r = Some tt -> currentMinuteOnClock s' = 0) /\
  wlp (goHomeHour env cfg) s
    (fun r s' => r = Some tt -> currentHourOnClock s' = 0) /\
  c_rem (-1 + 1) 60 = 0 /\ c_rem (-1 + 1) 24 = 0 /\
  (toggles env PIN_STEP_SWITCH_MINUTE ->
   returns (moveMinuteStep env cfg) s (fun _ _ => True)) /\
  (toggles env PIN_STEP_SWITCH_HOUR ->
   returns (moveHourToNext env cfg) s (fun _ _ => True)).
Proof.
  intros Hm Hh.
  assert (Hreads : forall sv p evs,
    Forall (motionEvent cfg sv p) evs ->
    forall p' l, In (EvDigitalRead p' l) evs -> p' = p).
  { intros sv p evs F p' l Hin. rewrite Forall_forall in F.
    apply (F _ Hin). }
  split; [|split; [|split; [|split; [|split; [|split; [|split]]]]]];
    try reflexivity.
  - intros fuel.
    destruct (moveMinuteStep_run env cfg fuel s)
      as [(n & evs & -> & H) | (n & evs & -> & H)]; simpl;
      [discriminate|]. intros _. rewrite Hm. split; [reflexivity|].
    eexists. split; [reflexivity|]. intros p l Hin.
    apply in_app_or in Hin. destruct Hin as [Hin | [Hin | []]];
      [|discriminate].
    eapply Hreads; [apply stepTrace_motion, H | exact Hin].
  - intros fuel.
    destruct (moveHourToNext_run env cfg fuel s)
      as [(n & evs & -> & H) | (n & e1 & e2 & -> & H1 & H2)]; simpl;
      [discriminate|]. intros _. rewrite Hh. split; [reflexivity|].
    eexists. split; [reflexivity|]. intros p l Hin.
    apply in_app_or in Hin. destruct Hin as [Hin | Hin];
      [eapply Hreads; [apply stepTrace_motion, H1 | exact Hin]|].
    apply in_app_or in Hin. destruct Hin as [Hin | [Hin | []]];
      [|discriminate].
    eapply Hreads; [apply stepTrace_motion, H2 | exact Hin].
  - eapply wlp_conseq; [apply homeDial_wlp|].
    intros r s' (_ & _ & Hc & _) ->. exact Hc.
  - eapply wlp_conseq; [apply homeDial_wlp|].
    intros r s' (_ & _ & Hc & _) ->. exact Hc.
  - apply moveMinuteStep_returns.
  - apply moveHourToNext_returns.
Qed.

Lemma C10_witness :
  let s := bootState (mkDateTime 2025 6 23 12 0 0) in
  wlp (moveMinuteStep benchEnv RtcDirect.cfg) s (fun r s' =>
    r = Some tt ->
    currentMinuteOnClock s' = 0 /\
    exists evs, trace s' = trace s ++ evs /\
                forall p l, In (EvDigitalRead p l) evs ->
                            p = PIN_STEP_SWITCH_MINUTE) /\
  returns (moveMinuteStep benchEnv RtcDirect.cfg) s (fun _ _ => True).
Proof.
  intros s.
  destruct (C10_advance_erases_unhomed benchEnv RtcDirect.cfg s
              eq_refl eq_refl) as (H1 & _ & _ & _ & _ & _ & H7 & _).
  split; [exact H1 | apply H7, benchEnv_toggles].
Defined.

(** * Reconciliation in the WiFi sketch: one step per pass of [loop] *)

Lemma distance_refl sv target :
  0 <= target < dialRange sv -> distance sv target target = 0%nat.
Proof.
  intros H. unfold distance.
  destruct (Z.eqb_spec target (-1)); [lia|].
  rewrite Z.sub_diag, Z.mod_0_l by (destruct sv; discriminate). reflexivity.
Qed.

Lemma onePass_inRange sv cur target :
  inRange sv cur -> inRange sv (onePass sv cur target).
Proof.
  intros H. unfold onePass. destruct (cur =? target); [exact H|].
  apply c_rem_inRange, H.
Qed.

Lemma onePass_distance sv cur target :
  inRange sv cur -> 0 <= target < dialRange sv ->
  distance sv (onePass sv cur target) target
  = (distance sv cur target - 1)%nat.
Proof.
  intros Hc Ht. unfold onePass.
  destruct (Z.eqb_spec cur target) as [->|Hne].
  - rewrite distance_refl by exact Ht. reflexivity.
  - rewrite (distance_S sv cur target Hc Ht Hne). lia.
Qed.

Section WiFiLoop.

Variable env : Env.

Lemma wlp_sample {A} (f : Prog A) (v : A) s Q :
  (forall fuel, f fuel s = (Some v, io 1 [] s)) ->
  Q (Some v) (io 1 [] s) -> wlp f s Q.
Proof. intros Hf H fuel. rewrite Hf. exact H. Qed.

Lemma returns_sample {A} (f : Prog A) (v : A) s (Q : A -> State -> Prop) :
  (forall fuel, f fuel s = (Some v, io 1 [] s)) ->
  Q v (io 1 [] s) -> returns f s Q.
Proof. intros Hf H. exists 0%nat, v, (io 1 [] s). auto. Qed.

(** One pass of [loop] compares each counter with the reading it has just
    taken and advances a dial that differs by one step, no more. *)
Lemma WiFi_loop_wlp s :
  wlp (WiFi.loop env) s (fun r s' =>
    kept s s' /\
    (r = Some tt ->
     currentMinuteOnClock s'
     = onePass servoMinute (currentMinuteOnClock s)
         (ntp_minutes_at env (tick s + 1)) /\
     currentHourOnClock s'
     = onePass servoHour (currentHourOnClock s)
         (ntp_hours_at env (tick s + 2)))).
Proof.
  unfold WiFi.loop.
  apply wlp_bind, (wlp_sample _ (ntp_update_at env (tick s)));
    [reflexivity|].
  apply wlp_bind, (wlp_sample _ (ntp_minutes_at env (tick s + 1)));
    [reflexivity|].
  apply wlp_bind, (wlp_sample _ (ntp_hours_at env (tick s + 1 + 1)));
    [reflexivity|].
  replace (tick s + 1 + 1)%nat with (tick s + 2)%nat by lia.
  set (m := ntp_minutes_at env (tick s + 1)).
  set (h := ntp_hours_at env (tick s + 2)).
  set (s3 := io 1 [] (io 1 [] (io 1 [] s))).
  assert (K3 : kept s s3) by (split; split; intro K; exact K).
  apply wlp_bind, wlp_get, wlp_bind.
  change (currentMinuteOnClock s3) with (currentMinuteOnClock s).
  assert (Hhour : forall s4,
    kept s s4 -> currentHourOnClock s4 = currentHourOnClock s ->
    currentMinuteOnClock s4 = onePass servoMinute (currentMinuteOnClock s) m ->
    wlp (h0 <- get currentHourOnClock ;;
         when (negb (h0 =? h)) (moveHourToNext env WiFi.cfg) ;;
         delay 1000) s4
      (fun r s' =>
         kept s s' /\
         (r = Some tt ->
          currentMinuteOnClock s'
          = onePass servoMinute (currentMinuteOnClock s) m /\
          currentHourOnClock s'
          = onePass servoHour (currentHourOnClock s) h))).
  { intros s4 K4 Hh Hm. apply wlp_bind, wlp_get, wlp_bind. rewrite Hh.
    apply wlp_when; intros E.
    - eapply wlp_conseq; [apply moveHourToNext_wlp|].
      intros r s5 (Ha & Ho & Hc & _).
      assert (kept s s5).
      { eapply kept_trans; [exact K4|]. apply advanced_safeStep in Ha.
        apply Ha. }
      destruct r as [u|]; [|split; [assumption | discriminate]].
      apply wlp_ret. split; [assumption|]. intros _.
      specialize (Ho servoMinute ltac:(discriminate)). simpl in Ho, Hc.
      split; [congruence|]. rewrite Hc, Hh. unfold onePass.
      apply negb_true_iff in E. rewrite E. reflexivity.
    - apply wlp_ret. split; [assumption|]. intros _.
      split; [assumption|]. rewrite Hh. unfold onePass.
      apply negb_false_iff in E. rewrite E. reflexivity. }
  apply wlp_when; intros E.
  - eapply wlp_conseq; [apply moveMinuteStep_wlp|].
    intros r s4 (Ha & Ho & Hc & _).
    assert (kept s s4).
    { eapply kept_trans; [exact K3|]. apply advanced_safeStep in Ha.
      apply Ha. }
    destruct r as [u|]; [|split; [assumption | discriminate]].
    apply Hhour; [assumption| |].
    + apply (Ho servoHour). discriminate.
    + simpl in Hc. rewrite Hc. unfold onePass.
      apply negb_true_iff in E.
      change (currentMinuteOnClock s3) with (currentMinuteOnClock s).
      rewrite E. reflexivity.
  - apply Hhour; [assumption | reflexivity|].
    unfold onePass. apply negb_false_iff in E.
    change (currentMinuteOnClock s3) with (currentMinuteOnClock s).
    rewrite E. reflexivity.
Qed.

(** One pass of [loop] calls each advance at most once: the log grows by
    dial events with at most one assignment to each counter, and a pass
    that returns has made one exactly for a counter that differed from the
    reading. *)
Lemma WiFi_loop_advances s :
  wlp (WiFi.loop env) s (fun r s' =>
    advanced WiFi.cfg s s' /\
    (advancesOf servoMinute (trace s')
     <= advancesOf servoMinute (trace s) + 1)%nat /\
    (advancesOf servoHour (trace s')
     <= advancesOf servoHour (trace s) + 1)%nat /\
    (r = Some tt ->
     advancesOf servoMinute (trace s')
     = (advancesOf servoMinute (trace s)
        + if (currentMinuteOnClock s =? ntp_minutes_at env (tick s + 1))%Z
          then 0 else 1)%nat /\
     advancesOf servoHour (trace s')
     = (advancesOf servoHour (trace s)
        + if (currentHourOnClock s =? ntp_hours_at env (tick s + 2))%Z
          then 0 else 1)%nat)).
Proof.
  unfold WiFi.loop.
  apply wlp_bind, (wlp_sample _ (ntp_update_at env (tick s)));
    [reflexivity|].
  apply wlp_bind, (wlp_sample _ (ntp_minutes_at env (tick s + 1)));
    [reflexivity|].
  apply wlp_bind, (wlp_sample _ (ntp_hours_at env (tick s + 1 + 1)));
    [reflexivity|].
  replace (tick s + 1 + 1)%nat with (tick s + 2)%nat by lia.
  set (m := ntp_minutes_at env (tick s + 1)).
  set (h := ntp_hours_at env (tick s + 2)).
  set (s3 := io 1 [] (io 1 [] (io 1 [] s))).
  assert (A3 : advanced WiFi.cfg s s3)
    by (repeat (eapply advanced_trans; [|apply advanced_sample]);
        apply advanced_refl).
  assert (N3 : forall sv, advancesOf sv (trace s3) = advancesOf sv (trace s))
    by (intros sv; subst s3; simpl; rewrite !app_nil_r; reflexivity).
  apply wlp_bind, wlp_get, wlp_bind.
  change (currentMinuteOnClock s3) with (currentMinuteOnClock s).
  assert (Hhour : forall s4 (a : nat),
    advanced WiFi.cfg s s4 -> currentHourOnClock s4 = currentHourOnClock s ->
    advancesOf servoMinute (trace s4)
    = (advancesOf servoMinute (trace s) + a)%nat ->
    advancesOf servoHour (trace s4) = advancesOf servoHour (trace s) ->
    (a <= 1)%nat ->
    wlp (h0 <- get currentHourOnClock ;;
         when (negb (h0 =? h)) (moveHourToNext env WiFi.cfg) ;;
         delay 1000) s4
      (fun r s' =>
         advanced WiFi.cfg s s' /\
         (advancesOf servoMinute (trace s')
          <= advancesOf servoMinute (trace s) + 1)%nat /\
         (advancesOf servoHour (trace s')
          <= advancesOf servoHour (trace s) + 1)%nat /\
         (r = Some tt ->
          advancesOf servoMinute (trace s')
          = (advancesOf servoMinute (trace s) + a)%nat /\
          advancesOf servoHour (trace s')
          = (advancesOf servoHour (trace s)
             + if (currentHourOnClock s =? h)%Z then 0 else 1)%nat))).
  { intros s4 a A4 Hh Nm Nh La. apply wlp_bind, wlp_get, wlp_bind. rewrite Hh.
    apply wlp_when; intros E.
    - eapply wlp_conseq; [apply moveHourToNext_wlp|].
      intros r s5 (Ha & _ & _ & Hn).
      pose proof (Hn servoMinute) as Hnm. pose proof (Hn servoHour) as Hnh.
      apply negb_true_iff in E.
      assert (A5 : advanced WiFi.cfg s s5)
        by (eapply advanced_trans; eassumption).
      destruct r as [u|]; simpl in Hnm, Hnh.
      + apply wlp_ret. split; [exact A5|].
        split; [lia|]. split; [lia|]. intros _. rewrite E. lia.
      + split; [exact A5|]. split; [lia|]. split; [lia|]. discriminate.
    - apply wlp_ret. apply negb_false_iff in E.
      split; [exact A4|]. split; [lia|]. split; [lia|]. intros _.
      rewrite E. lia. }
  apply wlp_when; intros E.
  - eapply wlp_conseq; [apply moveMinuteStep_wlp|].
    intros r s4 (Ha & Ho & _ & Hn).
    pose proof (Hn servoMinute) as Hnm. pose proof (Hn servoHour) as Hnh.
    rewrite N3 in Hnm, Hnh. apply negb_true_iff in E.
    assert (A4 : advanced WiFi.cfg s s4)
      by (eapply advanced_trans; eassumption).
    destruct r as [u|]; simpl in Hnm, Hnh.
    + eapply wlp_conseq;
        [apply (Hhour s4 1%nat A4);
         [apply (Ho servoHour); discriminate | exact Hnm | lia | lia]|].
      intros r s5 (A5 & B1 & B2 & H5).
      split; [exact A5|]. split; [exact B1|]. split; [exact B2|].
      intros Er. destruct (H5 Er) as [H6 H7]. rewrite E. split; assumption.
    + split; [exact A4|]. split; [lia|]. split; [lia|]. discriminate.
  - apply negb_false_iff in E.
    eapply wlp_conseq;
      [apply (Hhour s3 0%nat A3);
       [reflexivity | rewrite N3; lia | apply N3 | lia]|].
    intros r s5 (A5 & B1 & B2 & H5).
    split; [exact A5|]. split; [exact B1|]. split; [exact B2|].
    intros Er. destruct (H5 Er) as [H6 H7]. rewrite E. split; assumption.
Qed.

Lemma WiFi_loop_returns s :
  toggles env PIN_STEP_SWITCH_HOUR ->
  toggles env PIN_STEP_SWITCH_MINUTE ->
  returns (WiFi.loop env) s (fun _ _ => True).
Proof.
  intros TH TM. unfold WiFi.loop.
  apply returns_bind, (returns_sample _ (ntp_update_at env (tick s)));
    [reflexivity|].
  apply returns_bind, (returns_sample _ (ntp_minutes_at env (tick s + 1)));
    [reflexivity|].
  apply returns_bind, (returns_sample _ (ntp_hours_at env (tick s + 1 + 1)));
    [reflexivity|].
  apply returns_bind, returns_get, returns_bind.
  assert (Hhour : forall s4,
    returns (h0 <- get currentHourOnClock ;;
             when (negb (h0 =? ntp_hours_at env (tick s + 1 + 1)))
               (moveHourToNext env WiFi.cfg) ;;
             delay 1000) s4 (fun _ _ => True)).
  { intros s4. apply returns_bind, returns_get, returns_bind.
    apply returns_when; intros _.
    - eapply returns_conseq; [apply moveHourToNext_returns, TH|].
      intros _ s5 _. apply returns_ret. exact I.
    - apply returns_ret. exact I. }
  apply returns_when; intros _.
  - eapply returns_conseq; [apply moveMinuteStep_returns, TM|].
    intros _ s4 _. apply Hhour.
  - apply Hhour.
Qed.

(** While the reading stays at [h]:[m], [k] passes bring each counter [k]
    steps closer, until it is there. *)
Lemma WiFi_passes h m (k : nat) s :
  toggles env PIN_STEP_SWITCH_HOUR ->
  toggles env PIN_STEP_SWITCH_MINUTE ->
  (forall t, ntp_hours_at env t = h /\ ntp_minutes_at env t = m) ->
  0 <= h < 24 -> 0 <= m < 60 ->
  inRange servoHour (currentHourOnClock s) ->
  inRange servoMinute (currentMinuteOnClock s) ->
  returns (invocations k (WiFi.loop env)) s (fun _ s' =>
    inRange servoHour (currentHourOnClock s') /\
    inRange servoMinute (currentMinuteOnClock s') /\
    distance servoHour (currentHourOnClock s') h
    = (distance servoHour (currentHourOnClock s) h - k)%nat /\
    distance servoMinute (currentMinuteOnClock s') m
    = (distance servoMinute (currentMinuteOnClock s) m - k)%nat).
Proof.
  intros TH TM Hconst Hh Hm. revert s.
  induction k as [|k IH]; intros s RH RM.
  - apply returns_ret. repeat split; try apply RH; try apply RM; lia.
  - cbn [invocations]. apply returns_bind.
    eapply returns_conseq;
      [apply returns_wlp;
       [apply WiFi_loop_returns; assumption | apply WiFi_loop_wlp]|].
    intros [] s1 (_ & H1). destruct (H1 eq_refl) as [Em Eh].
    rewrite (proj2 (Hconst _)) in Em. rewrite (proj1 (Hconst _)) in Eh.
    eapply returns_conseq; [apply IH|].
    + rewrite Eh. apply onePass_inRange, RH.
    + rewrite Em. apply onePass_inRange, RM.
    + intros _ s2 (R1 & R2 & D1 & D2).
      split; [exact R1|]. split; [exact R2|].
      rewrite D1, D2, Eh, Em.
      rewrite (onePass_distance servoHour _ h RH Hh).
      rewrite (onePass_distance servoMinute _ m RM Hm). lia.
Qed.

End WiFiLoop.

(** C1, as the code has it.  In the RTC sketches, with step switches that
    keep toggling, tracked positions in {-1, 0..23} and {-1, 0..59} and an
    RTC time in 0..23 : 0..59, [syncClockToRTC] returns with both counters
    equal to the RTC time, having only advanced the dials: the hour dial
    [distance] times, at most 24, and the minute dial [distance] times, at
    most 60.  The WiFi sketches have no such routine: one pass of their
    [loop] only advances the dials, and each dial at most once, wherever the
    pass stops; a pass that returns has advanced each dial that differed
    from the NTP reading by exactly one step and the other not at all, so
    it may return with the counters still different from the reading;
    while the reading does not change, 60 passes suffice. *)
Theorem C1_reconciliation env cfg s :
  toggles env PIN_STEP_SWITCH_HOUR ->
  toggles env PIN_STEP_SWITCH_MINUTE ->
  inRange servoHour (currentHourOnClock s) ->
  inRange servoMinute (currentMinuteOnClock s) ->
  (let now := rtc_time env (tick s) (rtc s) in
   0 <= hour now < 24 -> 0 <= minute now < 60 ->
   returns (syncClockToRTC env cfg) s (fun _ s' =>
     currentHourOnClock s' = hour now /\
     currentMinuteOnClock s' = minute now /\
     advanced cfg s s' /\
     advancesOf servoHour (trace s')
     = (advancesOf servoHour (trace s)
        + distance servoHour (currentHourOnClock s) (hour now))%nat /\
     advancesOf servoMinute (trace s')
     = (advancesOf servoMinute (trace s)
        + distance servoMinute (currentMinuteOnClock s) (minute now))%nat /\
     (distance servoHour (currentHourOnClock s) (hour now) <= 24)%nat /\
     (distance servoMinute (currentMinuteOnClock s) (minute now) <= 60)%nat))
  /\
  wlp (WiFi.loop env) s (fun r s' =>
    advanced WiFi.cfg s s' /\
    (advancesOf servoMinute (trace s')
     <= advancesOf servoMinute (trace s) + 1)%nat /\
    (advancesOf servoHour (trace s')
     <= advancesOf servoHour (trace s) + 1)%nat /\
    (r = Some tt ->
     currentMinuteOnClock s'
     = onePass servoMinute (currentMinuteOnClock s)
         (ntp_minutes_at env (tick s + 1)) /\
     currentHourOnClock s'
     = onePass servoHour (currentHourOnClock s)
         (ntp_hours_at env (tick s + 2)) /\
     advancesOf servoMinute (trace s')
     = (advancesOf servoMinute (trace s)
        + if (currentMinuteOnClock s =? ntp_minutes_at env (tick s + 1))%Z
          then 0 else 1)%nat /\
     advancesOf servoHour (trace s')
     = (advancesOf servoHour (trace s)
        + if (currentHourOnClock s =? ntp_hours_at env (tick s + 2))%Z
          then 0 else 1)%nat)) /\
  (forall h m,
     (forall t, ntp_hours_at env t = h /\ ntp_minutes_at env t = m) ->
     0 <= h < 24 -> 0 <= m < 60 ->
     returns (invocations 60 (WiFi.loop env)) s (fun _ s' =>
       currentHourOnClock s' = h /\ currentMinuteOnClock s' = m)).
Proof.
  intros TH TM RH RM. split; [|split].
  - intros now Hh Hm.
    eapply returns_conseq;
      [apply (syncClockToRTC_total env cfg s TH TM RH RM Hh Hm)|].
    intros _ s' (Ha & Eh & Em & Nh & Nm).
    repeat (split; [assumption|]). split.
    + apply (distance_le servoHour _ _ RH Hh).
    + apply (distance_le servoMinute _ _ RM Hm).
  - eapply wlp_conseq;
      [apply wlp_and; [apply WiFi_loop_wlp | apply WiFi_loop_advances]|].
    intros r s' [[_ Hc] (Ha & Bm & Bh & Hn)].
    split; [exact Ha|]. split; [exact Bm|]. split; [exact Bh|].
    intros Er. destruct (Hc Er) as [Em Eh]. destruct (Hn Er) as [Nm Nh].
    auto.
  - intros h m Hconst Hh Hm.
    eapply returns_conseq;
      [apply (WiFi_passes env h m 60 s TH TM Hconst Hh Hm RH RM)|].
    intros _ s' (R1 & R2 & D1 & D2).
    pose proof (distance_le servoHour _ _ RH Hh) as L1.
    pose proof (distance_le servoMinute _ _ RM Hm) as L2.
    simpl in L1, L2. split.
    + apply (distance_0 servoHour _ h R1 Hh). lia.
    + apply (distance_0 servoMinute _ m R2 Hm). lia.
Qed.

Lemma C1_witness :
  returns (syncClockToRTC benchEnv RtcExpander.cfg) benchState (fun _ s' =>
    currentHourOnClock s' = 2 /\ currentMinuteOnClock s' = 3) /\
  returns (invocations 60 (WiFi.loop benchEnv)) benchState (fun _ s' =>
    currentHourOnClock s' = 2 /\ currentMinuteOnClock s' = 3).
Proof.
  destruct (C1_reconciliation benchEnv RtcExpander.cfg benchState)
    as (Hsync & _ & Hpasses).
  - apply benchEnv_toggles.
  - apply benchEnv_toggles.
  - unfold inRange; simpl; lia.
  - unfold inRange; simpl; lia.
  - split.
    + eapply returns_conseq; [apply Hsync; simpl; lia|].
      intros _ s' (Eh & Em & _). split; assumption.
    + apply (Hpasses 2 3); [intros t; split; reflexivity | lia | lia].
Defined.

(** The claim as stated fails for the reconciliation of the WiFi sketch:
    at 00:00 with the NTP client reporting 02:03, [loop] returns with the
    display at 01:01. *)
Lemma C1_counterexample :
  let r := WiFi.loop benchEnv 10%nat benchState in
  fst r = Some tt /\
  ntp_hours_at benchEnv 2 = 2 /\ ntp_minutes_at benchEnv 1 = 3 /\
  currentHourOnClock (snd r) = 1 /\ currentMinuteOnClock (snd r) = 1 /\
  ~ (currentHourOnClock (snd r) = 2 /\ currentMinuteOnClock (snd r) = 3).
Proof.
  vm_compute. repeat split; try reflexivity. intros [H _]. discriminate H.
Qed.

(** * The range invariant over every routine *)

Lemma preserves_kept_performHourSingleStep env cfg :
  preserves kept (performHourSingleStep env cfg).
Proof.
  apply preserves_trans; [apply kept_trans|]. intros s fuel.
  change (performHourSingleStep env cfg)
    with (pressRelease env cfg servoHour PIN_STEP_SWITCH_HOUR).
  destruct (pressRelease_run env cfg servoHour PIN_STEP_SWITCH_HOUR fuel s)
    as [(n & evs & -> & _) | (n & evs & -> & _)];
    split; split; intro K; exact K.
Qed.

Lemma Routine_kept env bm bh f s :
  Routine env bm bh f ->
  wlp f s (fun r s' =>
    kept s s' /\
    (bm = true -> r <> None -> 0 <= currentMinuteOnClock s') /\
    (bh = true -> r <> None -> 0 <= currentHourOnClock s')).
Proof.
  assert (Hplain : forall f : Prog unit, preserves kept f ->
    wlp f s (fun r s' =>
      kept s s' /\
      (false = true -> r <> None -> 0 <= currentMinuteOnClock s') /\
      (false = true -> r <> None -> 0 <= currentHourOnClock s'))).
  { intros g Hg. eapply wlp_conseq; [apply (Hg s s (kept_refl s))|].
    intros r s' K. split; [exact K | split; discriminate]. }
  assert (Hsetup : forall f : Prog unit,
    hoare (kept s) f (fun s' => kept s s' /\ homed s') (kept s) ->
    wlp f s (fun r s' =>
      kept s s' /\
      (true = true -> r <> None -> 0 <= currentMinuteOnClock s') /\
      (true = true -> r <> None -> 0 <= currentHourOnClock s'))).
  { intros g Hg. eapply wlp_conseq; [apply (Hg s (kept_refl s))|].
    intros [u|] s'.
    - intros [K [Hm Hh]]. auto.
    - intros K. split; [exact K|]. split; congruence. }
  intros [cfg|cfg|cfg|cfg|cfg|cfg| | | | | | | | ].
  - eapply wlp_conseq;
      [apply (hoare_kept_home1 env cfg servoMinute PIN_HOME_SWITCH_MINUTE s s
                (kept_refl s))|].
    intros [u|] s'; [intros [K Hc] | intros K];
      (split; [exact K|]); split; try congruence.
    intros _ _. simpl in Hc. lia.
  - eapply wlp_conseq;
      [apply (hoare_kept_home1 env cfg servoHour PIN_HOME_SWITCH_HOUR s s
                (kept_refl s))|].
    intros [u|] s'; [intros [K Hc] | intros K];
      (split; [exact K|]); split; try congruence.
    intros _ _. simpl in Hc. lia.
  - apply Hplain, (preserves_kept_of_safe cfg),
      preserves_safe_moveMinuteStep.
  - apply Hplain, preserves_kept_performHourSingleStep.
  - apply Hplain, (preserves_kept_of_safe cfg),
      preserves_safe_moveHourToNext.
  - apply Hplain, (preserves_kept_of_safe cfg),
      preserves_safe_syncClockToRTC.
  - apply Hplain, (preserves_kept_of_safe RtcExpander.cfg),
      RtcExpander_handleButtons_safe.
  - apply Hplain, (preserves_kept_of_safe RtcDirect.cfg),
      RtcDirect_handleButtons_safe.
  - apply Hplain, (preserves_kept_of_safe RtcExpander.cfg),
      RtcExpander_loop_safe.
  - apply Hplain, (preserves_kept_of_safe RtcDirect.cfg),
      RtcDirect_loop_safe.
  - apply Hplain, (preserves_kept_of_safe WiFi.cfg), WiFi_loop_safe.
  - apply Hsetup, RtcExpander_setup_kept.
  - apply Hsetup, RtcDirect_setup_kept.
  - apply Hsetup, WiFi_setup_kept.
Qed.

(** C3.  In every reachable state [currentMinuteOnClock] is in {-1, 0..59}
    and [currentHourOnClock] in {-1, 0..23}; every routine (homing,
    single-step advance, hour advance, reconciliation, button handling,
    [loop], [setup]) preserves this, wherever its run stops; and once a
    homing of a dial has returned, that dial's counter is never -1 again. *)
Theorem C3_counters_in_range hm hh s :
  reachable hm hh s ->
  (-1 <= currentMinuteOnClock s < 60) /\
  (-1 <= currentHourOnClock s < 24) /\
  (hm = true -> 0 <= currentMinuteOnClock s) /\
  (hh = true -> 0 <= currentHourOnClock s).
Proof.
  induction 1 as [dt | hm hh s env bm bh f fuel _ IH HR].
  - simpl. repeat split; try lia; discriminate.
  - destruct IH as (Rm & Rh & Hm & Hh).
    destruct (Routine_kept env bm bh f s HR fuel)
      as ([[Km Km'] [Kh Kh']] & Bm & Bh).
    unfold returned.
    split; [apply Km, Rm|]. split; [apply Kh, Rh|]. split; intros E.
    + apply orb_true_iff in E. destruct E as [E|E];
        [apply Km', Hm, E|].
      apply andb_true_iff in E. destruct E as [E1 E2].
      apply Bm; [exact E1|]. destruct (fst (f fuel s)); congruence.
    + apply orb_true_iff in E. destruct E as [E|E];
        [apply Kh', Hh, E|].
      apply andb_true_iff in E. destruct E as [E1 E2].
      apply Bh; [exact E1|]. destruct (fst (f fuel s)); congruence.
Qed.

(** The state after [setup] and three passes of [loop] of the first RTC
    sketch on the test bench. *)
Lemma C3_witness :
  let s := snd (RtcExpander.loop benchEnv 100%nat
             (snd (RtcExpander.setup benchEnv 100%nat
                (bootState (mkDateTime 2025 6 23 2 3 0))))) in
  (-1 <= currentMinuteOnClock s < 60) /\
  (-1 <= currentHourOnClock s < 24) /\
  0 <= currentMinuteOnClock s /\ 0 <= currentHourOnClock s.
Proof.
  intros s.
  destruct (C3_counters_in_range _ _ _
              (reach_run _ _ _ benchEnv _ _ _ 100%nat
                 (reach_run _ _ _ benchEnv _ _ _ 100%nat
                    (reach_boot (mkDateTime 2025 6 23 2 3 0))
                    (R_setup_expander benchEnv))
                 (R_loop_expander benchEnv)))
    as (Rm & Rh & Hm & Hh).
  split; [exact Rm|]. split; [exact Rh|].
  split; [apply Hm | apply Hh]; vm_compute; reflexivity.
Defined.

(** * No backward motion *)

Lemma okEvent_forwardOnly cfg e :
  (forall sv, moveOffset cfg sv <> 0) -> okEvent cfg e -> forwardOnly cfg e.
Proof.
  intros Hoff H. split; [exact H|].
  destruct e as [sv v| | |]; try exact I.
  specialize (Hoff sv). unfold backward. simpl in H. lia.
Qed.

Lemma sketch_forwardOnly cfg (sketch : Prog unit) dt fuel :
  (forall sv, moveOffset cfg sv <> 0) ->
  hoare (unhomed cfg (bootState dt)) sketch
        (safeStep cfg (bootState dt)) (safeStep cfg (bootState dt)) ->
  Forall (forwardOnly cfg) (trace (snd (sketch fuel (bootState dt)))).
Proof.
  intros Hoff H.
  assert (U : unhomed cfg (bootState dt) (bootState dt))
    by (split; [apply safeStep_refl | split; reflexivity]).
  specialize (H _ U fuel). simpl in H.
  assert (S : safeStep cfg (bootState dt) (snd (sketch fuel (bootState dt))))
    by (destruct (fst (sketch fuel (bootState dt))); exact H).
  destruct S as ((evs & E & F) & _). rewrite E. simpl.
  eapply Forall_impl; [|exact F].
  intros e. apply okEvent_forwardOnly, Hoff.
Qed.

(** C9.  Take any of the three sketches, any hardware behaviour, any RTC
    time at power-up, and run [setup] and then any number of passes of
    [loop], for any length of time.  Every servo command in the log is the
    stop pulse or the stop pulse plus that dial's forward offset, never the
    value for the opposite direction, and every assignment to a position
    counter is [new = (old + 1) % range]. *)
Theorem C9_forward_only env dt (n fuel : nat) :
  Forall (forwardOnly RtcExpander.cfg)
    (trace (snd (RtcExpander.sketch env n fuel (bootState dt)))) /\
  Forall (forwardOnly RtcDirect.cfg)
    (trace (snd (RtcDirect.sketch env n fuel (bootState dt)))) /\
  Forall (forwardOnly WiFi.cfg)
    (trace (snd (WiFi.sketch env n fuel (bootState dt)))).
Proof.
  split; [|split]; apply sketch_forwardOnly;
    try (intros [|]; discriminate).
  - apply RtcExpander_sketch_safe.
  - apply RtcDirect_sketch_safe.
  - apply WiFi_sketch_safe.
Qed.

(** * The button handler *)

(** ** The RTC is written by the save action and by nothing else *)

Lemma adjusted_app e1 e2 : adjusted (e1 ++ e2) <-> adjusted e1 \/ adjusted e2.
Proof.
  unfold adjusted. split.
  - intros (dt & H). apply in_app_or in H. destruct H; eauto.
  - intros [(dt & H) | (dt & H)]; exists dt; apply in_or_app; auto.
Qed.

Lemma savePressed_app e1 e2 :
  savePressed (e1 ++ e2) <-> savePressed e1 \/ savePressed e2.
Proof. unfold savePressed. apply in_app_iff. Qed.

Lemma rtcBySave_refl s : rtcBySave s s.
Proof.
  exists []. split; [now rewrite app_nil_r|]. split; [|reflexivity].
  split; [intros (dt & []) | intros []].
Qed.

Lemma rtcBySave_trans s1 s2 s3 :
  rtcBySave s1 s2 -> rtcBySave s2 s3 -> rtcBySave s1 s3.
Proof.
  intros (e1 & E1 & I1 & R1) (e2 & E2 & I2 & R2). exists (e1 ++ e2).
  split; [now rewrite E2, E1, app_assoc|]. split.
  - rewrite adjusted_app, savePressed_app. tauto.
  - rewrite savePressed_app. intros H.
    rewrite R2, R1 by tauto. reflexivity.
Qed.

Lemma quiet_not_adjusted evs : Forall quiet evs -> ~ adjusted evs.
Proof.
  intros F (dt & H). rewrite Forall_forall in F. exact (F _ H).
Qed.

Lemma quiet_not_savePressed evs : Forall quiet evs -> ~ savePressed evs.
Proof.
  intros F H. rewrite Forall_forall in F. exact (F _ H).
Qed.

Lemma rtcBySave_quiet s s' :
  logged quiet s s' -> rtc s' = rtc s -> rtcBySave s s'.
Proof.
  intros (evs & E & F) Hr. exists evs. split; [exact E|].
  pose proof (quiet_not_adjusted evs F). pose proof (quiet_not_savePressed evs F).
  split; [tauto | auto].
Qed.

Lemma rtcBySave_step (g : State -> State) :
  (forall s, logged quiet s (g s)) -> (forall s, rtc (g s) = rtc s) ->
  forall s0 s, rtcBySave s0 s -> rtcBySave s0 (g s).
Proof.
  intros Hl Hr s0 s H. eapply rtcBySave_trans; [exact H|].
  apply rtcBySave_quiet; auto.
Qed.

Lemma savePending_step (g : State -> State) :
  (forall s, exists evs, trace (g s) = trace s ++ evs) ->
  forall s0 s, savePending s0 s -> savePending s0 (g s).
Proof.
  intros Hl s0 s (evs & E & H). destruct (Hl s) as (e2 & E2).
  exists (evs ++ e2). split; [now rewrite E2, E, app_assoc|].
  apply savePressed_app. auto.
Qed.

(** Writing the RTC when the save button has been read pressed. *)
Lemma savePending_adjust dt s0 s :
  savePending s0 s -> rtcBySave s0 (set_rtc dt (io 0 [EvRtcAdjust dt] s)).
Proof.
  intros (evs & E & H). exists (evs ++ [EvRtcAdjust dt]).
  split; [simpl; now rewrite E, app_assoc|].
  assert (savePressed (evs ++ [EvRtcAdjust dt]))
    by (apply savePressed_app; auto).
  assert (adjusted (evs ++ [EvRtcAdjust dt]))
    by (apply adjusted_app; right; exists dt; left; reflexivity).
  split; tauto.
Qed.

Lemma dialEvent_quiet cfg e : dialEvent cfg e -> quiet e.
Proof.
  destruct e as [| p l | |]; simpl; auto.
  intros [-> | ->]; exact I.
Qed.

Lemma advanced_rtcBySave cfg s s' : advanced cfg s s' -> rtcBySave s s'.
Proof.
  intros ((_ & _ & _ & _ & Hr) & _ & L & _).
  apply rtcBySave_quiet; [|exact Hr].
  eapply logged_impl; [apply dialEvent_quiet | exact L].
Qed.

Section RtcBySave.

Variable env : Env.
Variable cfg : Config.

Lemma preserves_rtcBySave_millis : preserves rtcBySave (millis env).
Proof.
  intros s0 s H fuel. simpl.
  apply (rtcBySave_step (io 1 [])); auto.
  intros s1. apply logged_io. constructor.
Qed.

Lemma preserves_rtcBySave_rtc_now : preserves rtcBySave (rtc_now env).
Proof.
  intros s0 s H fuel. simpl.
  apply (rtcBySave_step (io 1 [])); auto.
  intros s1. apply logged_io. constructor.
Qed.

Lemma preserves_rtcBySave_digitalRead p :
  p <> PIN_BTN_SAVE -> preserves rtcBySave (digitalRead env p).
Proof.
  intros Hp s0 s H fuel. simpl.
  eapply rtcBySave_trans; [exact H|]. apply rtcBySave_quiet; [|reflexivity].
  apply logged_io. repeat constructor. destruct p; try exact I. congruence.
Qed.

Lemma preserves_rtcBySave_silent (g : State -> State) :
  (forall s, trace (g s) = trace s) -> (forall s, rtc (g s) = rtc s) ->
  preserves rtcBySave (modify g).
Proof.
  intros Ht Hr. apply preserves_modify, rtcBySave_step; [|exact Hr].
  intros s. exists []. rewrite Ht, app_nil_r. split; [reflexivity|constructor].
Qed.

Lemma preserves_rtcBySave_moveMinuteStep :
  preserves rtcBySave (moveMinuteStep env cfg).
Proof.
  apply preserves_trans; [apply rtcBySave_trans|]. intros s.
  eapply wlp_conseq; [apply moveMinuteStep_wlp|].
  intros r s' (H & _). eapply advanced_rtcBySave, H.
Qed.

Lemma preserves_rtcBySave_moveHourToNext :
  preserves rtcBySave (moveHourToNext env cfg).
Proof.
  apply preserves_trans; [apply rtcBySave_trans|]. intros s.
  eapply wlp_conseq; [apply moveHourToNext_wlp|].
  intros r s' (H & _). eapply advanced_rtcBySave, H.
Qed.

Lemma preserves_rtcBySave_syncClockToRTC :
  preserves rtcBySave (syncClockToRTC env cfg).
Proof.
  apply preserves_trans; [apply rtcBySave_trans|]. intros s.
  eapply wlp_conseq; [apply syncClockToRTC_wlp|].
  intros r s' (H & _). eapply advanced_rtcBySave, H.
Qed.

(** The save button is read; its action [act] runs if it reads pressed,
    [rest] otherwise ([else if] chain of the first sketch). *)
Lemma preserves_rtcBySave_save_if (act rest : Prog unit) :
  (forall s0 s, savePending s0 s -> wlp act s (fun _ s' => rtcBySave s0 s')) ->
  preserves rtcBySave rest ->
  preserves rtcBySave
    (b <- digitalRead env PIN_BTN_SAVE ;;
     if Level_eqb b LOW then act else rest).
Proof.
  intros Hact Hrest s0 s H. apply wlp_bind, wlp_digitalRead.
  destruct (pin_at env (tick s) PIN_BTN_SAVE); simpl.
  - apply Hact. destruct H as (evs & E & _).
    exists (evs ++ [EvDigitalRead PIN_BTN_SAVE LOW]).
    split; [simpl; now rewrite E, app_assoc|].
    apply savePressed_app. right. left. reflexivity.
  - apply Hrest. eapply rtcBySave_trans; [exact H|].
    apply rtcBySave_quiet; [|reflexivity]. apply logged_io.
    repeat constructor.
Qed.

(** The same with the independent [if] of the second sketch: [rest] runs
    in both cases. *)
Lemma preserves_rtcBySave_save_when (act rest : Prog unit) :
  (forall s0 s, savePending s0 s -> wlp act s (fun _ s' => rtcBySave s0 s')) ->
  preserves rtcBySave rest ->
  preserves rtcBySave
    (b <- digitalRead env PIN_BTN_SAVE ;;
     when (Level_eqb b LOW) act ;; rest).
Proof.
  intros Hact Hrest s0 s H. apply wlp_bind, wlp_digitalRead, wlp_bind.
  destruct (pin_at env (tick s) PIN_BTN_SAVE); simpl.
  - eapply wlp_conseq; [apply Hact|].
    + destruct H as (evs & E & _).
      exists (evs ++ [EvDigitalRead PIN_BTN_SAVE LOW]).
      split; [simpl; now rewrite E, app_assoc|].
      apply savePressed_app. right. left. reflexivity.
    + intros [u|] s1 H1; [apply Hrest, H1 | exact H1].
  - apply wlp_ret. apply Hrest. eapply rtcBySave_trans; [exact H|].
    apply rtcBySave_quiet; [|reflexivity]. apply logged_io.
    repeat constructor.
Qed.

End RtcBySave.

Ltac wlp_prim :=
  first [ apply wlp_millis | apply wlp_rtc_now | apply wlp_get
        | apply wlp_modify | apply wlp_digitalRead | apply wlp_ret ].

(** The save action of either sketch writes the RTC. *)
Ltac save_action :=
  let s0 := fresh "s0" in
  let s := fresh "s" in
  let Hp := fresh "Hp" in
  intros s0 s Hp; unfold rtc_adjust;
  repeat (apply wlp_bind; wlp_prim); apply wlp_modify;
  apply (rtcBySave_step (set_currentMode NORMAL_MODE));
  [ intros ?; exists []; simpl; rewrite app_nil_r;
    split; [reflexivity | constructor]
  | intros ?; reflexivity | ];
  apply savePending_adjust;
  repeat match goal with
         | |- savePending _ (io 1 [] _) =>
             apply (savePending_step (io 1 []));
             [ intros ?; exists []; reflexivity | ]
         | |- savePending _ (set_lastButtonPressTime _ _) =>
             apply (savePending_step (set_lastButtonPressTime _));
             [ intros ?; exists []; simpl; now rewrite app_nil_r | ]
         end;
  exact Hp.

Ltac preserves_rtc :=
  repeat first
    [ apply preserves_rtcBySave_moveMinuteStep
    | apply preserves_rtcBySave_moveHourToNext
    | apply preserves_rtcBySave_syncClockToRTC
    | apply preserves_rtcBySave_millis
    | apply preserves_rtcBySave_rtc_now
    | apply preserves_rtcBySave_digitalRead; discriminate
    | apply preserves_rtcBySave_save_if; [save_action|]
    | apply preserves_rtcBySave_save_when; [save_action|]
    | apply preserves_when
    | apply preserves_delay
    | apply preserves_halt
    | apply preserves_get
    | apply preserves_ret
    | apply preserves_rtcBySave_silent; reflexivity
    | apply preserves_while
    | apply preserves_bind
    | match goal with
      | |- forall _, _ => intro
      | |- preserves _ (if ?c then _ else _) => destruct c
      | |- preserves _ (match ?m with NORMAL_MODE => _ | SETTING_MODE => _ end)
        => destruct m
      end ].

Lemma RtcExpander_handleButtons_rtcBySave env :
  preserves rtcBySave (RtcExpander.handleButtons env).
Proof. unfold RtcExpander.handleButtons. preserves_rtc. Qed.

Lemma RtcDirect_handleButtons_rtcBySave env :
  preserves rtcBySave (RtcDirect.handleButtons env).
Proof. unfold RtcDirect.handleButtons. preserves_rtc. Qed.

(** ** One path through the handler at a time *)

Ltac norm_tick :=
  cbn [tick io set_currentMode set_settingHour set_settingMinute
       set_lastButtonPressTime set_rtc set_currentMinuteOnClock
       set_currentHourOnClock lastButtonPressTime currentMode
       settingHour settingMinute rtc];
  repeat rewrite <- Nat.add_assoc; cbn [Nat.add].

(** Entry of the handler past the cooldown, in a known mode. *)
Ltac enter Hcool Hmode :=
  unfold rtc_adjust;
  apply wlp_bind, wlp_millis, wlp_bind, wlp_get; norm_tick;
  rewrite Hcool;
  apply wlp_bind, wlp_get; norm_tick; rewrite Hmode.

(** A button is read and the sample is known. *)
Ltac read_button Hb :=
  apply wlp_bind, wlp_digitalRead; norm_tick; rewrite Hb;
  cbn [Level_eqb when].

Ltac skip_block Hb := read_button Hb; apply wlp_bind, wlp_ret.

Ltac run_prims :=
  repeat match goal with
         | |- wlp (bind _ _) _ _ => apply wlp_bind; wlp_prim
         end;
  norm_tick.

Section Paths.

Variable env : Env.
Variable s : State.
Hypothesis Hcool : notInCooldown env s.

(** *** Setting mode, hour button *)

Lemma RtcExpander_hour_inc :
  currentMode s = SETTING_MODE ->
  sampled env s 1 PIN_BTN_HOUR_INC LOW ->
  wlp (RtcExpander.handleButtons env) s
    (fun r s' => incremented servoHour r s s').
Proof.
  intros Hmode Hh. unfold RtcExpander.handleButtons. enter Hcool Hmode.
  read_button Hh. run_prims.
  eapply wlp_conseq; [apply moveHourToNext_wlp|].
  intros r s1 (((Gm & Gsh & Gsm & Gl & Gr) & _) & Ho & Hc & _).
  specialize (Ho servoMinute ltac:(discriminate)).
  cbn in Gm, Gsh, Gsm, Gr, Ho, Hc.
  unfold incremented; cbn. destruct r; auto 10.
Qed.

Lemma RtcDirect_hour_inc :
  currentMode s = SETTING_MODE ->
  sampled env s 1 PIN_BTN_HOUR_INC LOW ->
  released env PIN_BTN_MINUTE_INC -> released env PIN_BTN_SAVE ->
  released env PIN_BTN_MODE_CANCEL ->
  wlp (RtcDirect.handleButtons env) s
    (fun r s' => incremented servoHour r s s').
Proof.
  intros Hmode Hh Rm Rs Rc. unfold RtcDirect.handleButtons.
  enter Hcool Hmode. read_button Hh. apply wlp_bind. run_prims.
  eapply wlp_conseq; [apply moveHourToNext_wlp|].
  intros r s1 (((Gm & Gsh & Gsm & Gl & Gr) & _) & Ho & Hc & _).
  specialize (Ho servoMinute ltac:(discriminate)).
  cbn in Gm, Gsh, Gsm, Gr, Ho, Hc.
  destruct r as [u|]; [|unfold incremented; cbn; auto 10].
  skip_block (Rm (tick s1)).
  skip_block (Rs (tick s1 + 1)%nat).
  read_button (Rc (tick s1 + 2)%nat). apply wlp_ret.
  unfold incremented; cbn; auto 10.
Qed.

(** *** Setting mode, minute button *)

Lemma RtcExpander_minute_inc :
  currentMode s = SETTING_MODE ->
  sampled env s 1 PIN_BTN_HOUR_INC HIGH ->
  sampled env s 2 PIN_BTN_MINUTE_INC LOW ->
  wlp (RtcExpander.handleButtons env) s
    (fun r s' => incremented servoMinute r s s').
Proof.
  intros Hmode Hh Hm. unfold RtcExpander.handleButtons. enter Hcool Hmode.
  read_button Hh. read_button Hm. run_prims.
  eapply wlp_conseq; [apply moveMinuteStep_wlp|].
  intros r s1 (((Gm & Gsh & Gsm & Gl & Gr) & _) & Ho & Hc & _).
  specialize (Ho servoHour ltac:(discriminate)).
  cbn in Gm, Gsh, Gsm, Gr, Ho, Hc.
  unfold incremented; cbn. destruct r; auto 10.
Qed.

Lemma RtcDirect_minute_inc :
  currentMode s = SETTING_MODE ->
  sampled env s 1 PIN_BTN_HOUR_INC HIGH ->
  sampled env s 2 PIN_BTN_MINUTE_INC LOW ->
  released env PIN_BTN_SAVE -> released env PIN_BTN_MODE_CANCEL ->
  wlp (RtcDirect.handleButtons env) s
    (fun r s' => incremented servoMinute r s s').
Proof.
  intros Hmode Hh Hm Rs Rc. unfold RtcDirect.handleButtons.
  enter Hcool Hmode. skip_block Hh. read_button Hm. apply wlp_bind.
  run_prims.
  eapply wlp_conseq; [apply moveMinuteStep_wlp|].
  intros r s1 (((Gm & Gsh & Gsm & Gl & Gr) & _) & Ho & Hc & _).
  specialize (Ho servoHour ltac:(discriminate)).
  cbn in Gm, Gsh, Gsm, Gr, Ho, Hc.
  destruct r as [u|]; [|unfold incremented; cbn; auto 10].
  skip_block (Rs (tick s1)).
  read_button (Rc (tick s1 + 1)%nat). apply wlp_ret.
  unfold incremented; cbn; auto 10.
Qed.

End Paths.

(** C6.  In both RTC sketches and from any state, a call of the button
    handler writes the RTC exactly if it has read the save button pressed,
    and otherwise leaves the RTC's time as it was: so neither the hour and
    minute increments nor the cancel transition write it.  In setting mode,
    when only the hour (resp. minute) button is pressed, the handler changes
    [settingHour] and [currentHourOnClock] (resp. the minute pair), each
    one up modulo its range, and leaves the RTC, the mode and the other
    pair alone (it also records the press time, see C7). *)
Theorem C6_rtc_written_only_by_save env s :
  wlp (RtcExpander.handleButtons env) s (fun _ s' => rtcBySave s s') /\
  wlp (RtcDirect.handleButtons env) s (fun _ s' => rtcBySave s s') /\
  (currentMode s = SETTING_MODE -> notInCooldown env s ->
   sampled env s 1 PIN_BTN_HOUR_INC LOW ->
   wlp (RtcExpander.handleButtons env) s
     (fun r s' => incremented servoHour r s s')) /\
  (currentMode s = SETTING_MODE -> notInCooldown env s ->
   sampled env s 1 PIN_BTN_HOUR_INC HIGH ->
   sampled env s 2 PIN_BTN_MINUTE_INC LOW ->
   wlp (RtcExpander.handleButtons env) s
     (fun r s' => incremented servoMinute r s s')) /\
  (currentMode s = SETTING_MODE -> notInCooldown env s ->
   sampled env s 1 PIN_BTN_HOUR_INC LOW ->
   released env PIN_BTN_MINUTE_INC -> released env PIN_BTN_SAVE ->
   released env PIN_BTN_MODE_CANCEL ->
   wlp (RtcDirect.handleButtons env) s
     (fun r s' => incremented servoHour r s s')) /\
  (currentMode s = SETTING_MODE -> notInCooldown env s ->
   sampled env s 1 PIN_BTN_HOUR_INC HIGH ->
   sampled env s 2 PIN_BTN_MINUTE_INC LOW ->
   released env PIN_BTN_SAVE -> released env PIN_BTN_MODE_CANCEL ->
   wlp (RtcDirect.handleButtons env) s
     (fun r s' => incremented servoMinute r s s')).
Proof.
  split; [|split; [|split; [|split; [|split]]]].
  - apply preserves_wlp;
      [apply rtcBySave_refl | apply RtcExpander_handleButtons_rtcBySave].
  - apply preserves_wlp;
      [apply rtcBySave_refl | apply RtcDirect_handleButtons_rtcBySave].
  - intros Hm Hc. apply RtcExpander_hour_inc; assumption.
  - intros Hm Hc. apply RtcExpander_minute_inc; assumption.
  - intros Hm Hc. apply RtcDirect_hour_inc; assumption.
  - intros Hm Hc. apply RtcDirect_minute_inc; assumption.
Qed.

(** * A front panel for the test bench

    Buttons in [held] are kept pressed, the others released; the limit
    switches alternate as on [benchEnv]; [millis()] is 1000 at the first
    sample and advances one millisecond per sample. *)
Lemma panelEnv_toggles held p : isButton p = false -> toggles (panelEnv held) p.
Proof.
  intros Hp t. split.
  - exists (S (2 * t)). split; [lia|]. cbn [pin_at panelEnv]. rewrite Hp.
    rewrite Nat.even_succ, Nat.odd_mul. reflexivity.
  - exists (2 * t)%nat. split; [lia|]. cbn [pin_at panelEnv]. rewrite Hp.
    rewrite Nat.even_mul. reflexivity.
Qed.

(** Only the hour button held, first sketch. *)
Lemma C6_witness :
  wlp (RtcExpander.handleButtons (panelEnv (Pin_eqb PIN_BTN_HOUR_INC)))
    settingState
    (fun r s' => incremented servoHour r settingState s').
Proof.
  apply (C6_rtc_written_only_by_save
           (panelEnv (Pin_eqb PIN_BTN_HOUR_INC)) settingState);
    reflexivity.
Defined.

(** ** Transitions of the mode state machine *)

Ltac in_log := rewrite ?in_app_iff; simpl; tauto.

Ltac ret_prim :=
  first [ apply returns_millis | apply returns_rtc_now | apply returns_get
        | apply returns_modify | apply returns_digitalRead
        | apply returns_ret ].

Ltac ret_enter Hcool Hmode :=
  unfold rtc_adjust;
  apply returns_bind, returns_millis, returns_bind, returns_get; norm_tick;
  rewrite Hcool;
  apply returns_bind, returns_get; norm_tick; rewrite Hmode.

Ltac ret_read_button Hb :=
  apply returns_bind, returns_digitalRead; norm_tick; rewrite Hb;
  cbn [Level_eqb when].

Section Transitions.

Variable env : Env.
Variable s : State.
Hypothesis Hcool : notInCooldown env s.

Lemma RtcExpander_mode_button :
  currentMode s = NORMAL_MODE ->
  sampled env s 1 PIN_BTN_MODE_CANCEL LOW ->
  wlp (RtcExpander.handleButtons env) s (fun r s' => enteredSetting env r s s').
Proof.
  intros Hmode Hb. unfold RtcExpander.handleButtons. enter Hcool Hmode.
  read_button Hb. run_prims. apply wlp_modify.
  unfold enteredSetting; cbn; auto 10.
Qed.

Lemma RtcDirect_mode_button :
  currentMode s = NORMAL_MODE ->
  sampled env s 1 PIN_BTN_MODE_CANCEL LOW ->
  wlp (RtcDirect.handleButtons env) s (fun r s' => enteredSetting env r s s').
Proof.
  intros Hmode Hb. unfold RtcDirect.handleButtons. enter Hcool Hmode.
  read_button Hb. run_prims. apply wlp_modify.
  unfold enteredSetting; cbn; auto 10.
Qed.

Lemma RtcExpander_save_button :
  currentMode s = SETTING_MODE ->
  sampled env s 1 PIN_BTN_HOUR_INC HIGH ->
  sampled env s 2 PIN_BTN_MINUTE_INC HIGH ->
  sampled env s 3 PIN_BTN_SAVE LOW ->
  wlp (RtcExpander.handleButtons env) s (fun r s' =>
    r = Some tt /\ currentMode s' = NORMAL_MODE /\
    (let now := rtc_time env (tick s + 5) (rtc s) in
     rtc s' = mkDateTime (year now) (month now) (day now)
                (settingHour s) (settingMinute s) 0) /\
    In (EvRtcAdjust (rtc s')) (trace s') /\
    currentHourOnClock s' = currentHourOnClock s /\
    currentMinuteOnClock s' = currentMinuteOnClock s).
Proof.
  intros Hmode Hh Hm Hs. unfold RtcExpander.handleButtons.
  enter Hcool Hmode. read_button Hh. read_button Hm. read_button Hs.
  run_prims. apply wlp_modify. cbn.
  repeat split; try reflexivity. in_log.
Qed.

Lemma RtcDirect_save_button :
  currentMode s = SETTING_MODE ->
  sampled env s 1 PIN_BTN_HOUR_INC HIGH ->
  sampled env s 2 PIN_BTN_MINUTE_INC HIGH ->
  sampled env s 3 PIN_BTN_SAVE LOW ->
  wlp (RtcDirect.handleButtons env) s (fun r s' =>
    currentMode s' = NORMAL_MODE /\
    rtc s' = mkDateTime 2025 6 23 (settingHour s) (settingMinute s) 0 /\
    In (EvRtcAdjust (rtc s')) (trace s')).
Proof.
  intros Hmode Hh Hm Hs. unfold RtcDirect.handleButtons.
  enter Hcool Hmode. skip_block Hh. skip_block Hm. read_button Hs.
  apply wlp_bind. run_prims. apply wlp_modify. norm_tick.
  apply wlp_bind, wlp_digitalRead. norm_tick.
  destruct (pin_at env (tick s + 5) PIN_BTN_MODE_CANCEL); cbn [Level_eqb when].
  - run_prims.
    eapply wlp_conseq; [apply syncClockToRTC_wlp|].
    intros r s1 (((Gm & _ & _ & _ & Gr) & _ & (evs & E & _) & _) & _).
    cbn in Gm, Gr, E. rewrite Gm, Gr, E.
    repeat split; try reflexivity. in_log.
  - apply wlp_ret. cbn. repeat split; try reflexivity. in_log.
Qed.

Lemma RtcExpander_cancel_button :
  currentMode s = SETTING_MODE ->
  sampled env s 1 PIN_BTN_HOUR_INC HIGH ->
  sampled env s 2 PIN_BTN_MINUTE_INC HIGH ->
  sampled env s 3 PIN_BTN_SAVE HIGH ->
  sampled env s 4 PIN_BTN_MODE_CANCEL LOW ->
  wlp (RtcExpander.handleButtons env) s (fun r s' => cancelled env r s s').
Proof.
  intros Hmode Hh Hm Hs Hc. unfold RtcExpander.handleButtons.
  enter Hcool Hmode. read_button Hh. read_button Hm. read_button Hs.
  read_button Hc. run_prims.
  eapply wlp_conseq; [apply syncClockToRTC_wlp|].
  intros r s1 (((Gm & Gsh & Gsm & _ & Gr) & _) & Hsync).
  cbn in Gm, Gsh, Gsm, Gr, Hsync.
  repeat rewrite <- Nat.add_assoc in Hsync. cbn [Nat.add] in Hsync.
  unfold cancelled. auto 10.
Qed.

Lemma RtcDirect_cancel_button :
  currentMode s = SETTING_MODE ->
  sampled env s 1 PIN_BTN_HOUR_INC HIGH ->
  sampled env s 2 PIN_BTN_MINUTE_INC HIGH ->
  sampled env s 3 PIN_BTN_SAVE HIGH ->
  sampled env s 4 PIN_BTN_MODE_CANCEL LOW ->
  wlp (RtcDirect.handleButtons env) s (fun r s' => cancelled env r s s').
Proof.
  intros Hmode Hh Hm Hs Hc. unfold RtcDirect.handleButtons.
  enter Hcool Hmode. skip_block Hh. skip_block Hm. skip_block Hs.
  read_button Hc. run_prims.
  eapply wlp_conseq; [apply syncClockToRTC_wlp|].
  intros r s1 (((Gm & Gsh & Gsm & _ & Gr) & _) & Hsync).
  cbn in Gm, Gsh, Gsm, Gr, Hsync.
  repeat rewrite <- Nat.add_assoc in Hsync. cbn [Nat.add] in Hsync.
  unfold cancelled. auto 10.
Qed.

(** With live step switches, counters in range and a valid RTC time, the
    cancel transition returns. *)
Hypothesis TH : toggles env PIN_STEP_SWITCH_HOUR.
Hypothesis TM : toggles env PIN_STEP_SWITCH_MINUTE.
Hypothesis RH : inRange servoHour (currentHourOnClock s).
Hypothesis RM : inRange servoMinute (currentMinuteOnClock s).
Hypothesis Vh : 0 <= hour (rtc_time env (tick s + 6) (rtc s)) < 24.
Hypothesis Vm : 0 <= minute (rtc_time env (tick s + 6) (rtc s)) < 60.

Lemma RtcExpander_cancel_returns :
  currentMode s = SETTING_MODE ->
  sampled env s 1 PIN_BTN_HOUR_INC HIGH ->
  sampled env s 2 PIN_BTN_MINUTE_INC HIGH ->
  sampled env s 3 PIN_BTN_SAVE HIGH ->
  sampled env s 4 PIN_BTN_MODE_CANCEL LOW ->
  returns (RtcExpander.handleButtons env) s (fun _ _ => True).
Proof.
  intros Hmode Hh Hm Hs Hc. unfold RtcExpander.handleButtons.
  ret_enter Hcool Hmode. ret_read_button Hh. ret_read_button Hm.
  ret_read_button Hs. ret_read_button Hc.
  repeat match goal with
         | |- returns (bind _ _) _ _ => apply returns_bind; ret_prim
         end.
  eapply returns_conseq;
    [apply syncClockToRTC_total; norm_tick; assumption | intros; exact I].
Qed.

Lemma RtcDirect_cancel_returns :
  currentMode s = SETTING_MODE ->
  sampled env s 1 PIN_BTN_HOUR_INC HIGH ->
  sampled env s 2 PIN_BTN_MINUTE_INC HIGH ->
  sampled env s 3 PIN_BTN_SAVE HIGH ->
  sampled env s 4 PIN_BTN_MODE_CANCEL LOW ->
  returns (RtcDirect.handleButtons env) s (fun _ _ => True).
Proof.
  intros Hmode Hh Hm Hs Hc. unfold RtcDirect.handleButtons.
  ret_enter Hcool Hmode.
  ret_read_button Hh. apply returns_bind, returns_ret.
  ret_read_button Hm. apply returns_bind, returns_ret.
  ret_read_button Hs. apply returns_bind, returns_ret.
  ret_read_button Hc.
  repeat match goal with
         | |- returns (bind _ _) _ _ => apply returns_bind; ret_prim
         end.
  eapply returns_conseq;
    [apply syncClockToRTC_total; norm_tick; assumption | intros; exact I].
Qed.

End Transitions.

(** C8.  Past the cooldown, in both RTC sketches: in normal mode, when the
    mode button reads pressed the handler switches to setting mode and
    loads the RTC's hour and minute into [settingHour] and [settingMinute];
    in setting mode, when the save button reads pressed (hour and minute
    buttons released) it writes [settingHour]:[settingMinute]:00 to the RTC
    and ends in normal mode; when the cancel button reads pressed (the
    other three released) it goes to normal mode without touching the RTC
    or the scratch variables and re-syncs the display to the RTC's time,
    which it reaches when the step switches are live. *)
Theorem C8_mode_transitions env s :
  notInCooldown env s ->
  (currentMode s = NORMAL_MODE ->
   sampled env s 1 PIN_BTN_MODE_CANCEL LOW ->
   wlp (RtcExpander.handleButtons env) s
     (fun r s' => enteredSetting env r s s') /\
   wlp (RtcDirect.handleButtons env) s
     (fun r s' => enteredSetting env r s s')) /\
  (currentMode s = SETTING_MODE ->
   sampled env s 1 PIN_BTN_HOUR_INC HIGH ->
   sampled env s 2 PIN_BTN_MINUTE_INC HIGH ->
   sampled env s 3 PIN_BTN_SAVE LOW ->
   wlp (RtcExpander.handleButtons env) s (fun r s' =>
     r = Some tt /\ currentMode s' = NORMAL_MODE /\
     (let now := rtc_time env (tick s + 5) (rtc s) in
      rtc s' = mkDateTime (year now) (month now) (day now)
                 (settingHour s) (settingMinute s) 0) /\
     In (EvRtcAdjust (rtc s')) (trace s') /\
     currentHourOnClock s' = currentHourOnClock s /\
     currentMinuteOnClock s' = currentMinuteOnClock s) /\
   wlp (RtcDirect.handleButtons env) s (fun r s' =>
     currentMode s' = NORMAL_MODE /\
     rtc s' = mkDateTime 2025 6 23 (settingHour s) (settingMinute s) 0 /\
     In (EvRtcAdjust (rtc s')) (trace s'))) /\
  (currentMode s = SETTING_MODE ->
   sampled env s 1 PIN_BTN_HOUR_INC HIGH ->
   sampled env s 2 PIN_BTN_MINUTE_INC HIGH ->
   sampled env s 3 PIN_BTN_SAVE HIGH ->
   sampled env s 4 PIN_BTN_MODE_CANCEL LOW ->
   wlp (RtcExpander.handleButtons env) s (fun r s' => cancelled env r s s') /\
   wlp (RtcDirect.handleButtons env) s (fun r s' => cancelled env r s s') /\
   (toggles env PIN_STEP_SWITCH_HOUR -> toggles env PIN_STEP_SWITCH_MINUTE ->
    inRange servoHour (currentHourOnClock s) ->
    inRange servoMinute (currentMinuteOnClock s) ->
    0 <= hour (rtc_time env (tick s + 6) (rtc s)) < 24 ->
    0 <= minute (rtc_time env (tick s + 6) (rtc s)) < 60 ->
    returns (RtcExpander.handleButtons env) s
      (fun _ s' => cancelled env (Some tt) s s') /\
    returns (RtcDirect.handleButtons env) s
      (fun _ s' => cancelled env (Some tt) s s'))).
Proof.
  intros Hcool. split; [|split].
  - intros Hmode Hb. split.
    + apply RtcExpander_mode_button; assumption.
    + apply RtcDirect_mode_button; assumption.
  - intros Hmode Hh Hm Hs. split.
    + apply RtcExpander_save_button; assumption.
    + apply RtcDirect_save_button; assumption.
  - intros Hmode Hh Hm Hs Hc.
    pose proof (RtcExpander_cancel_button env s Hcool Hmode Hh Hm Hs Hc) as W1.
    pose proof (RtcDirect_cancel_button env s Hcool Hmode Hh Hm Hs Hc) as W2.
    split; [exact W1|]. split; [exact W2|].
    intros TH TM RH RM Vh Vm. split.
    + eapply returns_conseq;
        [apply returns_wlp;
         [apply RtcExpander_cancel_returns; assumption | exact W1]|].
      intros [] s' H. exact H.
    + eapply returns_conseq;
        [apply returns_wlp;
         [apply RtcDirect_cancel_returns; assumption | exact W2]|].
      intros [] s' H. exact H.
Qed.

(** Save held on the panel, in setting mode with scratch time 00:01. *)
Lemma C8_witness :
  wlp (RtcExpander.handleButtons (panelEnv (Pin_eqb PIN_BTN_SAVE)))
    settingState (fun r s' =>
      r = Some tt /\ currentMode s' = NORMAL_MODE /\
      rtc s' = mkDateTime 2025 6 23 0 1 0 /\
      In (EvRtcAdjust (rtc s')) (trace s') /\
      currentHourOnClock s' = 0 /\ currentMinuteOnClock s' = 0) /\
  returns (RtcDirect.handleButtons (panelEnv (Pin_eqb PIN_BTN_MODE_CANCEL)))
    settingState
    (fun _ s' =>
       cancelled (panelEnv (Pin_eqb PIN_BTN_MODE_CANCEL)) (Some tt)
         settingState s').
Proof.
  split.
  - apply (C8_mode_transitions (panelEnv (Pin_eqb PIN_BTN_SAVE))
             settingState); reflexivity.
  - apply (C8_mode_transitions (panelEnv (Pin_eqb PIN_BTN_MODE_CANCEL))
             settingState); try reflexivity;
      try (apply panelEnv_toggles; reflexivity);
      unfold inRange; simpl; lia.
Defined.

(** * Debounce: one button action per call *)

Lemma buttonPresses_app e1 e2 :
  buttonPresses (e1 ++ e2) = (buttonPresses e1 + buttonPresses e2)%nat.
Proof. unfold buttonPresses. now rewrite filter_app, length_app. Qed.

Lemma noPress_buttonPresses evs :
  Forall noPress evs -> buttonPresses evs = 0%nat.
Proof.
  unfold buttonPresses. induction 1 as [|e evs He _ IH]; [reflexivity|].
  simpl. rewrite He. exact IH.
Qed.

Lemma pressesAtMost_quiet k s0 s s' :
  pressesAtMost k s0 s -> logged noPress s s' -> pressesAtMost k s0 s'.
Proof.
  intros (e1 & E1 & B1) (e2 & E2 & F2). exists (e1 ++ e2).
  split; [now rewrite E2, E1, app_assoc|].
  rewrite buttonPresses_app, (noPress_buttonPresses e2 F2). lia.
Qed.

Lemma dialEvent_noPress cfg e : dialEvent cfg e -> noPress e.
Proof.
  destruct e as [| p l | |]; try reflexivity.
  simpl. intros [-> | ->]; destruct l; reflexivity.
Qed.

Section OneAction.

Variable env : Env.
Variable cfg : Config.
Variable k : nat.

Lemma preserves_presses_millis : preserves (pressesAtMost k) (millis env).
Proof.
  intros s0 s H fuel. simpl. eapply pressesAtMost_quiet; [exact H|].
  apply logged_io. constructor.
Qed.

Lemma preserves_presses_rtc_now : preserves (pressesAtMost k) (rtc_now env).
Proof.
  intros s0 s H fuel. simpl. eapply pressesAtMost_quiet; [exact H|].
  apply logged_io. constructor.
Qed.

Lemma preserves_presses_modify (g : State -> State) :
  (forall s, logged noPress s (g s)) -> preserves (pressesAtMost k) (modify g).
Proof.
  intros Hg. apply preserves_modify. intros s0 s H.
  eapply pressesAtMost_quiet; [exact H | apply Hg].
Qed.

Lemma preserves_presses_silent (g : State -> State) :
  (forall s, trace (g s) = trace s) -> preserves (pressesAtMost k) (modify g).
Proof.
  intros Hg. apply preserves_presses_modify. intros s. exists [].
  rewrite Hg, app_nil_r. split; [reflexivity | constructor].
Qed.

Lemma preserves_presses_rtc_adjust dt :
  preserves (pressesAtMost k) (rtc_adjust dt).
Proof.
  apply preserves_presses_modify. intros s.
  exists [EvRtcAdjust dt]. split; [reflexivity | repeat constructor].
Qed.

Lemma preserves_presses_advanced (f : Prog unit) :
  (forall s, wlp f s (fun _ s' => advanced cfg s s')) ->
  preserves (pressesAtMost k) f.
Proof.
  intros Hf s0 s H. eapply wlp_conseq; [apply Hf|].
  intros r s' (_ & _ & L & _). eapply pressesAtMost_quiet; [exact H|].
  eapply logged_impl; [apply dialEvent_noPress | exact L].
Qed.

Lemma preserves_presses_moveMinuteStep :
  preserves (pressesAtMost k) (moveMinuteStep env cfg).
Proof.
  apply preserves_presses_advanced. intros s.
  eapply wlp_conseq; [apply moveMinuteStep_wlp|]. intros r s' H. apply H.
Qed.

Lemma preserves_presses_moveHourToNext :
  preserves (pressesAtMost k) (moveHourToNext env cfg).
Proof.
  apply preserves_presses_advanced. intros s.
  eapply wlp_conseq; [apply moveHourToNext_wlp|]. intros r s' H. apply H.
Qed.

Lemma preserves_presses_syncClockToRTC :
  preserves (pressesAtMost k) (syncClockToRTC env cfg).
Proof.
  apply preserves_presses_advanced. intros s.
  eapply wlp_conseq; [apply syncClockToRTC_wlp|]. intros r s' H. apply H.
Qed.

End OneAction.

(** Steps of a button's action: none of them reads a button. *)
Ltac preserves_presses :=
  repeat first
    [ apply preserves_presses_moveMinuteStep
    | apply preserves_presses_moveHourToNext
    | apply preserves_presses_syncClockToRTC
    | apply preserves_presses_millis
    | apply preserves_presses_rtc_now
    | apply preserves_presses_rtc_adjust
    | apply preserves_get
    | apply preserves_ret
    | apply preserves_presses_silent; reflexivity
    | apply preserves_bind
    | match goal with |- forall _, _ => intro end ].

Lemma pressesAtMost_le j k s0 s :
  (j <= k)%nat -> pressesAtMost j s0 s -> pressesAtMost k s0 s.
Proof. intros Hjk (evs & E & B). exists evs. split; [exact E | lia]. Qed.

Lemma oneAction_ret {A} (a : A) : oneAction (ret a).
Proof.
  intros s0 s H fuel. simpl. apply (pressesAtMost_le 0 1); [lia | exact H].
Qed.

Lemma oneAction_bind {A B} (m : Prog A) (k : A -> Prog B) :
  preserves (pressesAtMost 0) m -> (forall a, oneAction (k a)) ->
  oneAction (bind m k).
Proof.
  intros Hm Hk s0 s H. apply wlp_bind.
  eapply wlp_conseq; [apply (Hm s0 s H)|].
  intros [a|] s1 H1; [apply Hk, H1|].
  apply (pressesAtMost_le 0 1); [lia | exact H1].
Qed.

Lemma pressesAtMost_read k s0 s p l :
  pressesAtMost k s0 s ->
  pressesAtMost (if isPress (EvDigitalRead p l) then S k else k) s0
    (io 1 [EvDigitalRead p l] s).
Proof.
  intros (evs & E & B). exists (evs ++ [EvDigitalRead p l]).
  split; [simpl; now rewrite E, app_assoc|].
  rewrite buttonPresses_app. unfold buttonPresses at 2.
  cbn [filter]. destruct (isPress (EvDigitalRead p l)); simpl; lia.
Qed.

(** A button is read; its action runs if it reads pressed, the rest of the
    chain otherwise. *)
Lemma oneAction_if env p (act rest : Prog unit) :
  preserves (pressesAtMost 1) act -> oneAction rest ->
  oneAction (b <- digitalRead env p ;;
             if Level_eqb b LOW then act else rest).
Proof.
  intros Hact Hrest s0 s H. apply wlp_bind, wlp_digitalRead.
  pose proof (pressesAtMost_read 0 s0 s p (pin_at env (tick s) p) H) as H1.
  destruct (pin_at env (tick s) p); simpl Level_eqb; cbv iota.
  - apply Hact. eapply pressesAtMost_le; [|exact H1].
    destruct (isPress _); lia.
  - apply Hrest. exact H1.
Qed.

Lemma oneAction_when env p (act : Prog unit) :
  preserves (pressesAtMost 1) act ->
  oneAction (b <- digitalRead env p ;; when (Level_eqb b LOW) act).
Proof.
  intros Hact s0 s H. apply wlp_bind, wlp_digitalRead.
  pose proof (pressesAtMost_read 0 s0 s p (pin_at env (tick s) p) H) as H1.
  destruct (pin_at env (tick s) p); simpl Level_eqb; cbn [when].
  - apply Hact. eapply pressesAtMost_le; [|exact H1].
    destruct (isPress _); lia.
  - apply wlp_ret. apply (pressesAtMost_le 0 1); [lia | exact H1].
Qed.

(** The handler of the first sketch performs at most one button action per
    call. *)
Lemma RtcExpander_one_action env s :
  wlp (RtcExpander.handleButtons env) s (fun _ s' =>
    exists evs, trace s' = trace s ++ evs /\ (buttonPresses evs <= 1)%nat).
Proof.
  assert (H : oneAction (RtcExpander.handleButtons env)).
  { unfold RtcExpander.handleButtons.
    apply oneAction_bind; [apply preserves_presses_millis | intros t].
    apply oneAction_bind; [apply preserves_get | intros last].
    destruct (inCooldown t last); [apply oneAction_ret|].
    apply oneAction_bind; [apply preserves_get | intros [|]].
    - apply oneAction_when. preserves_presses.
    - apply oneAction_if; [preserves_presses|].
      apply oneAction_if; [preserves_presses|].
      apply oneAction_if; [preserves_presses|].
      apply oneAction_when. preserves_presses. }
  apply H. exists []. split; [now rewrite app_nil_r | cbv; lia].
Qed.

(** During the cooldown the handler of either sketch returns at once:
    nothing is read but the clock. *)
Lemma handleButtons_cooldown env s fuel :
  inCooldown (millis_at env (tick s)) (lastButtonPressTime s) = true ->
  RtcExpander.handleButtons env fuel s = (Some tt, io 1 [] s) /\
  RtcDirect.handleButtons env fuel s = (Some tt, io 1 [] s).
Proof.
  intros H.
  unfold RtcExpander.handleButtons, RtcDirect.handleButtons, bind, millis, get.
  cbn [lastButtonPressTime io]. rewrite H. split; reflexivity.
Qed.

(** C7, where the second RTC sketch departs from it.  In setting mode, past
    the cooldown, with save and cancel both held: one call of the second
    sketch's handler performs the save action (press time 1004 ms, RTC set
    to 00:01) and then the cancel action (press time 1006 ms, display moved
    to 00:01), two button actions 2 ms apart, inside the 250 ms cooldown
    that the first action started.  On the same input the first sketch's
    handler performs the save action only. *)
Theorem C7_second_sketch_acts_twice_in_one_call :
  let env := panelEnv heldSaveCancel in
  let r2 := RtcDirect.handleButtons env 100%nat settingState in
  let r1 := RtcExpander.handleButtons env 100%nat settingState in
  notInCooldown env settingState /\
  fst r2 = Some tt /\
  buttonPresses (trace (snd r2)) = 2%nat /\
  savePressed (trace (snd r2)) /\
  In (EvDigitalRead PIN_BTN_MODE_CANCEL LOW) (trace (snd r2)) /\
  rtc (snd r2) = mkDateTime 2025 6 23 0 1 0 /\
  currentMinuteOnClock (snd r2) = 1 /\
  millis_at env 4 = 1004 /\
  lastButtonPressTime (snd r2) = 1006 /\
  inCooldown 1006 1004 = true /\
  fst r1 = Some tt /\
  buttonPresses (trace (snd r1)) = 1%nat /\
  lastButtonPressTime (snd r1) = 1004 /\
  currentMinuteOnClock (snd r1) = 0.
Proof.
  vm_compute. repeat split; try reflexivity; tauto.
Qed.

(** * Further properties of the sketches *)

(** A routine whose every run returns the same value in the same state. *)
Lemma wlp_run {A} (f : Prog A) s (a : A) s1 :
  wlp f s (fun r s' => r = Some a /\ s' = s1) ->
  forall fuel, f fuel s = (Some a, s1).
Proof.
  intros H fuel. specialize (H fuel).
  destruct (f fuel s) as [r s']. simpl in H. destruct H as [-> ->].
  reflexivity.
Qed.

(** ** Start-up without an RTC *)

(** X1.  When [rtc.begin()] fails, [setup] of the RTC sketches never
    returns: the first sketch stops before it has commanded anything, the
    second after the two stop pulses.  Neither homes a dial nor writes the
    RTC. *)
Theorem X1_setup_halts_without_rtc env s fuel :
  rtc_found env = false ->
  RtcExpander.setup env fuel s = (None, s) /\
  RtcDirect.setup env fuel s =
    (None, io 0 [EvServoWrite servoMinute 90; EvServoWrite servoHour 90] s).
Proof.
  intros H. unfold RtcExpander.setup, RtcDirect.setup, bind, servoWrite,
    modify. rewrite H. simpl. split; [reflexivity|]. state_eq.
Qed.

Lemma X1_witness :
  let s := bootState (mkDateTime 2025 6 23 12 0 0) in
  RtcExpander.setup noRtcEnv 50%nat s = (None, s) /\
  RtcDirect.setup noRtcEnv 50%nat s =
    (None, io 0 [EvServoWrite servoMinute 90; EvServoWrite servoHour 90] s).
Proof.
  intros s. apply (X1_setup_halts_without_rtc noRtcEnv s 50%nat). reflexivity.
Defined.

(** ** The cooldown and the wrap-around of [millis()] *)

Lemma ulong_sub_wrap last d :
  0 <= d < 2 ^ 32 -> ulong_sub ((last + d) mod 2 ^ 32) last = d.
Proof.
  intros H. unfold ulong_sub. rewrite Zminus_mod_idemp_l.
  replace (last + d - last) with d by lia. apply Z.mod_small, H.
Qed.

(** X2.  Let [d] be the time elapsed since the last button action, in
    milliseconds below 2^32, [millis()] having possibly wrapped around
    since.  If [d < 250] the handler of either sketch returns at once: it
    reads no button, whatever is pressed, and changes no variable.  If
    [d >= 250] it is past the cooldown. *)
Theorem X2_cooldown_across_wraparound env s d fuel :
  0 <= d < 2 ^ 32 ->
  millis_at env (tick s) = (lastButtonPressTime s + d) mod 2 ^ 32 ->
  (d < 250 ->
   RtcExpander.handleButtons env fuel s = (Some tt, io 1 [] s) /\
   RtcDirect.handleButtons env fuel s = (Some tt, io 1 [] s)) /\
  (250 <= d -> notInCooldown env s).
Proof.
  intros Hd Hm.
  assert (E : inCooldown (millis_at env (tick s)) (lastButtonPressTime s)
              = (d <? 250)).
  { unfold inCooldown, debounceDelay. rewrite Hm, ulong_sub_wrap by exact Hd.
    reflexivity. }
  split; intros H.
  - apply handleButtons_cooldown. rewrite E. apply Z.ltb_lt, H.
  - unfold notInCooldown. rewrite E. apply Z.ltb_ge, H.
Qed.

(** The last action was 100 ms before the wrap-around and [millis()] reads
    49: 149 ms have elapsed. *)
Lemma X2_witness :
  RtcExpander.handleButtons wrappedClockEnv 10%nat pressedBeforeWrap
  = (Some tt, io 1 [] pressedBeforeWrap) /\
  RtcDirect.handleButtons wrappedClockEnv 10%nat pressedBeforeWrap
  = (Some tt, io 1 [] pressedBeforeWrap).
Proof.
  apply (X2_cooldown_across_wraparound wrappedClockEnv pressedBeforeWrap
           149 10%nat); [lia | reflexivity | lia].
Defined.

(** ** Calls of the handler that find nothing pressed *)

(** X3.  Past the cooldown.  In normal mode the handler reads the mode
    button only: when it is released the call takes two samples, logs that
    one read and changes nothing, whatever the hour, minute and save
    buttons do.  In setting mode with the four buttons released a whole pass
    of [loop] reads the four buttons and does nothing else: no servo
    command, no counter or scratch variable changed, no reconciliation
    with the RTC. *)
Theorem X3_nothing_pressed env s fuel :
  notInCooldown env s ->
  (currentMode s = NORMAL_MODE ->
   sampled env s 1 PIN_BTN_MODE_CANCEL HIGH ->
   RtcExpander.handleButtons env fuel s
   = (Some tt, io 2 [EvDigitalRead PIN_BTN_MODE_CANCEL HIGH] s) /\
   RtcDirect.handleButtons env fuel s
   = (Some tt, io 2 [EvDigitalRead PIN_BTN_MODE_CANCEL HIGH] s)) /\
  (currentMode s = SETTING_MODE ->
   sampled env s 1 PIN_BTN_HOUR_INC HIGH ->
   sampled env s 2 PIN_BTN_MINUTE_INC HIGH ->
   sampled env s 3 PIN_BTN_SAVE HIGH ->
   sampled env s 4 PIN_BTN_MODE_CANCEL HIGH ->
   RtcExpander.loop env fuel s
   = (Some tt, io 5 [EvDigitalRead PIN_BTN_HOUR_INC HIGH;
                     EvDigitalRead PIN_BTN_MINUTE_INC HIGH;
                     EvDigitalRead PIN_BTN_SAVE HIGH;
                     EvDigitalRead PIN_BTN_MODE_CANCEL HIGH] s) /\
   RtcDirect.loop env fuel s
   = (Some tt, io 5 [EvDigitalRead PIN_BTN_HOUR_INC HIGH;
                     EvDigitalRead PIN_BTN_MINUTE_INC HIGH;
                     EvDigitalRead PIN_BTN_SAVE HIGH;
                     EvDigitalRead PIN_BTN_MODE_CANCEL HIGH] s)).
Proof.
  intros Hcool. split.
  - intros Hmode Hb. split; apply wlp_run.
    + unfold RtcExpander.handleButtons. enter Hcool Hmode. read_button Hb.
      apply wlp_ret. split; [reflexivity|]. state_eq.
    + unfold RtcDirect.handleButtons. enter Hcool Hmode. read_button Hb.
      apply wlp_ret. split; [reflexivity|]. state_eq.
  - intros Hmode Hh Hm Hs Hc. split; apply wlp_run.
    + unfold RtcExpander.loop, RtcExpander.handleButtons. apply wlp_bind.
      enter Hcool Hmode. read_button Hh. read_button Hm. read_button Hs.
      read_button Hc. apply wlp_ret, wlp_bind, wlp_get. norm_tick.
      rewrite Hmode. apply wlp_ret. split; [reflexivity|]. state_eq.
    + unfold RtcDirect.loop, RtcDirect.handleButtons. apply wlp_bind.
      enter Hcool Hmode. skip_block Hh. skip_block Hm. skip_block Hs.
      read_button Hc. apply wlp_ret, wlp_bind, wlp_get. norm_tick.
      rewrite Hmode. apply wlp_ret. split; [reflexivity|]. state_eq.
Qed.

(** Setting mode on the panel with no button held. *)
Lemma X3_witness :
  RtcDirect.loop (panelEnv (fun _ => false)) 10%nat settingState
  = (Some tt, io 5 [EvDigitalRead PIN_BTN_HOUR_INC HIGH;
                    EvDigitalRead PIN_BTN_MINUTE_INC HIGH;
                    EvDigitalRead PIN_BTN_SAVE HIGH;
                    EvDigitalRead PIN_BTN_MODE_CANCEL HIGH] settingState).
Proof.
  apply (X3_nothing_pressed (panelEnv (fun _ => false)) settingState 10%nat);
    reflexivity.
Defined.

(** ** The last command of a servo *)

Lemma lastWrite_app sv a b :
  lastWrite sv (a ++ b)
  = match lastWrite sv b with Some v => Some v | None => lastWrite sv a end.
Proof.
  induction a as [|e a IH]; simpl.
  - destruct (lastWrite sv b); reflexivity.
  - rewrite IH. destruct (lastWrite sv b); reflexivity.
Qed.

Lemma lastWrite_reads sv p l n :
  lastWrite sv (repeat (EvDigitalRead p l) n) = None.
Proof. induction n as [|n IH]; simpl; [|rewrite IH]; reflexivity. Qed.

Lemma Servo_eqb_refl sv : Servo_eqb sv sv = true.
Proof. destruct sv; reflexivity. Qed.

Lemma lastWrite_running sv v p l n tr :
  lastWrite sv (tr ++ EvServoWrite sv v :: repeat (EvDigitalRead p l) n)
  = Some v.
Proof.
  rewrite lastWrite_app. simpl.
  rewrite lastWrite_reads, Servo_eqb_refl. reflexivity.
Qed.

(** ** A step switch that does not move *)

Section Stuck.

Variable env : Env.
Variable cfg : Config.

(** A press-release cycle on a switch that stays at level [l]: the servo is
    started and the switch is read at [l] for ever. *)
Lemma pressRelease_stuck sv p l fuel s :
  (forall t, (tick s <= t)%nat -> pin_at env t p = l) ->
  exists n,
    pressRelease env cfg sv p fuel s
    = (None, io n (EvServoWrite sv (SERVO_STOP_POSITION cfg + moveOffset cfg sv)
                   :: repeat (EvDigitalRead p l) n) s).
Proof.
  intros Hl. unfold pressRelease, bind, servoWrite, modify.
  set (s1 := io 0 [EvServoWrite sv (SERVO_STOP_POSITION cfg
                                     + moveOffset cfg sv)] s).
  assert (Hl1 : forall i, pin_at env (tick s1 + i) p = l)
    by (intros i; apply Hl; simpl; lia).
  destruct (poll_run env p HIGH 10 fuel s1) as (a & Ha & [E | [Hp E]]);
    rewrite E; subst s1.
  - assert (l = HIGH \/ a = 0%nat) as [-> | ->].
    { destruct a; [right; reflexivity | left].
      rewrite <- (Hl1 0%nat). apply Ha. lia. }
    + exists a. rewrite io_io. reflexivity.
    + exists 0%nat. rewrite io_io. reflexivity.
  - rewrite Hl1 in Hp. subst l. simpl other in *.
    assert (a = 0%nat) as ->.
    { destruct a; [reflexivity|]. specialize (Ha 0%nat ltac:(lia)).
      rewrite Hl1 in Ha. discriminate. }
    match goal with |- context [poll env p LOW 10 fuel ?s2] =>
      destruct (poll_run env p LOW 10 fuel s2) as (b & Hb & [E2 | [Hp2 E2]])
    end.
    + rewrite E2, !io_io. exists (S b). reflexivity.
    + simpl tick in Hp2.
      rewrite (Hl (tick s + 0 + 1 + b)%nat) in Hp2 by lia. discriminate.
Qed.

End Stuck.

(** X4.  If the step switch of a dial stays at one level, released (the
    dial is jammed or the switch broken) or pressed, the advance of that
    dial never returns: it has started the servo and then only read the
    switch, so the servo is left running and the counter is not changed. *)
Theorem X4_stuck_step_switch env cfg l s fuel :
  ((forall t, (tick s <= t)%nat -> pin_at env t PIN_STEP_SWITCH_MINUTE = l) ->
   exists n,
     moveMinuteStep env cfg fuel s
     = (None,
        io n (EvServoWrite servoMinute
                (SERVO_STOP_POSITION cfg + SERVO_MOVE_OFFSET_MINUTE cfg)
              :: repeat (EvDigitalRead PIN_STEP_SWITCH_MINUTE l) n) s) /\
     lastWrite servoMinute (trace (snd (moveMinuteStep env cfg fuel s)))
     = Some (SERVO_STOP_POSITION cfg + SERVO_MOVE_OFFSET_MINUTE cfg)) /\
  ((forall t, (tick s <= t)%nat -> pin_at env t PIN_STEP_SWITCH_HOUR = l) ->
   exists n,
     performHourSingleStep env cfg fuel s
     = (None,
        io n (EvServoWrite servoHour
                (SERVO_STOP_POSITION cfg + SERVO_MOVE_OFFSET_HOUR cfg)
              :: repeat (EvDigitalRead PIN_STEP_SWITCH_HOUR l) n) s) /\
     moveHourToNext env cfg fuel s = performHourSingleStep env cfg fuel s /\
     lastWrite servoHour (trace (snd (moveHourToNext env cfg fuel s)))
     = Some (SERVO_STOP_POSITION cfg + SERVO_MOVE_OFFSET_HOUR cfg)).
Proof.
  split; intros Hl.
  - destruct (pressRelease_stuck env cfg servoMinute PIN_STEP_SWITCH_MINUTE
                l fuel s Hl) as (n & E).
    exists n. rewrite moveMinuteStep_unfold, (bind_None _ _ _ _ _ E).
    split; [reflexivity|]. apply lastWrite_running.
  - destruct (pressRelease_stuck env cfg servoHour PIN_STEP_SWITCH_HOUR
                l fuel s Hl) as (n & E).
    change (pressRelease env cfg servoHour PIN_STEP_SWITCH_HOUR)
      with (performHourSingleStep env cfg) in E.
    exists n. unfold moveHourToNext. rewrite (bind_None _ _ _ _ _ E).
    rewrite E. repeat split. apply lastWrite_running.
Qed.

(** A jammed minute dial on the bench. *)
Lemma X4_witness :
  exists n,
    moveMinuteStep (stuckEnv HIGH) RtcExpander.cfg 20%nat
      (bootState (mkDateTime 2025 6 23 12 0 0))
    = (None,
       io n (EvServoWrite servoMinute 105
             :: repeat (EvDigitalRead PIN_STEP_SWITCH_MINUTE HIGH) n)
         (bootState (mkDateTime 2025 6 23 12 0 0))).
Proof.
  destruct (X4_stuck_step_switch (stuckEnv HIGH) RtcExpander.cfg HIGH
              (bootState (mkDateTime 2025 6 23 12 0 0)) 20%nat) as [H _].
  destruct H as (n & E & _); [reflexivity|]. exists n. exact E.
Defined.

(** ** Homing: the home switch never pressed, or pressed already *)

Section HomingEdges.

Variable env : Env.
Variable cfg : Config.

Lemma homeDial_never sv p fuel s :
  (forall t, (tick s <= t)%nat -> pin_at env t p = HIGH) ->
  homeDial env cfg sv p fuel s
  = (None, io fuel (driveTrace cfg sv p fuel) s).
Proof.
  intros Hp. unfold homeDial. apply bind_None.
  revert s Hp. induction fuel as [|n IH]; intros s Hp.
  - simpl. now rewrite io_0_nil.
  - simpl while. unfold bind at 1. simpl.
    rewrite (Hp (tick s)) by lia. simpl.
    unfold bind at 1, servoWrite, modify, delay, ret. simpl.
    rewrite IH by (intros t Ht; apply Hp; simpl in Ht; lia).
    rewrite !io_io. reflexivity.
Qed.

Lemma homeDial_at_home sv p fuel s :
  pin_at env (tick s) p = LOW ->
  homeDial env cfg sv p (S fuel) s
  = (Some tt,
     set_counter sv 0
       (io 1 [EvDigitalRead p LOW;
              EvServoWrite sv (SERVO_STOP_POSITION cfg);
              EvCounter sv (counter sv s) 0] s)).
Proof.
  intros Hp. unfold homeDial, bind. simpl. rewrite Hp. simpl.
  unfold servoWrite, assignCounter, modify. destruct sv; state_eq.
Qed.

End HomingEdges.

(** X5.  Homing with a home switch that is never pressed does not return:
    at each turn of its loop it reads the switch released and commands the
    servo forward again, and it never stops the servo or sets the counter.
    Homing a dial whose home switch is already pressed returns after that
    one read, without ever driving the servo: it sends the stop pulse and
    sets the counter to 0. *)
Theorem X5_homing_edge_cases env cfg s fuel :
  ((forall t, (tick s <= t)%nat ->
               pin_at env t PIN_HOME_SWITCH_MINUTE = HIGH) ->
   goHomeMinute env cfg fuel s
   = (None,
      io fuel (driveTrace cfg servoMinute PIN_HOME_SWITCH_MINUTE fuel) s)) /\
  ((forall t, (tick s <= t)%nat ->
               pin_at env t PIN_HOME_SWITCH_HOUR = HIGH) ->
   goHomeHour env cfg fuel s
   = (None, io fuel (driveTrace cfg servoHour PIN_HOME_SWITCH_HOUR fuel) s)) /\
  (pin_at env (tick s) PIN_HOME_SWITCH_MINUTE = LOW ->
   goHomeMinute env cfg (S fuel) s
   = (Some tt,
      set_currentMinuteOnClock 0
        (io 1 [EvDigitalRead PIN_HOME_SWITCH_MINUTE LOW;
               EvServoWrite servoMinute (SERVO_STOP_POSITION cfg);
               EvCounter servoMinute (currentMinuteOnClock s) 0] s))) /\
  (pin_at env (tick s) PIN_HOME_SWITCH_HOUR = LOW ->
   goHomeHour env cfg (S fuel) s
   = (Some tt,
      set_currentHourOnClock 0
        (io 1 [EvDigitalRead PIN_HOME_SWITCH_HOUR LOW;
               EvServoWrite servoHour (SERVO_STOP_POSITION cfg);
               EvCounter servoHour (currentHourOnClock s) 0] s))).
Proof.
  split; [|split; [|split]]; intros H.
  - apply (homeDial_never env cfg servoMinute), H.
  - apply (homeDial_never env cfg servoHour), H.
  - apply (homeDial_at_home env cfg servoMinute), H.
  - apply (homeDial_at_home env cfg servoHour), H.
Qed.

(** The hour dial with its home switch held, the counter at 7. *)
Lemma X5_witness :
  let s := mkState NORMAL_MODE 0 7 0 0 0 (mkDateTime 2025 6 23 12 0 0) 0 [] in
  goHomeHour (stuckEnv LOW) WiFi.cfg 5%nat s
  = (Some tt,
     set_currentHourOnClock 0
       (io 1 [EvDigitalRead PIN_HOME_SWITCH_HOUR LOW;
              EvServoWrite servoHour 90; EvCounter servoHour 7 0] s)).
Proof.
  intros s. apply (X5_homing_edge_cases (stuckEnv LOW) WiFi.cfg s 4%nat).
  reflexivity.
Defined.

(** ** The servos are stopped whenever a routine returns *)

Lemma restful_nil cfg : restful cfg [].
Proof. intros sv. left. reflexivity. Qed.

Lemma restful_app cfg a b :
  restful cfg a -> restful cfg b -> restful cfg (a ++ b).
Proof.
  intros Ha Hb sv. rewrite lastWrite_app.
  destruct (Hb sv) as [E | E]; rewrite E; [apply Ha | right; reflexivity].
Qed.

Lemma rested_refl cfg s : rested cfg s s.
Proof. exists []. split; [now rewrite app_nil_r | apply restful_nil]. Qed.

Lemma rested_trans cfg s1 s2 s3 :
  rested cfg s1 s2 -> rested cfg s2 s3 -> rested cfg s1 s3.
Proof.
  intros (e1 & E1 & R1) (e2 & E2 & R2). exists (e1 ++ e2).
  split; [now rewrite E2, E1, app_assoc | apply restful_app; assumption].
Qed.

Lemma rested_io cfg n evs s : restful cfg evs -> rested cfg s (io n evs s).
Proof. intros H. exists evs. split; [reflexivity | exact H]. Qed.

Lemma atRest_rested cfg s s' : atRest cfg s -> rested cfg s s' -> atRest cfg s'.
Proof.
  intros Hs (evs & E & R) sv. rewrite E, lastWrite_app.
  destruct (R sv) as [-> | ->]; [apply Hs | reflexivity].
Qed.

Lemma lastWrite_stop sv sv' v tr :
  lastWrite sv' (tr ++ [EvServoWrite sv v])
  = if Servo_eqb sv sv' then Some v else lastWrite sv' tr.
Proof.
  rewrite lastWrite_app. simpl. destruct (Servo_eqb sv sv'); reflexivity.
Qed.

Lemma lastWrite_motion cfg sv p evs sv' :
  Forall (motionEvent cfg sv p) evs -> Servo_eqb sv sv' = false ->
  lastWrite sv' evs = None.
Proof.
  intros F Hne. induction F as [|e evs He _ IH]; [reflexivity|].
  simpl. rewrite IH. destruct e as [sv0 v| | |]; try reflexivity.
  destruct He as [-> _]. rewrite Hne. reflexivity.
Qed.

(** A completed press-release cycle has stopped its servo and commanded no
    other. *)
Lemma stepTrace_lastWrite cfg sv p evs sv' :
  stepTrace cfg sv p evs ->
  lastWrite sv' evs
  = if Servo_eqb sv sv' then Some (SERVO_STOP_POSITION cfg) else None.
Proof.
  intros H. destruct (Servo_eqb sv sv') eqn:E.
  - destruct H as (a & b & ->).
    rewrite app_comm_cons, !app_assoc, lastWrite_stop, E. reflexivity.
  - eapply lastWrite_motion; [apply stepTrace_motion, H | exact E].
Qed.

Lemma stepTrace_restful cfg sv p evs :
  stepTrace cfg sv p evs -> restful cfg evs.
Proof.
  intros H sv'. rewrite (stepTrace_lastWrite cfg sv p evs sv' H).
  destruct (Servo_eqb sv sv'); auto.
Qed.

Lemma restful_counter cfg sv old new : restful cfg [EvCounter sv old new].
Proof. intros sv'. left. reflexivity. Qed.

Lemma lastWrite_driveTrace cfg sv p k sv' :
  Servo_eqb sv sv' = false -> lastWrite sv' (driveTrace cfg sv p k) = None.
Proof.
  intros E. induction k as [|k IH]; [reflexivity|].
  simpl. rewrite IH, E. reflexivity.
Qed.

Lemma homing_restful cfg sv p k old :
  restful cfg (driveTrace cfg sv p k
               ++ [EvDigitalRead p LOW;
                   EvServoWrite sv (SERVO_STOP_POSITION cfg);
                   EvCounter sv old 0]).
Proof.
  intros sv'. rewrite lastWrite_app. simpl.
  destruct (Servo_eqb sv sv') eqn:E; [right; reflexivity | left].
  apply lastWrite_driveTrace, E.
Qed.

Section Rests.

Variable cfg : Config.

Lemma rests_wlp {A} (f : Prog A) :
  (forall s, wlp f s (fun r s' => r <> None -> rested cfg s s')) ->
  rests cfg f.
Proof.
  intros H s0 s Hs. eapply wlp_conseq; [apply H|].
  intros [a|] s' H'; [|exact I].
  eapply rested_trans; [exact Hs | apply H'; discriminate].
Qed.

Lemma rests_ret {A} (a : A) : rests cfg (ret a).
Proof. intros s0 s H fuel. exact H. Qed.

Lemma rests_halt {A} : rests cfg (@halt A).
Proof. intros s0 s H fuel. exact I. Qed.

Lemma rests_get {A} (g : State -> A) : rests cfg (get g).
Proof. intros s0 s H fuel. exact H. Qed.

Lemma rests_delay ms : rests cfg (delay ms).
Proof. apply rests_ret. Qed.

Lemma rests_modify (g : State -> State) :
  (forall s, rested cfg s (g s)) -> rests cfg (modify g).
Proof.
  intros Hg s0 s H fuel. eapply rested_trans; [exact H | apply Hg].
Qed.

Lemma rests_silent (g : State -> State) :
  (forall s, trace (g s) = trace s) -> rests cfg (modify g).
Proof.
  intros Hg. apply rests_modify. intros s. exists [].
  rewrite Hg, app_nil_r. split; [reflexivity | apply restful_nil].
Qed.

Lemma rests_bind {A B} (f : Prog A) (k : A -> Prog B) :
  rests cfg f -> (forall a, rests cfg (k a)) -> rests cfg (bind f k).
Proof.
  intros Hf Hk s0. eapply hoare_bind; [apply Hf | intros a; apply Hk].
Qed.

Lemma rests_when c p : rests cfg p -> rests cfg (when c p).
Proof. destruct c; simpl; [auto | intros _; apply rests_ret]. Qed.

Lemma rests_while cond body :
  rests cfg cond -> rests cfg body -> rests cfg (while cond body).
Proof.
  intros Hc Hb s0 s H.
  apply wlp_while with (I := rested cfg s0); [exact H | intros; exact I|].
  intros s1 H1. eapply wlp_conseq; [apply (Hc s0 s1 H1)|].
  intros [[|]|] s2 H2; auto.
  eapply wlp_conseq; [apply (Hb s0 s2 H2)|].
  intros [u|] s3 H3; exact H3.
Qed.

Lemma rests_invocations n p : rests cfg p -> rests cfg (invocations n p).
Proof.
  intros Hp. induction n; simpl; [apply rests_ret | apply rests_bind; auto].
Qed.

Lemma rests_sample {A} (v : State -> A) :
  rests cfg (fun (_ : nat) s => (Some (v s), io 1 [] s)).
Proof.
  intros s0 s H fuel. eapply rested_trans; [exact H|].
  apply rested_io, restful_nil.
Qed.

Lemma rests_servoStop sv : rests cfg (servoWrite sv (SERVO_STOP_POSITION cfg)).
Proof.
  apply rests_modify. intros s. apply rested_io. intros sv'. simpl.
  destruct (Servo_eqb sv sv'); auto.
Qed.

Lemma rests_rtc_adjust dt : rests cfg (rtc_adjust dt).
Proof.
  apply rests_modify. intros s. exists [EvRtcAdjust dt].
  split; [reflexivity|]. intros sv. left. reflexivity.
Qed.

Variable env : Env.

Lemma rests_millis : rests cfg (millis env).
Proof. apply (rests_sample (fun s => millis_at env (tick s))). Qed.

Lemma rests_rtc_now : rests cfg (rtc_now env).
Proof. apply (rests_sample (fun s => rtc_time env (tick s) (rtc s))). Qed.

Lemma rests_digitalRead p : rests cfg (digitalRead env p).
Proof.
  intros s0 s H fuel. eapply rested_trans; [exact H|].
  apply rested_io. intros sv. left. reflexivity.
Qed.

Lemma rests_moveMinuteStep : rests cfg (moveMinuteStep env cfg).
Proof.
  apply rests_wlp. intros s fuel.
  destruct (moveMinuteStep_run env cfg fuel s)
    as [(n & evs & -> & H) | (n & evs & -> & H)]; simpl; [congruence|].
  intros _. eexists. split; [reflexivity|].
  apply restful_app; [eapply stepTrace_restful, H | apply restful_counter].
Qed.

Lemma rests_moveHourToNext : rests cfg (moveHourToNext env cfg).
Proof.
  apply rests_wlp. intros s fuel.
  destruct (moveHourToNext_run env cfg fuel s)
    as [(n & evs & -> & H) | (n & e1 & e2 & -> & H1 & H2)]; simpl;
    [congruence|].
  intros _. eexists. split; [reflexivity|].
  apply restful_app; [eapply stepTrace_restful, H1|].
  apply restful_app; [eapply stepTrace_restful, H2 | apply restful_counter].
Qed.

Lemma rests_homeDial sv p : rests cfg (homeDial env cfg sv p).
Proof.
  apply rests_wlp. intros s fuel.
  destruct (homeDial_run env cfg sv p fuel s) as (k & _ & [-> | [_ ->]]);
    simpl; [congruence|].
  intros _. exists (driveTrace cfg sv p k
                    ++ [EvDigitalRead p LOW;
                        EvServoWrite sv (SERVO_STOP_POSITION cfg);
                        EvCounter sv (counter sv s) 0]).
  split; [destruct sv; reflexivity | apply homing_restful].
Qed.

Lemma rests_goHomeMinute : rests cfg (goHomeMinute env cfg).
Proof. apply (rests_homeDial servoMinute PIN_HOME_SWITCH_MINUTE). Qed.

Lemma rests_goHomeHour : rests cfg (goHomeHour env cfg).
Proof. apply (rests_homeDial servoHour PIN_HOME_SWITCH_HOUR). Qed.

End Rests.

Ltac rests_steps :=
  repeat first
    [ apply rests_moveMinuteStep
    | apply rests_moveHourToNext
    | apply rests_goHomeMinute
    | apply rests_goHomeHour
    | apply rests_millis
    | apply rests_rtc_now
    | apply rests_digitalRead
    | apply rests_servoStop
    | apply rests_rtc_adjust
    | apply rests_invocations
    | apply rests_when
    | apply rests_delay
    | apply rests_halt
    | apply rests_get
    | apply rests_ret
    | apply rests_silent; reflexivity
    | apply rests_sample
    | apply rests_while
    | apply rests_bind
    | match goal with
      | |- forall _, _ => intro
      | |- rests _ (if ?c then _ else _) => destruct c
      | |- rests _ (match ?m with NORMAL_MODE => _ | SETTING_MODE => _ end)
        => destruct m
      end ].

Lemma rests_syncClockToRTC env cfg : rests cfg (syncClockToRTC env cfg).
Proof. unfold syncClockToRTC. rests_steps. Qed.

Lemma RtcExpander_handleButtons_rests env :
  rests RtcExpander.cfg (RtcExpander.handleButtons env).
Proof. unfold RtcExpander.handleButtons. rests_steps. Qed.

Lemma RtcDirect_handleButtons_rests env :
  rests RtcDirect.cfg (RtcDirect.handleButtons env).
Proof. unfold RtcDirect.handleButtons. rests_steps. Qed.

Lemma RtcExpander_loop_rests env :
  rests RtcExpander.cfg (RtcExpander.loop env).
Proof.
  unfold RtcExpander.loop. apply rests_bind;
    [apply RtcExpander_handleButtons_rests | rests_steps].
Qed.

Lemma RtcDirect_loop_rests env : rests RtcDirect.cfg (RtcDirect.loop env).
Proof.
  unfold RtcDirect.loop. apply rests_bind;
    [apply RtcDirect_handleButtons_rests | rests_steps].
Qed.

Lemma WiFi_loop_rests env : rests WiFi.cfg (WiFi.loop env).
Proof.
  unfold WiFi.loop, WiFi.timeClient_update, WiFi.timeClient_getMinutes,
    WiFi.timeClient_getHours.
  rests_steps.
Qed.

(** From a state at rest, a routine that rests returns at rest. *)
Lemma rests_atRest {A} cfg (f : Prog A) :
  rests cfg f -> hoare (atRest cfg) f (atRest cfg) (fun _ => True).
Proof.
  intros H s Hs. eapply wlp_conseq; [apply (H s s (rested_refl cfg s))|].
  intros [a|] s' H'; [|exact I]. eapply atRest_rested; eassumption.
Qed.

(** The two stop pulses at the head of [setup] put both servos at rest. *)
Lemma atRest_stops cfg s :
  atRest cfg
    (io 0 [EvServoWrite servoHour (SERVO_STOP_POSITION cfg)]
       (io 0 [EvServoWrite servoMinute (SERVO_STOP_POSITION cfg)] s)).
Proof. intros [|]; simpl; rewrite !lastWrite_app; reflexivity. Qed.

Lemma hoare_stops cfg (P : State -> Prop) :
  hoare P
    (servoWrite servoMinute (SERVO_STOP_POSITION cfg) ;;
     servoWrite servoHour (SERVO_STOP_POSITION cfg))
    (atRest cfg) (fun _ => True).
Proof. intros s _ fuel. apply atRest_stops. Qed.

Lemma hoare_any {A} (f : Prog A) :
  hoare (fun _ => True) f (fun _ => True) (fun _ => True).
Proof. intros s _ fuel. destruct (fst (f fuel s)); exact I. Qed.

Lemma hoare_bind_assoc {A B C} P (f : Prog A) (g : Prog B) (k : Prog C) Q E :
  hoare P ((f ;; g) ;; k) Q E -> hoare P (f ;; g ;; k) Q E.
Proof.
  intros H s Hs fuel. specialize (H s Hs fuel). unfold bind in *.
  destruct (f fuel s) as [[a|] s1]; [|exact H].
  destruct (g fuel s1) as [[b|] s2]; exact H.
Qed.

Lemma hoare_result {A} (P Q : State -> Prop) (f : Prog A) s :
  hoare P f Q (fun _ => True) -> P s ->
  wlp f s (fun r s' => r <> None -> Q s').
Proof.
  intros H Hs. eapply wlp_conseq; [apply H, Hs|].
  intros [a|] s' H'; [intros _; exact H' | congruence].
Qed.

Lemma RtcExpander_setup_rests env :
  hoare (fun _ => True) (RtcExpander.setup env)
        (atRest RtcExpander.cfg) (fun _ => True).
Proof.
  unfold RtcExpander.setup.
  hoare_step ltac:(apply hoare_any). hoare_step ltac:(apply hoare_any).
  apply hoare_bind_assoc.
  hoare_step ltac:(apply hoare_stops).
  apply rests_atRest. rests_steps.
Qed.

Lemma RtcDirect_setup_rests env :
  hoare (fun _ => True) (RtcDirect.setup env)
        (atRest RtcDirect.cfg) (fun _ => True).
Proof.
  unfold RtcDirect.setup. apply hoare_bind_assoc.
  hoare_step ltac:(apply hoare_stops).
  apply rests_atRest. rests_steps.
Qed.

Lemma WiFi_setup_rests env :
  hoare (fun _ => True) (WiFi.setup env) (atRest WiFi.cfg) (fun _ => True).
Proof.
  unfold WiFi.setup. apply hoare_bind_assoc.
  hoare_step ltac:(apply hoare_stops).
  apply rests_atRest.
  unfold WiFi.wifiConnected, WiFi.timeClient_update,
    WiFi.timeClient_forceUpdate.
  rests_steps.
Qed.

(** X6.  Whenever [setup] followed by any number of passes of [loop]
    returns, in any of the three sketches and from any state, the last
    command sent to each servo is the stop pulse.  The same holds after
    each pass of [loop], each call of the button handler and each
    reconciliation that starts with both servos stopped: the only states in
    which a servo is running are those inside a blocking wait. *)
Theorem X6_servos_stopped_on_return env (n : nat) s :
  wlp (RtcExpander.sketch env n) s
    (fun r s' => r <> None -> atRest RtcExpander.cfg s') /\
  wlp (RtcDirect.sketch env n) s
    (fun r s' => r <> None -> atRest RtcDirect.cfg s') /\
  wlp (WiFi.sketch env n) s (fun r s' => r <> None -> atRest WiFi.cfg s') /\
  (atRest RtcExpander.cfg s ->
   wlp (RtcExpander.loop env) s
     (fun r s' => r <> None -> atRest RtcExpander.cfg s') /\
   wlp (RtcExpander.handleButtons env) s
     (fun r s' => r <> None -> atRest RtcExpander.cfg s')) /\
  (atRest RtcDirect.cfg s ->
   wlp (RtcDirect.loop env) s
     (fun r s' => r <> None -> atRest RtcDirect.cfg s') /\
   wlp (RtcDirect.handleButtons env) s
     (fun r s' => r <> None -> atRest RtcDirect.cfg s')) /\
  (atRest WiFi.cfg s ->
   wlp (WiFi.loop env) s (fun r s' => r <> None -> atRest WiFi.cfg s')) /\
  (forall cfg, atRest cfg s ->
   wlp (syncClockToRTC env cfg) s (fun r s' => r <> None -> atRest cfg s')).
Proof.
  split; [|split; [|split; [|split; [|split; [|split]]]]].
  - apply (hoare_result (fun _ => True)); [|exact I].
    unfold RtcExpander.sketch.
    hoare_step ltac:(apply RtcExpander_setup_rests).
    apply rests_atRest, rests_invocations, RtcExpander_loop_rests.
  - apply (hoare_result (fun _ => True)); [|exact I].
    unfold RtcDirect.sketch.
    hoare_step ltac:(apply RtcDirect_setup_rests).
    apply rests_atRest, rests_invocations, RtcDirect_loop_rests.
  - apply (hoare_result (fun _ => True)); [|exact I].
    unfold WiFi.sketch.
    hoare_step ltac:(apply WiFi_setup_rests).
    apply rests_atRest, rests_invocations, WiFi_loop_rests.
  - intros H. split; apply (hoare_result (atRest RtcExpander.cfg));
      try exact H; apply rests_atRest;
      [apply RtcExpander_loop_rests | apply RtcExpander_handleButtons_rests].
  - intros H. split; apply (hoare_result (atRest RtcDirect.cfg));
      try exact H; apply rests_atRest;
      [apply RtcDirect_loop_rests | apply RtcDirect_handleButtons_rests].
  - intros H. apply (hoare_result (atRest WiFi.cfg)); [|exact H].
    apply rests_atRest, WiFi_loop_rests.
  - intros cfg H. apply (hoare_result (atRest cfg)); [|exact H].
    apply rests_atRest, rests_syncClockToRTC.
Qed.

(** A pass of the WiFi [loop] on the bench, from both servos stopped. *)
Lemma X6_witness :
  let s := mkState NORMAL_MODE 0 0 0 0 0 (mkDateTime 2025 6 23 2 3 0) 0
             [EvServoWrite servoMinute 90; EvServoWrite servoHour 90] in
  wlp (WiFi.loop benchEnv) s (fun r s' => r <> None -> atRest WiFi.cfg s').
Proof.
  intros s.
  apply (X6_servos_stopped_on_return benchEnv 0 s).
  intros [|]; reflexivity.
Defined.

(** ** Writes to the RTC during [setup] *)

Lemma adjustments_app a b :
  adjustments (a ++ b) = adjustments a ++ adjustments b.
Proof. apply flat_map_app. Qed.

Lemma last_cons_default {T} (x : T) l d : last (x :: l) d = last l x.
Proof.
  revert x d. induction l as [|y l IH]; intros x d; [reflexivity|].
  change (last (x :: y :: l) d) with (last (y :: l) d).
  rewrite (IH y d), (IH y x). reflexivity.
Qed.

Lemma last_app_default {T} (a b : list T) d :
  last (a ++ b) d = last b (last a d).
Proof.
  revert d. induction a as [|x a IH]; intros d; [reflexivity|].
  rewrite <- app_comm_cons, !last_cons_default. apply IH.
Qed.

Lemma rtcWritten_trans w1 w2 s1 s2 s3 :
  rtcWritten w1 s1 s2 -> rtcWritten w2 s2 s3 -> rtcWritten (w1 ++ w2) s1 s3.
Proof.
  intros [(e1 & E1 & A1) R1] [(e2 & E2 & A2) R2]. split.
  - exists (e1 ++ e2). split; [now rewrite E2, E1, app_assoc|].
    rewrite adjustments_app, A1, A2. reflexivity.
  - rewrite R2, R1. symmetry. apply last_app_default.
Qed.

Lemma rtcKept_refl s : rtcKept s s.
Proof.
  split; [|reflexivity]. exists []. split; [now rewrite app_nil_r|reflexivity].
Qed.

Lemma rtcKept_trans s1 s2 s3 : rtcKept s1 s2 -> rtcKept s2 s3 -> rtcKept s1 s3.
Proof. apply (rtcWritten_trans [] []). Qed.

Lemma dialEvents_adjustments cfg evs :
  Forall (dialEvent cfg) evs -> adjustments evs = [].
Proof.
  induction 1 as [|e evs He _ IH]; [reflexivity|].
  destruct e; simpl in *; try exact IH. contradiction.
Qed.

Lemma homingEvents_adjustments cfg sv p old evs :
  Forall (homingEvent cfg sv p old) evs -> adjustments evs = [].
Proof.
  induction 1 as [|e evs He _ IH]; [reflexivity|].
  destruct e; simpl in *; try exact IH. contradiction.
Qed.

Lemma advanced_rtcKept cfg s s' : advanced cfg s s' -> rtcKept s s'.
Proof.
  intros ((_ & _ & _ & _ & Hr) & _ & (evs & E & F) & _).
  split; [|exact Hr]. exists evs. split; [exact E|].
  eapply dialEvents_adjustments, F.
Qed.

Section RtcKept.

Variable env : Env.
Variable cfg : Config.

Lemma preserves_rtcKept_servoWrite sv v : preserves rtcKept (servoWrite sv v).
Proof.
  apply preserves_modify. intros s0 s H.
  eapply rtcKept_trans; [exact H|]. split; [|reflexivity].
  exists [EvServoWrite sv v]. split; reflexivity.
Qed.

Lemma preserves_rtcKept_homeDial sv p :
  preserves rtcKept (homeDial env cfg sv p).
Proof.
  apply preserves_trans; [apply rtcKept_trans|]. intros s.
  eapply wlp_conseq; [apply homeDial_wlp|].
  intros r s' ((_ & _ & _ & _ & Hr) & _ & _ & (evs & E & F)).
  split; [|exact Hr]. exists evs. split; [exact E|].
  eapply homingEvents_adjustments, F.
Qed.

Lemma preserves_rtcKept_syncClockToRTC :
  preserves rtcKept (syncClockToRTC env cfg).
Proof.
  apply preserves_trans; [apply rtcKept_trans|]. intros s.
  eapply wlp_conseq; [apply syncClockToRTC_wlp|].
  intros r s' (H & _). eapply advanced_rtcKept, H.
Qed.

End RtcKept.

(** [rtc.adjust] with the compile time if the RTC has lost power. *)
Lemma wlp_adjust_if_lost env s :
  wlp (when (rtc_lostPower env) (rtc_adjust (compileTime env))) s
    (fun r s' =>
       r = Some tt /\
       rtcWritten (if rtc_lostPower env then [compileTime env] else []) s s').
Proof.
  destruct (rtc_lostPower env); simpl; intros fuel; simpl;
    (split; [reflexivity|]).
  - split; [|reflexivity]. exists [EvRtcAdjust (compileTime env)].
    split; reflexivity.
  - apply rtcKept_refl.
Qed.

(** X7.  [setup] of the RTC sketches writes the RTC at most once: with the
    compile time, when the chip is found and reports that it has lost
    power.  Otherwise, and in the rest of [setup] (homing and the first
    reconciliation), the RTC is not written.  This holds for every run,
    returned or blocked. *)
Theorem X7_setup_writes_compile_time env s :
  let w := if rtc_found env && rtc_lostPower env then [compileTime env]
           else [] in
  wlp (RtcExpander.setup env) s (fun _ s' => rtcWritten w s s') /\
  wlp (RtcDirect.setup env) s (fun _ s' => rtcWritten w s s').
Proof.
  intros w. subst w. split.
  - unfold RtcExpander.setup. destruct (rtc_found env); simpl andb.
    + apply wlp_bind, wlp_ret, wlp_bind.
      eapply wlp_conseq; [apply wlp_adjust_if_lost|].
      intros r s1 [-> H1].
      assert (T : preserves rtcKept
        (servoWrite servoMinute (SERVO_STOP_POSITION RtcExpander.cfg) ;;
         servoWrite servoHour (SERVO_STOP_POSITION RtcExpander.cfg) ;;
         goHomeHour env RtcExpander.cfg ;;
         goHomeMinute env RtcExpander.cfg ;;
         syncClockToRTC env RtcExpander.cfg)).
      { repeat (apply preserves_bind;
                [first [ apply preserves_rtcKept_servoWrite
                       | apply (preserves_rtcKept_homeDial env) ]
                | intros ?]).
        apply preserves_rtcKept_syncClockToRTC. }
      eapply wlp_conseq; [apply (T s1 s1 (rtcKept_refl s1))|].
      intros r s2 H2. pose proof (rtcWritten_trans _ _ _ _ _ H1 H2) as H.
      rewrite app_nil_r in H. exact H.
    + intros fuel. simpl. apply rtcKept_refl.
  - unfold RtcDirect.setup.
    apply wlp_bind, wlp_modify, wlp_bind, wlp_modify.
    match goal with |- wlp _ ?s1 _ => set (s0 := s1) end.
    assert (H0 : rtcKept s s0).
    { split; [|reflexivity]. eexists.
      split; [subst s0; simpl; rewrite <- app_assoc|]; reflexivity. }
    destruct (rtc_found env); simpl andb.
    + apply wlp_bind, wlp_ret, wlp_bind.
      eapply wlp_conseq; [apply wlp_adjust_if_lost|].
      intros r s1 [-> H1].
      assert (T : preserves rtcKept
        (goHomeMinute env RtcDirect.cfg ;;
         goHomeHour env RtcDirect.cfg ;;
         syncClockToRTC env RtcDirect.cfg)).
      { repeat (apply preserves_bind;
                [apply (preserves_rtcKept_homeDial env) | intros ?]).
        apply preserves_rtcKept_syncClockToRTC. }
      eapply wlp_conseq; [apply (T s1 s1 (rtcKept_refl s1))|].
      intros r s2 H2.
      pose proof (rtcWritten_trans _ _ _ _ _
                    (rtcWritten_trans _ _ _ _ _ H0 H1) H2) as H.
      rewrite app_nil_r in H. exact H.
    + intros fuel. simpl. exact H0.
Qed.

(** ** Passes of [loop] and the RTC *)

(** X8.  Over any number of passes of [loop] of the RTC sketches, from any
    state and wherever the run stops, the RTC is written exactly if the
    save button has been read pressed; if it has not, the RTC holds the
    time it held before: reconciliation, the increments and cancel never
    write it. *)
Theorem X8_passes_write_rtc_only_on_save env (n : nat) s :
  wlp (invocations n (RtcExpander.loop env)) s (fun _ s' => rtcBySave s s') /\
  wlp (invocations n (RtcDirect.loop env)) s (fun _ s' => rtcBySave s s').
Proof.
  split; apply preserves_wlp; try apply rtcBySave_refl;
    apply preserves_invocations.
  - unfold RtcExpander.loop. apply preserves_bind;
      [apply RtcExpander_handleButtons_rtcBySave | preserves_rtc].
  - unfold RtcDirect.loop. apply preserves_bind;
      [apply RtcDirect_handleButtons_rtcBySave | preserves_rtc].
Qed.

(** ** One button action per pass in the first sketch *)

Lemma oneAction_then {A B} (m : Prog A) (k : A -> Prog B) :
  oneAction m -> (forall a, preserves (pressesAtMost 1) (k a)) ->
  oneAction (bind m k).
Proof.
  intros Hm Hk s0 s H. apply wlp_bind.
  eapply wlp_conseq; [apply (Hm s0 s H)|].
  intros [a|] s1 H1; [apply Hk, H1 | exact H1].
Qed.

Lemma RtcExpander_handleButtons_oneAction env :
  oneAction (RtcExpander.handleButtons env).
Proof.
  unfold RtcExpander.handleButtons.
  apply oneAction_bind; [apply preserves_presses_millis | intros t].
  apply oneAction_bind; [apply preserves_get | intros last].
  destruct (inCooldown t last); [apply oneAction_ret|].
  apply oneAction_bind; [apply preserves_get | intros [|]].
  - apply oneAction_when. preserves_presses.
  - apply oneAction_if; [preserves_presses|].
    apply oneAction_if; [preserves_presses|].
    apply oneAction_if; [preserves_presses|].
    apply oneAction_when. preserves_presses.
Qed.

(** X9.  In the first RTC sketch a pass of [loop], from any state and
    wherever it stops, reads at most one button pressed, and so performs at
    most one button action; the reconciliation that follows the handler
    reads no button. *)
Theorem X9_first_sketch_one_action_per_pass env s :
  wlp (RtcExpander.loop env) s (fun _ s' =>
    exists evs, trace s' = trace s ++ evs /\ (buttonPresses evs <= 1)%nat).
Proof.
  assert (H : oneAction (RtcExpander.loop env)).
  { unfold RtcExpander.loop. apply oneAction_then;
      [apply RtcExpander_handleButtons_oneAction | intros _].
    apply preserves_bind; [apply preserves_get | intros [|]].
    - apply preserves_bind;
        [apply preserves_presses_syncClockToRTC
        | intros _; apply preserves_ret].
    - apply preserves_ret. }
  apply H. exists []. split; [now rewrite app_nil_r | cbv; lia].
Qed.

(** ** The display after a pass of [loop] in normal mode *)

Lemma later_refl s : later s s.
Proof. unfold later. lia. Qed.

Lemma later_trans s1 s2 s3 : later s1 s2 -> later s2 s3 -> later s1 s3.
Proof. unfold later. lia. Qed.

Section Later.

Variable env : Env.
Variable cfg : Config.

Lemma preserves_later_sample {A} (v : State -> A) n evs :
  preserves later (fun (_ : nat) s => (Some (v s), io n evs s)).
Proof. intros s0 s H fuel. unfold later in *. simpl. lia. Qed.

Lemma preserves_later_millis : preserves later (millis env).
Proof. apply (preserves_later_sample (fun s => millis_at env (tick s))). Qed.

Lemma preserves_later_rtc_now : preserves later (rtc_now env).
Proof.
  apply (preserves_later_sample (fun s => rtc_time env (tick s) (rtc s))).
Qed.

Lemma preserves_later_digitalRead p : preserves later (digitalRead env p).
Proof. intros s0 s H fuel. unfold later in *. simpl. lia. Qed.

Lemma preserves_later_silent (g : State -> State) :
  (forall s, tick (g s) = tick s) -> preserves later (modify g).
Proof.
  intros Hg. apply preserves_modify. intros s0 s H. unfold later in *.
  rewrite Hg. exact H.
Qed.

Lemma preserves_later_rtc_adjust dt : preserves later (rtc_adjust dt).
Proof.
  apply preserves_modify. intros s0 s H. unfold later in *. simpl. lia.
Qed.

Lemma preserves_later_advanced (f : Prog unit) :
  (forall s, wlp f s (fun _ s' => advanced cfg s s')) -> preserves later f.
Proof.
  intros Hf. apply preserves_trans; [apply later_trans|]. intros s.
  eapply wlp_conseq; [apply Hf|]. intros r s' (_ & T & _). exact T.
Qed.

Lemma preserves_later_moveMinuteStep : preserves later (moveMinuteStep env cfg).
Proof.
  apply preserves_later_advanced. intros s.
  eapply wlp_conseq; [apply moveMinuteStep_wlp|]. intros r s' H. apply H.
Qed.

Lemma preserves_later_moveHourToNext : preserves later (moveHourToNext env cfg).
Proof.
  apply preserves_later_advanced. intros s.
  eapply wlp_conseq; [apply moveHourToNext_wlp|]. intros r s' H. apply H.
Qed.

Lemma preserves_later_syncClockToRTC : preserves later (syncClockToRTC env cfg).
Proof.
  apply preserves_later_advanced. intros s.
  eapply wlp_conseq; [apply syncClockToRTC_wlp|]. intros r s' H. apply H.
Qed.

End Later.

Ltac preserves_later :=
  repeat first
    [ apply preserves_later_moveMinuteStep
    | apply preserves_later_moveHourToNext
    | apply preserves_later_syncClockToRTC
    | apply preserves_later_millis
    | apply preserves_later_rtc_now
    | apply preserves_later_digitalRead
    | apply preserves_later_rtc_adjust
    | apply preserves_when
    | apply preserves_get
    | apply preserves_ret
    | apply preserves_later_silent; reflexivity
    | apply preserves_bind
    | match goal with
      | |- forall _, _ => intro
      | |- preserves _ (if ?c then _ else _) => destruct c
      | |- preserves _ (match ?m with NORMAL_MODE => _ | SETTING_MODE => _ end)
        => destruct m
      end ].

Lemma RtcExpander_handleButtons_later env :
  preserves later (RtcExpander.handleButtons env).
Proof. unfold RtcExpander.handleButtons. preserves_later. Qed.

Lemma RtcDirect_handleButtons_later env :
  preserves later (RtcDirect.handleButtons env).
Proof. unfold RtcDirect.handleButtons. preserves_later. Qed.

(** The second half of [loop]: reconciliation in normal mode, nothing in
    setting mode. *)
Lemma loop_tail_showsRtc env cfg s0 s :
  later s0 s ->
  wlp (mode <- get currentMode ;;
       match mode with
       | NORMAL_MODE => syncClockToRTC env cfg ;; delay 1000
       | SETTING_MODE => delay 50
       end) s
    (fun r s' =>
       r <> None -> currentMode s' = NORMAL_MODE -> showsRtc env s0 s').
Proof.
  intros L. apply wlp_bind, wlp_get.
  destruct (currentMode s) eqn:Hmode.
  - apply wlp_bind. eapply wlp_conseq; [apply syncClockToRTC_wlp|].
    intros [[]|] s1 (((_ & _ & _ & _ & Hr) & T & _) & Hs); [|congruence].
    apply wlp_ret. intros _ _. destruct (Hs eq_refl) as [Eh Em].
    exists (tick s). unfold later in L. rewrite Hr.
    split; [lia | split; assumption].
  - apply wlp_ret. intros _ E. congruence.
Qed.

(** X10.  Whenever a pass of [loop] of an RTC sketch returns in normal mode,
    whatever the handler did in that pass (nothing, a save or a cancel), the
    display shows the hour and minute that the RTC reported at an instant
    of that pass. *)
Theorem X10_pass_in_normal_mode_shows_rtc env s :
  wlp (RtcExpander.loop env) s (fun r s' =>
    r <> None -> currentMode s' = NORMAL_MODE -> showsRtc env s s') /\
  wlp (RtcDirect.loop env) s (fun r s' =>
    r <> None -> currentMode s' = NORMAL_MODE -> showsRtc env s s').
Proof.
  split.
  - unfold RtcExpander.loop. apply wlp_bind.
    eapply wlp_conseq;
      [apply (RtcExpander_handleButtons_later env s s (later_refl s))|].
    intros [u|] s1 L; [apply loop_tail_showsRtc, L | congruence].
  - unfold RtcDirect.loop. apply wlp_bind.
    eapply wlp_conseq;
      [apply (RtcDirect_handleButtons_later env s s (later_refl s))|].
    intros [u|] s1 L; [apply loop_tail_showsRtc, L | congruence].
Qed.

(** ** The RTC clock from power-up: the display shows the RTC's time *)

Section Startup.

Variable env : Env.
Variable cfg : Config.

Lemma homeDial_later sv p s :
  wlp (homeDial env cfg sv p) s (fun _ s' => later s s').
Proof.
  intros fuel.
  destruct (homeDial_run env cfg sv p fuel s) as (k & _ & [-> | [_ ->]]);
    unfold later; destruct sv; simpl; lia.
Qed.

(** Homing a dial whose home switch gets pressed. *)
Lemma homeDial_total sv p s :
  eventually env p LOW (tick s) ->
  returns (homeDial env cfg sv p) s (fun _ s' =>
    sameGlobals s s' /\ later s s' /\ counter sv s' = 0 /\
    forall sv', sv' <> sv -> counter sv' s' = counter sv' s).
Proof.
  intros He. eapply returns_conseq.
  - apply returns_wlp; [apply homeDial_returns, He|].
    apply wlp_and; [apply homeDial_wlp | apply homeDial_later].
  - intros u s' ((G & Ho & Hc & _) & L). auto.
Qed.

(** Homing both dials, in either order, and the first reconciliation. *)
Lemma homing_then_sync sv sv' p p' s :
  sv' <> sv ->
  (forall t, eventually env p LOW t) -> (forall t, eventually env p' LOW t) ->
  toggles env PIN_STEP_SWITCH_MINUTE -> toggles env PIN_STEP_SWITCH_HOUR ->
  validRtc env (rtc s) ->
  returns (homeDial env cfg sv p ;; homeDial env cfg sv' p' ;;
           syncClockToRTC env cfg) s
    (fun _ s' => currentMode s' = currentMode s /\ rtc s' = rtc s /\
                 showsRtc env s s').
Proof.
  intros Hne Hp Hp' TM TH V. apply returns_bind.
  eapply returns_conseq; [apply homeDial_total, Hp|].
  intros _ s1 ((Gm1 & _ & _ & _ & Gr1) & L1 & C1 & _). apply returns_bind.
  eapply returns_conseq; [apply homeDial_total, Hp'|].
  intros _ s2 ((Gm2 & _ & _ & _ & Gr2) & L2 & C2 & O2).
  specialize (O2 sv (not_eq_sym Hne)). rewrite C1 in O2.
  assert (Z : currentHourOnClock s2 = 0 /\ currentMinuteOnClock s2 = 0)
    by (destruct sv, sv'; simpl in *; try congruence; auto).
  destruct Z as [Zh Zm].
  assert (R2 : rtc s2 = rtc s) by congruence.
  destruct (V (tick s2)) as [Vh Vm]. rewrite <- R2 in Vh, Vm.
  eapply returns_conseq;
    [apply (syncClockToRTC_total env cfg s2 TH TM);
     unfold inRange; simpl; try rewrite Zh; try rewrite Zm;
     try lia; assumption|].
  intros _ s3 (((Gm3 & _ & _ & _ & Gr3) & T3 & _) & Eh & Em & _).
  split; [congruence|]. split; [congruence|].
  exists (tick s2). unfold later in *. rewrite Gr3.
  split; [lia | split; assumption].
Qed.

End Startup.

Section RtcExpanderClock.

Variable env : Env.
Hypothesis Hfound : rtc_found env = true.
Hypothesis Hlive : liveSwitches env.
Hypothesis Hmode : released env PIN_BTN_MODE_CANCEL.

Lemma RtcExpander_setup_total s :
  let base := if rtc_lostPower env then compileTime env else rtc s in
  validRtc env base ->
  returns (RtcExpander.setup env) s (fun _ s' =>
    currentMode s' = currentMode s /\ rtc s' = base /\ showsRtc env s s').
Proof.
  intros base V. destruct Hlive as (HM & HH & TM & TH).
  unfold RtcExpander.setup. rewrite Hfound. cbn [negb when].
  apply returns_bind, returns_ret, returns_bind.
  assert (K : forall s1,
    currentMode s1 = currentMode s -> rtc s1 = base ->
    (tick s <= tick s1)%nat ->
    returns
      (servoWrite servoMinute (SERVO_STOP_POSITION RtcExpander.cfg) ;;
       servoWrite servoHour (SERVO_STOP_POSITION RtcExpander.cfg) ;;
       goHomeHour env RtcExpander.cfg ;;
       goHomeMinute env RtcExpander.cfg ;;
       syncClockToRTC env RtcExpander.cfg) s1
      (fun _ s' => currentMode s' = currentMode s /\ rtc s' = base /\
                   showsRtc env s s')).
  { intros s1 Em Er Et.
    apply returns_bind, returns_modify, returns_bind, returns_modify.
    eapply returns_conseq;
      [apply (homing_then_sync env RtcExpander.cfg servoHour servoMinute
                PIN_HOME_SWITCH_HOUR PIN_HOME_SWITCH_MINUTE);
       try assumption; try discriminate; simpl; rewrite Er; exact V|].
    simpl. intros _ s' (Gm & Gr & (t & Ht & Eh & Emin)).
    split; [congruence|]. split; [congruence|].
    exists t. simpl in Ht. split; [lia | split; assumption]. }
  subst base. destruct (rtc_lostPower env); cbn [when].
  - apply returns_modify, K; simpl; try reflexivity; lia.
  - apply returns_ret, K; simpl; try reflexivity; lia.
Qed.

(** The handler in normal mode with the mode button released. *)
Lemma RtcExpander_handleButtons_idle s :
  currentMode s = NORMAL_MODE ->
  returns (RtcExpander.handleButtons env) s
    (fun _ s1 => exists n evs, s1 = io n evs s).
Proof.
  intros Hm. unfold RtcExpander.handleButtons.
  apply returns_bind, returns_millis, returns_bind, returns_get.
  destruct (inCooldown _ _); [apply returns_ret; eauto|].
  apply returns_bind, returns_get. norm_tick. rewrite Hm.
  apply returns_bind, returns_digitalRead. rewrite Hmode. cbn [Level_eqb when].
  apply returns_ret. rewrite io_io. eauto.
Qed.

Lemma RtcExpander_loop_total s :
  currentMode s = NORMAL_MODE ->
  inRange servoHour (currentHourOnClock s) ->
  inRange servoMinute (currentMinuteOnClock s) ->
  validRtc env (rtc s) ->
  returns (RtcExpander.loop env) s (fun _ s' =>
    currentMode s' = NORMAL_MODE /\ rtc s' = rtc s /\ showsRtc env s s').
Proof.
  intros Hm RH RM V. destruct Hlive as (_ & _ & TM & TH).
  unfold RtcExpander.loop. apply returns_bind.
  eapply returns_conseq; [apply RtcExpander_handleButtons_idle, Hm|].
  intros _ s1 (n & evs & ->). apply returns_bind, returns_get.
  cbn [currentMode io]. rewrite Hm. apply returns_bind.
  destruct (V (tick (io n evs s))) as [Vh Vm].
  eapply returns_conseq;
    [apply (syncClockToRTC_total env RtcExpander.cfg (io n evs s) TH TM);
     assumption|].
  intros _ s2 (((Gm & _ & _ & _ & Gr) & T & _) & Eh & Em & _).
  apply returns_ret. cbn in Gm, Gr, T, Eh, Em.
  split; [congruence|]. split; [exact Gr|].
  exists (tick s + n)%nat. rewrite Gr. split; [lia | split; assumption].
Qed.

End RtcExpanderClock.

Section RtcDirectClock.

Variable env : Env.
Hypothesis Hfound : rtc_found env = true.
Hypothesis Hlive : liveSwitches env.
Hypothesis Hmode : released env PIN_BTN_MODE_CANCEL.

Lemma RtcDirect_setup_total s :
  let base := if rtc_lostPower env then compileTime env else rtc s in
  validRtc env base ->
  returns (RtcDirect.setup env) s (fun _ s' =>
    currentMode s' = currentMode s /\ rtc s' = base /\ showsRtc env s s').
Proof.
  intros base V. destruct Hlive as (HM & HH & TM & TH).
  unfold RtcDirect.setup. rewrite Hfound. cbn [negb when].
  apply returns_bind, returns_modify, returns_bind, returns_modify.
  apply returns_bind, returns_ret, returns_bind.
  assert (K : forall s1,
    currentMode s1 = currentMode s -> rtc s1 = base ->
    (tick s <= tick s1)%nat ->
    returns
      (goHomeMinute env RtcDirect.cfg ;;
       goHomeHour env RtcDirect.cfg ;;
       syncClockToRTC env RtcDirect.cfg) s1
      (fun _ s' => currentMode s' = currentMode s /\ rtc s' = base /\
                   showsRtc env s s')).
  { intros s1 Em Er Et.
    eapply returns_conseq;
      [apply (homing_then_sync env RtcDirect.cfg servoMinute servoHour
                PIN_HOME_SWITCH_MINUTE PIN_HOME_SWITCH_HOUR);
       try assumption; try discriminate; rewrite Er; exact V|].
    simpl. intros _ s' (Gm & Gr & (t & Ht & Eh & Emin)).
    split; [congruence|]. split; [congruence|].
    exists t. split; [lia | split; assumption]. }
  subst base. destruct (rtc_lostPower env); cbn [when].
  - apply returns_modify, K; simpl; try reflexivity; lia.
  - apply returns_ret, K; simpl; try reflexivity; lia.
Qed.

Lemma RtcDirect_handleButtons_idle s :
  currentMode s = NORMAL_MODE ->
  returns (RtcDirect.handleButtons env) s
    (fun _ s1 => exists n evs, s1 = io n evs s).
Proof.
  intros Hm. unfold RtcDirect.handleButtons.
  apply returns_bind, returns_millis, returns_bind, returns_get.
  destruct (inCooldown _ _); [apply returns_ret; eauto|].
  apply returns_bind, returns_get. norm_tick. rewrite Hm.
  apply returns_bind, returns_digitalRead. rewrite Hmode. cbn [Level_eqb when].
  apply returns_ret. rewrite io_io. eauto.
Qed.

Lemma RtcDirect_loop_total s :
  currentMode s = NORMAL_MODE ->
  inRange servoHour (currentHourOnClock s) ->
  inRange servoMinute (currentMinuteOnClock s) ->
  validRtc env (rtc s) ->
  returns (RtcDirect.loop env) s (fun _ s' =>
    currentMode s' = NORMAL_MODE /\ rtc s' = rtc s /\ showsRtc env s s').
Proof.
  intros Hm RH RM V. destruct Hlive as (_ & _ & TM & TH).
  unfold RtcDirect.loop. apply returns_bind.
  eapply returns_conseq; [apply RtcDirect_handleButtons_idle, Hm|].
  intros _ s1 (n & evs & ->). apply returns_bind, returns_get.
  cbn [currentMode io]. rewrite Hm. apply returns_bind.
  destruct (V (tick (io n evs s))) as [Vh Vm].
  eapply returns_conseq;
    [apply (syncClockToRTC_total env RtcDirect.cfg (io n evs s) TH TM);
     assumption|].
  intros _ s2 (((Gm & _ & _ & _ & Gr) & T & _) & Eh & Em & _).
  apply returns_ret. cbn in Gm, Gr, T, Eh, Em.
  split; [congruence|]. split; [exact Gr|].
  exists (tick s + n)%nat. rewrite Gr. split; [lia | split; assumption].
Qed.

End RtcDirectClock.

(** A display that shows a valid RTC time has its counters in range. *)
Lemma showsRtc_inRange env s0 s :
  validRtc env (rtc s) -> showsRtc env s0 s ->
  inRange servoHour (currentHourOnClock s) /\
  inRange servoMinute (currentMinuteOnClock s).
Proof.
  intros V (t & _ & Eh & Em). destruct (V t) as [Vh Vm].
  unfold inRange. rewrite Eh, Em. simpl. lia.
Qed.

(** Passes of a [loop] that keeps the display on the RTC's time. *)
Lemma passes_show_rtc env (loop : Prog unit) (n : nat) s0 :
  (forall s, currentMode s = NORMAL_MODE ->
             inRange servoHour (currentHourOnClock s) ->
             inRange servoMinute (currentMinuteOnClock s) ->
             validRtc env (rtc s) ->
             returns loop s (fun _ s' =>
               currentMode s' = NORMAL_MODE /\ rtc s' = rtc s /\
               showsRtc env s s')) ->
  forall s, currentMode s = NORMAL_MODE -> validRtc env (rtc s) ->
            showsRtc env s0 s ->
  returns (invocations n loop) s (fun _ s' =>
    currentMode s' = NORMAL_MODE /\ rtc s' = rtc s /\ showsRtc env s0 s').
Proof.
  intros Hloop. induction n as [|n IH]; intros s Hm V Hs.
  - apply returns_ret. auto.
  - cbn [invocations]. apply returns_bind.
    destruct (showsRtc_inRange env s0 s V Hs) as [RH RM].
    eapply returns_conseq; [apply (Hloop s Hm RH RM V)|].
    intros _ s1 (Hm1 & Hr1 & (t1 & Ht1 & E1)).
    assert (Hs1 : showsRtc env s0 s1).
    { destruct Hs as (t & Ht & _). exists t1. split; [lia | exact E1]. }
    eapply returns_conseq;
      [apply (IH s1 Hm1); [rewrite Hr1; exact V | exact Hs1]|].
    intros _ s2 (Hm2 & Hr2 & Hs2). split; [exact Hm2|].
    split; [congruence | exact Hs2].
Qed.

(** X11.  The RTC sketches from power-up, left alone.  If the chip is found,
    the dials turn when driven (home switches get pressed, step switches
    keep toggling), the mode button is not pressed and the RTC reports valid
    times, then [setup] followed by any number of passes of [loop] returns,
    still in normal mode, with the display showing the hour and minute the
    RTC reported at some instant of the run; the RTC holds the time it held
    at power-up, or the compile time if it had lost power. *)
Theorem X11_rtc_clock_shows_rtc_time env (n : nat) s :
  let base := if rtc_lostPower env then compileTime env else rtc s in
  rtc_found env = true ->
  liveSwitches env ->
  released env PIN_BTN_MODE_CANCEL ->
  validRtc env base ->
  currentMode s = NORMAL_MODE ->
  returns (RtcExpander.sketch env n) s (fun _ s' =>
    currentMode s' = NORMAL_MODE /\ rtc s' = base /\ showsRtc env s s') /\
  returns (RtcDirect.sketch env n) s (fun _ s' =>
    currentMode s' = NORMAL_MODE /\ rtc s' = base /\ showsRtc env s s').
Proof.
  intros base Hfound Hlive Hrel V Hm. subst base. split.
  - unfold RtcExpander.sketch. apply returns_bind.
    eapply returns_conseq;
      [apply (RtcExpander_setup_total env Hfound Hlive s V)|].
    intros _ s1 (Hm1 & Hr1 & Hs1).
    eapply returns_conseq;
      [apply (passes_show_rtc env (RtcExpander.loop env) n s);
       [intros s2; apply (RtcExpander_loop_total env Hlive Hrel s2)
       | congruence | rewrite Hr1; exact V | exact Hs1]|].
    intros _ s2 (Hm2 & Hr2 & Hs2). split; [exact Hm2|].
    split; [congruence | exact Hs2].
  - unfold RtcDirect.sketch. apply returns_bind.
    eapply returns_conseq;
      [apply (RtcDirect_setup_total env Hfound Hlive s V)|].
    intros _ s1 (Hm1 & Hr1 & Hs1).
    eapply returns_conseq;
      [apply (passes_show_rtc env (RtcDirect.loop env) n s);
       [intros s2; apply (RtcDirect_loop_total env Hlive Hrel s2)
       | congruence | rewrite Hr1; exact V | exact Hs1]|].
    intros _ s2 (Hm2 & Hr2 & Hs2). split; [exact Hm2|].
    split; [congruence | exact Hs2].
Qed.

Lemma panelEnv_live held : liveSwitches (panelEnv held).
Proof.
  repeat split; try (intros t; apply toggles_eventually);
    apply panelEnv_toggles; reflexivity.
Qed.

(** The panel with no button held, the RTC at 02:03: [setup] and five
    passes. *)
Lemma X11_witness :
  let env := panelEnv (fun _ => false) in
  let s := bootState (mkDateTime 2025 6 23 2 3 0) in
  returns (RtcExpander.sketch env 5) s (fun _ s' =>
    currentMode s' = NORMAL_MODE /\ rtc s' = mkDateTime 2025 6 23 2 3 0 /\
    showsRtc env s s').
Proof.
  intros env s.
  apply (X11_rtc_clock_shows_rtc_time env 5 s).
  - reflexivity.
  - apply panelEnv_live.
  - intros t. reflexivity.
  - intros t. simpl. lia.
  - reflexivity.
Defined.

(** ** A time source that reports no position of the dial *)

Lemma offDial_kept sv s s' target :
  inRange sv (counter sv s) -> offDial sv (counter sv s) target ->
  keeps sv s s' -> counter sv s' <> target.
Proof.
  unfold inRange, offDial. intros R [Hv Hne] [K1 K2] E.
  specialize (K1 R). unfold inRange in K1. rewrite E in K1, K2.
  destruct (Z.eq_dec target (-1)) as [->|N]; [|lia].
  assert (0 <= counter sv s) by lia. specialize (K2 H). lia.
Qed.

Lemma offDial_step sv c target :
  inRange sv c -> offDial sv c target ->
  inRange sv (c_rem (c + 1) (dialRange sv)) /\
  offDial sv (c_rem (c + 1) (dialRange sv)) target.
Proof.
  intros R [Hv Hne]. split; [apply c_rem_inRange, R|].
  split; [exact Hv|]. intros E. apply Hv. rewrite <- E.
  unfold inRange, c_rem in *. destruct sv; simpl in *;
    Z.quot_rem_to_equations; lia.
Qed.

Section Spinning.

Variable cfg : Config.

(** The loop [while (counter != target) { step(); }] when [target] is no
    position of the dial: it never returns, and with a [step] that returns
    it advances the dial as often as one lets it run. *)
Lemma advanceLoop_spins sv (step : Prog unit) target :
  (forall s0, wlp step s0 (fun r s' => stepped cfg sv r s0 s')) ->
  forall s, inRange sv (counter sv s) -> offDial sv (counter sv s) target ->
  (forall fuel,
     fst (while (c <- get (counter sv) ;; ret (negb (c =? target))) step
            fuel s) = None) /\
  ((forall s0, returns step s0 (fun _ _ => True)) ->
   forall N : nat, exists F, forall fuel, (F <= fuel)%nat ->
     let r := while (c <- get (counter sv) ;; ret (negb (c =? target))) step
                fuel s in
     (advancesOf sv (trace s) + N <= advancesOf sv (trace (snd r)))%nat).
Proof.
  intros Hstep s R O. split.
  - intros fuel.
    pose proof (advanceLoop_wlp cfg sv step target s Hstep fuel) as H.
    destruct (fst _) as [[]|]; [|reflexivity].
    destruct H as ((_ & _ & _ & Km & Kh) & _ & E). exfalso.
    eapply (offDial_kept sv s _ target R O); [|apply E; reflexivity].
    destruct sv; assumption.
  - intros Hret N. revert s R O. induction N as [|N IH]; intros s R O.
    + exists 0%nat. intros fuel _. cbv zeta.
      destruct (advanceLoop_wlp cfg sv step target s Hstep fuel)
        as ((_ & _ & (evs & E & _) & _) & _).
      rewrite E, advancesOf_app. lia.
    + destruct (Hret s) as (N0 & [] & s1 & Hrun & _).
      pose proof (Hstep s N0) as Hs. rewrite (Hrun N0) in Hs by lia.
      simpl in Hs. destruct Hs as (_ & _ & Hc & Hn).
      destruct (offDial_step sv _ target R O) as [R1 O1].
      rewrite <- Hc in R1, O1.
      destruct (IH s1 R1 O1) as (F1 & HF1).
      exists (S (Nat.max N0 F1)). intros [|n] Hn'; [lia|]. cbv zeta.
      simpl while. unfold bind at 1, get, ret. simpl.
      destruct (Z.eqb_spec (counter sv s) target) as [E|_];
        [destruct O as [_ O]; contradiction|].
      simpl. rewrite Hrun by lia.
      specialize (HF1 n ltac:(lia)). cbv zeta in HF1. specialize (Hn sv).
      rewrite Servo_eqb_refl in Hn.
      eapply Nat.le_trans; [|exact HF1]. lia.
Qed.

End Spinning.

(** X12.  Reconciliation against a reading that is no position of a dial
    (an hour outside 0..23 or a minute outside 0..59, as a failed bus read
    gives) and that the counter does not already hold: [syncClockToRTC]
    never returns, and when the hour is the bad value and the hour dial
    turns, the dial is advanced again and again, beyond any number of
    advances. *)
Theorem X12_reading_off_the_dial env cfg s :
  let now := rtc_time env (tick s) (rtc s) in
  inRange servoHour (currentHourOnClock s) ->
  inRange servoMinute (currentMinuteOnClock s) ->
  (offDial servoHour (currentHourOnClock s) (hour now)
   \/ offDial servoMinute (currentMinuteOnClock s) (minute now) ->
   forall fuel, fst (syncClockToRTC env cfg fuel s) = None) /\
  (offDial servoHour (currentHourOnClock s) (hour now) ->
   toggles env PIN_STEP_SWITCH_HOUR ->
   forall N : nat, exists F, forall fuel, (F <= fuel)%nat ->
     (advancesOf servoHour (trace s) + N
      <= advancesOf servoHour
           (trace (snd (syncClockToRTC env cfg fuel s))))%nat).
Proof.
  intros now RH RM. split.
  - intros O fuel. pose proof (syncClockToRTC_wlp env cfg s fuel) as H.
    destruct (fst _) as [[]|]; [|reflexivity].
    destruct H as ((_ & _ & _ & Km & Kh) & E).
    destruct (E eq_refl) as [Eh Em]. exfalso. destruct O as [O | O].
    + apply (offDial_kept servoHour s _ (hour now) RH O Kh), Eh.
    + apply (offDial_kept servoMinute s _ (minute now) RM O Km), Em.
  - intros O TH N.
    destruct (advanceLoop_spins cfg servoHour (moveHourToNext env cfg)
                (hour now) (moveHourToNext_wlp env cfg) (io 1 [] s) RH O)
      as [Hnone Hspin].
    destruct (Hspin (fun s0 => moveHourToNext_returns env cfg s0 TH) N)
      as (F & HF).
    exists F. intros fuel Hfuel. specialize (HF fuel Hfuel).
    specialize (Hnone fuel).
    unfold syncClockToRTC, bind at 1, rtc_now. fold now. cbv zeta.
    unfold bind at 1. simpl counter in Hnone, HF.
    destruct (while _ (moveHourToNext env cfg) fuel (io 1 [] s))
      as [r s1]. simpl in Hnone, HF. subst r.
    simpl. rewrite app_nil_r in HF. exact HF.
Qed.

(** The RTC reports hour 165 to an unhomed clock. *)
Lemma X12_witness :
  fst (syncClockToRTC garbledRtcEnv RtcExpander.cfg 200%nat
         (bootState (mkDateTime 2025 6 23 12 0 0))) = None.
Proof.
  apply (X12_reading_off_the_dial garbledRtcEnv RtcExpander.cfg
           (bootState (mkDateTime 2025 6 23 12 0 0))).
  - unfold inRange; simpl; lia.
  - unfold inRange; simpl; lia.
  - left. unfold offDial; simpl; lia.
Defined.

(** ** A display that is right already *)

Lemma syncClockToRTC_idle env cfg fuel s :
  hour (rtc_time env (tick s) (rtc s)) = currentHourOnClock s ->
  minute (rtc_time env (tick s) (rtc s)) = currentMinuteOnClock s ->
  syncClockToRTC env cfg (S fuel) s = (Some tt, io 1 [] s).
Proof.
  intros Eh Em. unfold syncClockToRTC, bind, rtc_now, get, ret. simpl.
  rewrite Eh, Em, Z.eqb_refl. simpl. rewrite Z.eqb_refl. reflexivity.
Qed.

(** X13.  A pass of [loop] that finds the display equal to the reading of
    the time source sends no servo command and changes no counter: the WiFi
    [loop] takes its three samples of the NTP client; the [loop] of an RTC
    sketch in normal mode, during the cooldown or with the mode button
    released, only reads the clock, possibly the button, and the RTC. *)
Theorem X13_right_time_no_motion env s fuel :
  (ntp_minutes_at env (tick s + 1) = currentMinuteOnClock s ->
   ntp_hours_at env (tick s + 2) = currentHourOnClock s ->
   WiFi.loop env fuel s = (Some tt, io 3 [] s)) /\
  (currentMode s = NORMAL_MODE ->
   notInCooldown env s ->
   sampled env s 1 PIN_BTN_MODE_CANCEL HIGH ->
   hour (rtc_time env (tick s + 2) (rtc s)) = currentHourOnClock s ->
   minute (rtc_time env (tick s + 2) (rtc s)) = currentMinuteOnClock s ->
   RtcExpander.loop env (S fuel) s
   = (Some tt, io 3 [EvDigitalRead PIN_BTN_MODE_CANCEL HIGH] s) /\
   RtcDirect.loop env (S fuel) s
   = (Some tt, io 3 [EvDigitalRead PIN_BTN_MODE_CANCEL HIGH] s)) /\
  (currentMode s = NORMAL_MODE ->
   inCooldown (millis_at env (tick s)) (lastButtonPressTime s) = true ->
   hour (rtc_time env (tick s + 1) (rtc s)) = currentHourOnClock s ->
   minute (rtc_time env (tick s + 1) (rtc s)) = currentMinuteOnClock s ->
   RtcExpander.loop env (S fuel) s = (Some tt, io 2 [] s) /\
   RtcDirect.loop env (S fuel) s = (Some tt, io 2 [] s)).
Proof.
  split; [|split].
  - intros Em Eh. revert fuel. apply wlp_run. unfold WiFi.loop.
    apply wlp_bind, (wlp_sample _ (ntp_update_at env (tick s)));
      [reflexivity|].
    apply wlp_bind, (wlp_sample _ (ntp_minutes_at env (tick s + 1)));
      [reflexivity|].
    apply wlp_bind, (wlp_sample _ (ntp_hours_at env (tick s + 1 + 1)));
      [reflexivity|].
    replace (tick s + 1 + 1)%nat with (tick s + 2)%nat by lia.
    rewrite Em, Eh. apply wlp_bind, wlp_get.
    cbn [currentMinuteOnClock io]. rewrite Z.eqb_refl. cbn [negb when].
    apply wlp_bind, wlp_ret, wlp_bind, wlp_get.
    cbn [currentHourOnClock io]. rewrite Z.eqb_refl. cbn [negb when].
    apply wlp_bind, wlp_ret, wlp_ret. split; [reflexivity|]. state_eq.
  - intros Hmode Hcool Hb Eh Em.
    assert (Hsync : forall cfg,
      syncClockToRTC env cfg (S fuel)
        (io 2 [EvDigitalRead PIN_BTN_MODE_CANCEL HIGH] s)
      = (Some tt, io 1 [] (io 2 [EvDigitalRead PIN_BTN_MODE_CANCEL HIGH] s)))
      by (intros cfg; apply syncClockToRTC_idle; assumption).
    assert (Hh : forall fuel',
      RtcExpander.handleButtons env fuel' s
      = (Some tt, io 2 [EvDigitalRead PIN_BTN_MODE_CANCEL HIGH] s) /\
      RtcDirect.handleButtons env fuel' s
      = (Some tt, io 2 [EvDigitalRead PIN_BTN_MODE_CANCEL HIGH] s)).
    { intros fuel'. split; revert fuel'; apply wlp_run.
      - unfold RtcExpander.handleButtons. enter Hcool Hmode. read_button Hb.
        apply wlp_ret. split; [reflexivity|]. state_eq.
      - unfold RtcDirect.handleButtons. enter Hcool Hmode. read_button Hb.
        apply wlp_ret. split; [reflexivity|]. state_eq. }
    unfold RtcExpander.loop, RtcDirect.loop.
    rewrite (bind_Some _ _ _ _ _ _ (proj1 (Hh (S fuel)))).
    rewrite (bind_Some _ _ _ _ _ _ (proj2 (Hh (S fuel)))).
    unfold bind at 1 3, get. cbn [currentMode io]. rewrite Hmode.
    rewrite !(bind_Some _ _ _ _ _ _ (Hsync _)). unfold delay, ret.
    split; state_eq.
  - intros Hmode Hcool Eh Em.
    assert (Hsync : forall cfg,
      syncClockToRTC env cfg (S fuel) (io 1 [] s)
      = (Some tt, io 1 [] (io 1 [] s)))
      by (intros cfg; apply syncClockToRTC_idle; assumption).
    destruct (handleButtons_cooldown env s (S fuel) Hcool) as [H1 H2].
    unfold RtcExpander.loop, RtcDirect.loop.
    rewrite (bind_Some _ _ _ _ _ _ H1), (bind_Some _ _ _ _ _ _ H2).
    unfold bind at 1 3, get. cbn [currentMode io]. rewrite Hmode.
    rewrite !(bind_Some _ _ _ _ _ _ (Hsync _)). unfold delay, ret.
    split; state_eq.
Qed.

(** The bench at 02:03, the display at 02:03. *)
Lemma X13_witness :
  WiFi.loop benchEnv 10%nat syncedState = (Some tt, io 3 [] syncedState).
Proof.
  apply (X13_right_time_no_motion benchEnv syncedState 10%nat); reflexivity.
Defined.

(** ** [setup] of the WiFi sketch *)

Section WiFiSetup.

Variable env : Env.

Lemma wifi_wait_never fuel s :
  (forall t, wifi_connected_at env t = false) ->
  while (c <- WiFi.wifiConnected env ;; ret (negb c)) (delay 500) fuel s
  = (None, io fuel [] s).
Proof.
  intros Hoff. revert s. induction fuel as [|n IH]; intros s.
  - simpl. now rewrite io_0_nil.
  - simpl while. unfold bind at 1, WiFi.wifiConnected, ret. simpl.
    rewrite Hoff. simpl. unfold delay, ret. rewrite IH, io_io. reflexivity.
Qed.

Lemma wifi_wait_returns s :
  (exists t, (tick s <= t)%nat /\ wifi_connected_at env t = true) ->
  returns (while (c <- WiFi.wifiConnected env ;; ret (negb c)) (delay 500)) s
    (fun _ s' => exists k, s' = io k [] s).
Proof.
  intros (t & Ht & Hc).
  remember (t - tick s)%nat as n eqn:Hn.
  revert s Ht Hn. induction n as [|n IH]; intros s Ht Hn;
    apply returns_while, returns_bind,
      (returns_sample _ (wifi_connected_at env (tick s))); try reflexivity;
    apply returns_ret.
  - replace (tick s) with t by lia. rewrite Hc. simpl. eauto.
  - destruct (wifi_connected_at env (tick s)); simpl; [eauto|].
    apply returns_ret.
    eapply returns_conseq; [apply IH; simpl; lia|].
    intros _ s' (k & ->). rewrite io_io. eauto.
Qed.

Lemma ntp_wait_returns s :
  (exists T, forall t, (T <= t)%nat -> ntp_update_at env t = true) ->
  returns (while (u <- WiFi.timeClient_update env ;; ret (negb u))
                 (_ <- WiFi.timeClient_forceUpdate env ;; ret tt)) s
    (fun _ s' => exists k, s' = io k [] s).
Proof.
  intros (T & HT).
  remember (T - tick s)%nat as n eqn:Hn.
  assert (Hle : (T - tick s <= n)%nat) by lia. clear Hn.
  revert s Hle. induction n as [|n IH]; intros s Hle;
    apply returns_while, returns_bind,
      (returns_sample _ (ntp_update_at env (tick s))); try reflexivity;
    apply returns_ret.
  - rewrite HT by lia. simpl. eauto.
  - destruct (ntp_update_at env (tick s)); simpl; [eauto|].
    apply returns_bind,
      (returns_sample _ (ntp_update_at env (tick (io 1 [] s))));
      [reflexivity|].
    apply returns_ret.
    eapply returns_conseq; [apply IH; simpl; lia|].
    intros _ s' (k & ->). rewrite !io_io. eauto.
Qed.

Lemma homingEvent_homingOnly sv p old e :
  p = PIN_HOME_SWITCH_MINUTE \/ p = PIN_HOME_SWITCH_HOUR ->
  homingEvent WiFi.cfg sv p old e -> homingOnly WiFi.cfg e.
Proof.
  intros Hp. destruct e as [sv' v|p' l| |sv' o n]; simpl; try tauto.
  - intros [-> H]. exact H.
  - intros ->. exact Hp.
Qed.

(** Homing a dial of the WiFi clock whose home switch gets pressed. *)
Lemma WiFi_home_total sv p s :
  p = PIN_HOME_SWITCH_MINUTE \/ p = PIN_HOME_SWITCH_HOUR ->
  eventually env p LOW (tick s) ->
  returns (homeDial env WiFi.cfg sv p) s (fun _ s' =>
    counter sv s' = 0 /\
    (forall sv', sv' <> sv -> counter sv' s' = counter sv' s) /\
    logged (homingOnly WiFi.cfg) s s').
Proof.
  intros Hp He. eapply returns_conseq.
  - apply returns_wlp; [apply homeDial_returns, He | apply homeDial_wlp].
  - intros u s' (_ & Ho & Hc & L). split; [exact Hc|]. split; [exact Ho|].
    eapply logged_impl; [|exact L]. intros e.
    apply homingEvent_homingOnly, Hp.
Qed.

(** [setup] once the connection comes up, the home switches get pressed
    and the NTP client obtains the time. *)
Lemma WiFi_setup_total s :
  (exists t, (tick s <= t)%nat /\ wifi_connected_at env t = true) ->
  (forall t, eventually env PIN_HOME_SWITCH_MINUTE LOW t) ->
  (forall t, eventually env PIN_HOME_SWITCH_HOUR LOW t) ->
  (exists T, forall t, (T <= t)%nat -> ntp_update_at env t = true) ->
  returns (WiFi.setup env) s (fun _ s' =>
    currentMinuteOnClock s' = 0 /\ currentHourOnClock s' = 0 /\
    logged (homingOnly WiFi.cfg) s s').
Proof.
  intros (t & Ht & Hc) HM HH Hn. unfold WiFi.setup.
  apply returns_bind, returns_modify, returns_bind, returns_modify.
  apply returns_bind.
  eapply returns_conseq;
    [apply wifi_wait_returns; exists t; split; [simpl; lia | exact Hc]|].
  intros _ s1 (k & ->). rewrite !io_io. apply returns_bind.
  eapply returns_conseq;
    [apply (WiFi_home_total servoMinute PIN_HOME_SWITCH_MINUTE);
     [left; reflexivity | apply HM]|].
  intros _ s2 (C2 & _ & L2). apply returns_bind.
  eapply returns_conseq;
    [apply (WiFi_home_total servoHour PIN_HOME_SWITCH_HOUR);
     [right; reflexivity | apply HH]|].
  intros _ s3 (C3 & O3 & L3).
  eapply returns_conseq; [apply ntp_wait_returns, Hn|].
  intros _ s4 (k4 & ->). simpl.
  specialize (O3 servoMinute ltac:(discriminate)). simpl in O3, C2, C3.
  split; [congruence|]. split; [exact C3|].
  eapply logged_trans; [|apply logged_io; constructor].
  eapply logged_trans; [|exact L3].
  eapply logged_trans; [|exact L2].
  apply logged_io. repeat constructor; simpl; auto.
Qed.

End WiFiSetup.

(** X14.  Without a WiFi connection [setup] of the WiFi sketch never
    returns: after the two stop pulses it only polls the connection, so
    the dials are not homed and no servo is ever driven. *)
Theorem X14_wifi_setup_waits_for_connection env s fuel :
  (forall t, wifi_connected_at env t = false) ->
  WiFi.setup env fuel s
  = (None, io fuel [EvServoWrite servoMinute 90; EvServoWrite servoHour 90] s).
Proof.
  intros Hoff. unfold WiFi.setup, bind at 1 2, servoWrite, modify.
  rewrite (bind_None _ _ _ _ _ (wifi_wait_never env fuel _ Hoff)).
  rewrite !io_io. reflexivity.
Qed.

Lemma X14_witness :
  let s := bootState (mkDateTime 2025 6 23 12 0 0) in
  WiFi.setup offlineEnv 40%nat s
  = (None, io 40 [EvServoWrite servoMinute 90; EvServoWrite servoHour 90] s).
Proof.
  intros s. apply (X14_wifi_setup_waits_for_connection offlineEnv s 40%nat).
  intros t. reflexivity.
Defined.

(** X15.  [setup] of the WiFi sketch, once the connection comes up, the
    home switches get pressed and the NTP client obtains the time: it
    returns with the display homed at 00:00.  It has logged only stop
    pulses, the forward commands of homing, reads of the two home switches
    and the two counters set to 0: it does not move the display to the
    time, which is left to the passes of [loop]. *)
Theorem X15_wifi_setup_homes_only env s :
  (exists t, (tick s <= t)%nat /\ wifi_connected_at env t = true) ->
  (forall t, eventually env PIN_HOME_SWITCH_MINUTE LOW t) ->
  (forall t, eventually env PIN_HOME_SWITCH_HOUR LOW t) ->
  (exists T, forall t, (T <= t)%nat -> ntp_update_at env t = true) ->
  returns (WiFi.setup env) s (fun _ s' =>
    currentMinuteOnClock s' = 0 /\ currentHourOnClock s' = 0 /\
    logged (homingOnly WiFi.cfg) s s').
Proof.
  apply WiFi_setup_total.
Qed.

Lemma X15_witness :
  returns (WiFi.setup benchEnv) (bootState (mkDateTime 2025 6 23 12 0 0))
    (fun _ s' =>
       currentMinuteOnClock s' = 0 /\ currentHourOnClock s' = 0 /\
       logged (homingOnly WiFi.cfg)
         (bootState (mkDateTime 2025 6 23 12 0 0)) s').
Proof.
  apply (X15_wifi_setup_homes_only benchEnv
           (bootState (mkDateTime 2025 6 23 12 0 0))).
  - exists 0%nat. split; [simpl; lia | reflexivity].
  - intros t. apply toggles_eventually, benchEnv_toggles.
  - intros t. apply toggles_eventually, benchEnv_toggles.
  - exists 0%nat. intros t _. reflexivity.
Defined.

(** ** The WiFi clock from power-up *)

Lemma distance_from_home sv target :
  0 <= target < dialRange sv -> distance sv 0 target = Z.to_nat target.
Proof.
  intros H. unfold distance. simpl. rewrite Z.sub_0_r, Z.mod_small by exact H.
  reflexivity.
Qed.

(** X16.  The WiFi sketch from power-up, while the NTP client reports
    [h]:[m]: once the connection is up, with dials that turn when driven,
    [setup] followed by [k] passes of [loop] returns with the display at
    [h]:[m] as soon as [k] is at least [h] and at least [m].  The display
    leaves 00:00 one step per pass and dial, so [max h m] passes are needed
    and suffice. *)
Theorem X16_wifi_clock_reaches_ntp_time env h m (k : nat) s :
  (exists t, (tick s <= t)%nat /\ wifi_connected_at env t = true) ->
  liveSwitches env ->
  (exists T, forall t, (T <= t)%nat -> ntp_update_at env t = true) ->
  (forall t, ntp_hours_at env t = h /\ ntp_minutes_at env t = m) ->
  0 <= h < 24 -> 0 <= m < 60 ->
  h <= Z.of_nat k -> m <= Z.of_nat k ->
  returns (WiFi.sketch env k) s (fun _ s' =>
    currentHourOnClock s' = h /\ currentMinuteOnClock s' = m).
Proof.
  intros Hw (HM & HH & TM & TH) Hn Hconst Hh Hm Kh Km.
  unfold WiFi.sketch. apply returns_bind.
  eapply returns_conseq; [apply (WiFi_setup_total env s Hw HM HH Hn)|].
  intros _ s1 (Zm & Zh & _).
  assert (RH : inRange servoHour (currentHourOnClock s1))
    by (rewrite Zh; unfold inRange; simpl; lia).
  assert (RM : inRange servoMinute (currentMinuteOnClock s1))
    by (rewrite Zm; unfold inRange; simpl; lia).
  eapply returns_conseq;
    [apply (WiFi_passes env h m k s1 TH TM Hconst Hh Hm RH RM)|].
  intros _ s2 (R1 & R2 & D1 & D2).
  rewrite Zh, (distance_from_home servoHour h Hh) in D1.
  rewrite Zm, (distance_from_home servoMinute m Hm) in D2.
  split.
  - apply (distance_0 servoHour _ h R1 Hh). lia.
  - apply (distance_0 servoMinute _ m R2 Hm). lia.
Qed.

Lemma benchEnv_live : liveSwitches benchEnv.
Proof.
  repeat split; try (intros t; apply toggles_eventually);
    apply benchEnv_toggles.
Qed.

(** The bench reports 02:03: three passes. *)
Lemma X16_witness :
  returns (WiFi.sketch benchEnv 3) (bootState (mkDateTime 2025 6 23 12 0 0))
    (fun _ s' => currentHourOnClock s' = 2 /\ currentMinuteOnClock s' = 3).
Proof.
  apply (X16_wifi_clock_reaches_ntp_time benchEnv 2 3 3
           (bootState (mkDateTime 2025 6 23 12 0 0))).
  - exists 0%nat. split; [simpl; lia | reflexivity].
  - apply benchEnv_live.
  - exists 0%nat. intros t _. reflexivity.
  - intros t. split; reflexivity.
  - lia.
  - lia.
  - lia.
  - lia.
Defined.

(** ** The two dials do not interfere *)

Lemma motionEvent_ownEvent cfg sv p e :
  ownSwitch sv p -> motionEvent cfg sv p e -> ownEvent sv e.
Proof.
  intros Hp. destruct e as [sv' v|p' l| |]; simpl; try tauto.
  intros ->. exact Hp.
Qed.

Lemma homingEvent_ownEvent cfg sv p old e :
  ownSwitch sv p -> homingEvent cfg sv p old e -> ownEvent sv e.
Proof.
  intros Hp. destruct e as [sv' v|p' l| |sv' o n]; simpl; try tauto.
  intros ->. exact Hp.
Qed.

Section Independence.

Variable env : Env.
Variable cfg : Config.

Lemma homeDial_own sv sv' p s :
  ownSwitch sv p -> sv' <> sv ->
  wlp (homeDial env cfg sv p) s (fun _ s' =>
    sameGlobals s s' /\ counter sv' s' = counter sv' s /\
    logged (ownEvent sv) s s').
Proof.
  intros Hp Hne. eapply wlp_conseq; [apply homeDial_wlp|].
  intros r s' (G & Ho & _ & L). split; [exact G|]. split; [apply Ho, Hne|].
  eapply logged_impl; [|exact L]. intros e.
  apply homingEvent_ownEvent, Hp.
Qed.

Lemma moveMinuteStep_own s :
  wlp (moveMinuteStep env cfg) s (fun _ s' =>
    sameGlobals s s' /\ currentHourOnClock s' = currentHourOnClock s /\
    logged (ownEvent servoMinute) s s').
Proof.
  assert (Hp : ownSwitch servoMinute PIN_STEP_SWITCH_MINUTE)
    by (right; reflexivity).
  intros fuel.
  destruct (moveMinuteStep_run env cfg fuel s)
    as [(n & evs & -> & H) | (n & evs & -> & H)]; simpl fst; simpl snd;
    (split; [repeat split|]); (split; [reflexivity|]).
  - apply logged_io. eapply Forall_impl; [|exact H].
    intros e. apply motionEvent_ownEvent, Hp.
  - eexists. split; [reflexivity|]. apply Forall_app. split.
    + eapply Forall_impl; [|apply stepTrace_motion, H].
      intros e. apply motionEvent_ownEvent, Hp.
    + repeat constructor.
Qed.

Lemma moveHourToNext_own s :
  wlp (moveHourToNext env cfg) s (fun _ s' =>
    sameGlobals s s' /\ currentMinuteOnClock s' = currentMinuteOnClock s /\
    logged (ownEvent servoHour) s s').
Proof.
  assert (Hp : ownSwitch servoHour PIN_STEP_SWITCH_HOUR)
    by (right; reflexivity).
  assert (Hown : forall evs,
    Forall (motionEvent cfg servoHour PIN_STEP_SWITCH_HOUR) evs ->
    Forall (ownEvent servoHour) evs).
  { intros evs H. eapply Forall_impl; [|exact H].
    intros e. apply motionEvent_ownEvent, Hp. }
  intros fuel.
  destruct (moveHourToNext_run env cfg fuel s)
    as [(n & evs & -> & H) | (n & e1 & e2 & -> & H1 & H2)];
    simpl fst; simpl snd;
    (split; [repeat split|]); (split; [reflexivity|]).
  - apply logged_io, Hown, H.
  - eexists. split; [reflexivity|].
    repeat (apply Forall_app; split);
      try (apply Hown, stepTrace_motion; assumption).
    repeat constructor.
Qed.

End Independence.

(** X17.  Each movement routine works on its own dial only, wherever its
    run stops: a minute advance or a minute homing leaves the hour counter
    alone (no carry when the minutes wrap from 59 to 0), commands only the
    minute servo and reads only the minute dial's switches, and likewise for
    the hour dial; none of them changes the mode, the scratch variables,
    the press time or the RTC. *)
Theorem X17_dials_do_not_interfere env cfg s :
  wlp (moveMinuteStep env cfg) s (fun _ s' =>
    sameGlobals s s' /\ currentHourOnClock s' = currentHourOnClock s /\
    logged (ownEvent servoMinute) s s') /\
  wlp (goHomeMinute env cfg) s (fun _ s' =>
    sameGlobals s s' /\ currentHourOnClock s' = currentHourOnClock s /\
    logged (ownEvent servoMinute) s s') /\
  wlp (moveHourToNext env cfg) s (fun _ s' =>
    sameGlobals s s' /\ currentMinuteOnClock s' = currentMinuteOnClock s /\
    logged (ownEvent servoHour) s s') /\
  wlp (goHomeHour env cfg) s (fun _ s' =>
    sameGlobals s s' /\ currentMinuteOnClock s' = currentMinuteOnClock s /\
    logged (ownEvent servoHour) s s').
Proof.
  split; [|split; [|split]].
  - apply moveMinuteStep_own.
  - apply (homeDial_own env cfg servoMinute servoHour);
      [left; reflexivity | discriminate].
  - apply moveHourToNext_own.
  - apply (homeDial_own env cfg servoHour servoMinute);
      [left; reflexivity | discriminate].
Qed.

(** ** The increments of setting mode complete *)

Ltac ret_prims :=
  repeat match goal with
         | |- returns (bind _ _) _ _ => apply returns_bind; ret_prim
         end.

Section Increments.

Variable env : Env.
Variable s : State.
Hypothesis Hcool : notInCooldown env s.
Hypothesis Hmode : currentMode s = SETTING_MODE.

Lemma RtcExpander_hour_inc_returns :
  sampled env s 1 PIN_BTN_HOUR_INC LOW ->
  toggles env PIN_STEP_SWITCH_HOUR ->
  returns (RtcExpander.handleButtons env) s (fun _ _ => True).
Proof.
  intros Hh TH. unfold RtcExpander.handleButtons.
  ret_enter Hcool Hmode. ret_read_button Hh. ret_prims.
  apply moveHourToNext_returns, TH.
Qed.

Lemma RtcExpander_minute_inc_returns :
  sampled env s 1 PIN_BTN_HOUR_INC HIGH ->
  sampled env s 2 PIN_BTN_MINUTE_INC LOW ->
  toggles env PIN_STEP_SWITCH_MINUTE ->
  returns (RtcExpander.handleButtons env) s (fun _ _ => True).
Proof.
  intros Hh Hm TM. unfold RtcExpander.handleButtons.
  ret_enter Hcool Hmode. ret_read_button Hh. ret_read_button Hm. ret_prims.
  apply moveMinuteStep_returns, TM.
Qed.

Lemma RtcDirect_hour_inc_returns :
  sampled env s 1 PIN_BTN_HOUR_INC LOW ->
  released env PIN_BTN_MINUTE_INC -> released env PIN_BTN_SAVE ->
  released env PIN_BTN_MODE_CANCEL ->
  toggles env PIN_STEP_SWITCH_HOUR ->
  returns (RtcDirect.handleButtons env) s (fun _ _ => True).
Proof.
  intros Hh Rm Rs Rc TH. unfold RtcDirect.handleButtons.
  ret_enter Hcool Hmode. ret_read_button Hh. apply returns_bind. ret_prims.
  eapply returns_conseq; [apply moveHourToNext_returns, TH|].
  intros _ s1 _.
  ret_read_button (Rm (tick s1)). apply returns_bind, returns_ret.
  ret_read_button (Rs (tick s1 + 1)%nat). apply returns_bind, returns_ret.
  ret_read_button (Rc (tick s1 + 2)%nat). apply returns_ret. exact I.
Qed.

Lemma RtcDirect_minute_inc_returns :
  sampled env s 1 PIN_BTN_HOUR_INC HIGH ->
  sampled env s 2 PIN_BTN_MINUTE_INC LOW ->
  released env PIN_BTN_SAVE -> released env PIN_BTN_MODE_CANCEL ->
  toggles env PIN_STEP_SWITCH_MINUTE ->
  returns (RtcDirect.handleButtons env) s (fun _ _ => True).
Proof.
  intros Hh Hm Rs Rc TM. unfold RtcDirect.handleButtons.
  ret_enter Hcool Hmode. ret_read_button Hh. apply returns_bind, returns_ret.
  ret_read_button Hm. apply returns_bind. ret_prims.
  eapply returns_conseq; [apply moveMinuteStep_returns, TM|].
  intros _ s1 _.
  ret_read_button (Rs (tick s1)). apply returns_bind, returns_ret.
  ret_read_button (Rc (tick s1 + 1)%nat). apply returns_ret. exact I.
Qed.

End Increments.

(** X18.  In setting mode, past the cooldown, with a dial that turns when
    driven: a call of the handler that reads the hour button pressed
    returns, having put [settingHour] and [currentHourOnClock] one up
    modulo 24 and left the minute pair, the mode and the RTC alone; one
    that reads the minute button pressed (hour button released) does the
    same on the minute pair modulo 60.  In the second sketch this is for
    the other buttons released. *)
Theorem X18_increments_complete env s :
  notInCooldown env s ->
  currentMode s = SETTING_MODE ->
  (sampled env s 1 PIN_BTN_HOUR_INC LOW ->
   toggles env PIN_STEP_SWITCH_HOUR ->
   returns (RtcExpander.handleButtons env) s
     (fun _ s' => incremented servoHour (Some tt) s s')) /\
  (sampled env s 1 PIN_BTN_HOUR_INC HIGH ->
   sampled env s 2 PIN_BTN_MINUTE_INC LOW ->
   toggles env PIN_STEP_SWITCH_MINUTE ->
   returns (RtcExpander.handleButtons env) s
     (fun _ s' => incremented servoMinute (Some tt) s s')) /\
  (sampled env s 1 PIN_BTN_HOUR_INC LOW ->
   released env PIN_BTN_MINUTE_INC -> released env PIN_BTN_SAVE ->
   released env PIN_BTN_MODE_CANCEL ->
   toggles env PIN_STEP_SWITCH_HOUR ->
   returns (RtcDirect.handleButtons env) s
     (fun _ s' => incremented servoHour (Some tt) s s')) /\
  (sampled env s 1 PIN_BTN_HOUR_INC HIGH ->
   sampled env s 2 PIN_BTN_MINUTE_INC LOW ->
   released env PIN_BTN_SAVE -> released env PIN_BTN_MODE_CANCEL ->
   toggles env PIN_STEP_SWITCH_MINUTE ->
   returns (RtcDirect.handleButtons env) s
     (fun _ s' => incremented servoMinute (Some tt) s s')).
Proof.
  intros Hcool Hmode.
  assert (Hfin : forall (f : Prog unit) sv,
    returns f s (fun _ _ => True) ->
    wlp f s (fun r s' => incremented sv r s s') ->
    returns f s (fun _ s' => incremented sv (Some tt) s s')).
  { intros f sv Hr Hw. eapply returns_conseq; [apply returns_wlp; eassumption|].
    intros [] s' H. exact H. }
  split; [|split; [|split]].
  - intros Hh TH. apply Hfin.
    + apply RtcExpander_hour_inc_returns; assumption.
    + apply RtcExpander_hour_inc; assumption.
  - intros Hh Hm TM. apply Hfin.
    + apply RtcExpander_minute_inc_returns; assumption.
    + apply RtcExpander_minute_inc; assumption.
  - intros Hh Rm Rs Rc TH. apply Hfin.
    + apply RtcDirect_hour_inc_returns; assumption.
    + apply RtcDirect_hour_inc; assumption.
  - intros Hh Hm Rs Rc TM. apply Hfin.
    + apply RtcDirect_minute_inc_returns; assumption.
    + apply RtcDirect_minute_inc; assumption.
Qed.

(** Only the minute button held on the panel, second sketch. *)
Lemma X18_witness :
  returns (RtcDirect.handleButtons (panelEnv (Pin_eqb PIN_BTN_MINUTE_INC)))
    settingState
    (fun _ s' => incremented servoMinute (Some tt) settingState s').
Proof.
  apply (X18_increments_complete (panelEnv (Pin_eqb PIN_BTN_MINUTE_INC))
           settingState); try reflexivity.
  - intros t. reflexivity.
  - intros t. reflexivity.
  - apply panelEnv_toggles. reflexivity.
Defined.
